(** * The YM3812 (OPL2) FM synthesis core of SIDKick-pico

    A shallow embedding of [Source/fmopl.c]: the register decoder
    ([OPLWriteReg]), the envelope, phase and noise clocks ([advance]), the
    LFO ([advance_lfo]), the operator network ([OPL_CALC_CH],
    [OPL_CALC_RH]) and the sample loop ([ym3812_update_one]), followed by
    the properties of the specification that are stated over them.

    Conventions of the embedding.
    - C integers are [Z]; where the C arithmetic is unsigned 32-bit the
      wrap-around is written with [u32], signed conversions with [s32].
      The header [fmopl.h] (the struct declarations) is not part of the
      sources: the field widths follow the casts and the comments of
      [fmopl.c] ([UINT32] counters, a signed [volume]); the status
      register and its mask are bytes.
    - Constant tables are lists read with [tab]; an index outside the
      table (undefined in C) reads 0.
    - The nine channels [P_CH[9]] are a list; a channel that is absent
      from the list is left alone by every operation.
    - The file-scope scratch variables ([output], [phase_modulation],
      [LFO_AM], ...) and the two tables filled by [init_tables] form the
      record [globals]; the pointer cache [cur_chip], [SLOT7_1] ...
      [SLOT8_2] is not among them (see [ym3812_update_one]).
    - Everything that [fmopl.c] computes in floating point ([init_tables],
      [OPL_initalize]) enters through the record [fp_derived].
    - [fmopl.c] does not define [EVAL_FN_TAB]: of the two conditional
      branches the embedding has the one that reads the table [fn_tab]. *)

From stdpp Require Import list.
From Stdlib Require Import ZArith Lia.

#[local] Open Scope Z_scope.

(** ** Machine integers *)

Definition u32 (x : Z) : Z := x mod 2 ^ 32.
Definition u16 (x : Z) : Z := x mod 2 ^ 16.
Definition u8 (x : Z) : Z := x mod 2 ^ 8.

Definition s32 (x : Z) : Z :=
  let y := x mod 2 ^ 32 in if y <? 2 ^ 31 then y else y - 2 ^ 32.

Definition s16 (x : Z) : Z :=
  let y := x mod 2 ^ 16 in if y <? 2 ^ 15 then y else y - 2 ^ 16.

(** [tab t i] is [t[i]]. *)
Definition tab (t : list Z) (i : Z) : Z :=
  if i <? 0 then 0 else nth (Z.to_nat i) t 0.

(** C truth value of an integer. *)
Definition nz (x : Z) : bool := negb (x =? 0).

(** ** Constants *)

Definition FINAL_SH : Z := 0.
Definition MAXOUT : Z := 32767.
Definition MINOUT : Z := -32768.

Definition FREQ_SH : Z := 16.
Definition EG_SH : Z := 16.
Definition LFO_SH : Z := 24.
Definition FREQ_MASK : Z := Z.shiftl 1 FREQ_SH - 1.

Definition ENV_BITS : Z := 10.
Definition MAX_ATT_INDEX : Z := Z.shiftl 1 (ENV_BITS - 1) - 1.
Definition MIN_ATT_INDEX : Z := 0.

Definition SIN_BITS : Z := 10.
Definition SIN_LEN : Z := Z.shiftl 1 SIN_BITS.
Definition SIN_MASK : Z := SIN_LEN - 1.

Definition TL_RES_LEN : Z := 256.
Definition TL_TAB_LEN : Z := 12 * TL_RES_LEN.
Definition ENV_QUIET : Z := Z.shiftr TL_TAB_LEN 4.

Definition EG_ATT : Z := 4.
Definition EG_DEC : Z := 3.
Definition EG_SUS : Z := 2.
Definition EG_REL : Z := 1.
Definition EG_OFF : Z := 0.

Definition OPL_TYPE_WAVESEL : Z := 1.
Definition OPL_TYPE_YM3812 : Z := OPL_TYPE_WAVESEL.

Definition RATE_STEPS : Z := 8.
Definition LFO_AM_TAB_ELEMENTS : Z := 210.

(** ** Constant tables *)

(** mapping of register number (offset) to slot number *)
Definition slot_array : list Z := [
    0; 2; 4; 1; 3; 5; -1; -1;
    6; 8; 10; 7; 9; 11; -1; -1;
    12; 14; 16; 13; 15; 17; -1; -1;
    -1; -1; -1; -1; -1; -1; -1; -1
  ].

(** key scale level: the entries [x / DV] with [DV = 0.1875 / 2],
    all of them integers *)
Definition ksl_tab : list Z := [
    0; 0; 0; 0; 0; 0; 0; 0; 0; 0; 0; 0; 0; 0; 0; 0;
    0; 0; 0; 0; 0; 0; 0; 0; 0; 8; 12; 16; 20; 24; 28; 32;
    0; 0; 0; 0; 0; 12; 20; 28; 32; 40; 44; 48; 52; 56; 60; 64;
    0; 0; 0; 20; 32; 44; 52; 60; 64; 72; 76; 80; 84; 88; 92; 96;
    0; 0; 32; 52; 64; 76; 84; 92; 96; 104; 108; 112; 116; 120; 124; 128;
    0; 32; 64; 84; 96; 108; 116; 124; 128; 136; 140; 144; 148; 152; 156; 160;
    0; 64; 96; 116; 128; 140; 148; 156; 160; 168; 172; 176; 180; 184; 188; 192;
    0; 96; 128; 148; 160; 172; 180; 188; 192; 200; 204; 208; 212; 216; 220; 224
  ].
(** sustain level table: [SC(db) = db * (1 / ENV_STEP)], [ENV_STEP = 128 / 1024] *)
Definition sl_tab : list Z := [
    0; 8; 16; 24; 32; 40; 48; 56;
    64; 72; 80; 88; 96; 104; 112; 248
  ].

Definition eg_inc : list Z := [
    0; 1; 0; 1; 0; 1; 0; 1;
    0; 1; 0; 1; 1; 1; 0; 1;
    0; 1; 1; 1; 0; 1; 1; 1;
    0; 1; 1; 1; 1; 1; 1; 1;

    1; 1; 1; 1; 1; 1; 1; 1;
    1; 1; 1; 2; 1; 1; 1; 2;
    1; 2; 1; 2; 1; 2; 1; 2;
    1; 2; 2; 2; 1; 2; 2; 2;

    2; 2; 2; 2; 2; 2; 2; 2;
    2; 2; 2; 4; 2; 2; 2; 4;
    2; 4; 2; 4; 2; 4; 2; 4;
    2; 4; 4; 4; 2; 4; 4; 4;

    4; 4; 4; 4; 4; 4; 4; 4;
    8; 8; 8; 8; 8; 8; 8; 8;
    0; 0; 0; 0; 0; 0; 0; 0
  ].

(** [O(a) = a * RATE_STEPS] *)
Definition eg_rate_select : list Z :=
  map (fun a => a * RATE_STEPS) [
    14; 14; 14; 14; 14; 14; 14; 14;
    14; 14; 14; 14; 14; 14; 14; 14;

    0; 1; 2; 3;  0; 1; 2; 3;  0; 1; 2; 3;  0; 1; 2; 3;
    0; 1; 2; 3;  0; 1; 2; 3;  0; 1; 2; 3;  0; 1; 2; 3;
    0; 1; 2; 3;  0; 1; 2; 3;  0; 1; 2; 3;  0; 1; 2; 3;
    0; 1; 2; 3;

    4; 5; 6; 7;
    8; 9; 10; 11;
    12; 12; 12; 12;

    12; 12; 12; 12; 12; 12; 12; 12;
    12; 12; 12; 12; 12; 12; 12; 12
  ].

Definition eg_rate_shift : list Z := [
    0; 0; 0; 0; 0; 0; 0; 0;
    0; 0; 0; 0; 0; 0; 0; 0;

    12; 12; 12; 12;  11; 11; 11; 11;  10; 10; 10; 10;  9; 9; 9; 9;
    8; 8; 8; 8;  7; 7; 7; 7;  6; 6; 6; 6;  5; 5; 5; 5;
    4; 4; 4; 4;  3; 3; 3; 3;  2; 2; 2; 2;  1; 1; 1; 1;
    0; 0; 0; 0;

    0; 0; 0; 0;
    0; 0; 0; 0;
    0; 0; 0; 0;

    0; 0; 0; 0; 0; 0; 0; 0;
    0; 0; 0; 0; 0; 0; 0; 0
  ].

Definition mul_tab8 : list Z := [
    1; 2; 4; 6; 8; 10; 12; 14; 16; 18; 20; 20; 24; 24; 30; 30
  ].

Definition lfo_am_table : list Z := [
    0; 0; 0; 0; 0; 0; 0;
    1; 1; 1; 1;  2; 2; 2; 2;  3; 3; 3; 3;  4; 4; 4; 4;
    5; 5; 5; 5;  6; 6; 6; 6;  7; 7; 7; 7;  8; 8; 8; 8;
    9; 9; 9; 9;  10; 10; 10; 10;  11; 11; 11; 11;  12; 12; 12; 12;
    13; 13; 13; 13;  14; 14; 14; 14;  15; 15; 15; 15;  16; 16; 16; 16;
    17; 17; 17; 17;  18; 18; 18; 18;  19; 19; 19; 19;  20; 20; 20; 20;
    21; 21; 21; 21;  22; 22; 22; 22;  23; 23; 23; 23;  24; 24; 24; 24;
    25; 25; 25; 25;
    26; 26; 26;
    25; 25; 25; 25;  24; 24; 24; 24;  23; 23; 23; 23;  22; 22; 22; 22;
    21; 21; 21; 21;  20; 20; 20; 20;  19; 19; 19; 19;  18; 18; 18; 18;
    17; 17; 17; 17;  16; 16; 16; 16;  15; 15; 15; 15;  14; 14; 14; 14;
    13; 13; 13; 13;  12; 12; 12; 12;  11; 11; 11; 11;  10; 10; 10; 10;
    9; 9; 9; 9;  8; 8; 8; 8;  7; 7; 7; 7;  6; 6; 6; 6;
    5; 5; 5; 5;  4; 4; 4; 4;  3; 3; 3; 3;  2; 2; 2; 2;
    1; 1; 1; 1
  ].

Definition lfo_pm_table : list Z := [
    0; 0; 0; 0; 0; 0; 0; 0;
    0; 0; 0; 0; 0; 0; 0; 0;

    0; 0; 0; 0; 0; 0; 0; 0;
    1; 0; 0; 0; -1; 0; 0; 0;

    1; 0; 0; 0; -1; 0; 0; 0;
    2; 1; 0; -1; -2; -1; 0; 1;

    1; 0; 0; 0; -1; 0; 0; 0;
    3; 1; 0; -1; -3; -1; 0; 1;

    2; 1; 0; -1; -2; -1; 0; 1;
    4; 2; 0; -2; -4; -2; 0; 2;

    2; 1; 0; -1; -2; -1; 0; 1;
    5; 2; 0; -2; -5; -2; 0; 2;

    3; 1; 0; -1; -3; -1; 0; 1;
    6; 3; 0; -3; -6; -3; 0; 3;

    3; 1; 0; -1; -3; -1; 0; 1;
    7; 3; 0; -3; -7; -3; 0; 3
  ].

(** ** Chip state *)

(** The target of [connect1]: [&output[0]], [&phase_modulation], or the
    null pointer that [memset] leaves in a chip before its first reset. *)
#[local] Set Primitive Projections.

Inductive conn : Type :=
  | conn_null
  | conn_output
  | conn_phase_modulation.

Record OPL_SLOT : Type := Build_OPL_SLOT {
  ar : Z;  (* attack rate: AR<<2 *)
  dr : Z;  (* decay rate: DR<<2 *)
  rr : Z;  (* release rate: RR<<2 *)
  KSR : Z;  (* key scale rate *)
  ksl : Z;  (* keyscale level *)
  ksr : Z;  (* key scale rate: kcode>>KSR *)
  mul : Z;  (* multiple: mul_tab8[ML] *)
  Cnt : Z;  (* frequency counter, 16.16 *)
  Incr : Z;  (* frequency counter step *)
  FB : Z;  (* feedback shift value *)
  connect1 : conn;  (* slot1 output pointer *)
  op1_out0 : Z;  (* op1_out[0] *)
  op1_out1 : Z;  (* op1_out[1] *)
  CON : Z;  (* connection (algorithm) type *)
  eg_type : Z;  (* percussive/non-percussive mode *)
  state : Z;  (* phase type *)
  TL : Z;  (* total level: TL << 2 *)
  TLL : Z;  (* adjusted now TL *)
  volume : Z;  (* envelope counter *)
  sl : Z;  (* sustain level: sl_tab[SL] << 1 *)
  eg_sh_ar : Z;
  eg_sel_ar : Z;
  eg_sh_dr : Z;
  eg_sel_dr : Z;
  eg_sh_rr : Z;
  eg_sel_rr : Z;
  key : Z;  (* 0 = KEY OFF, >0 = KEY ON *)
  AMmask : Z;  (* LFO Amplitude Modulation enable mask *)
  vib : Z;  (* LFO Phase Modulation enable flag *)
  wavetable : Z  (* waveform select *)
}.

Definition with_ar (x : Z) (r : OPL_SLOT) : OPL_SLOT :=
  {| ar := x; dr := dr r; rr := rr r; KSR := KSR r; ksl := ksl r; ksr := ksr r; mul := mul r;
     Cnt := Cnt r; Incr := Incr r; FB := FB r; connect1 := connect1 r; op1_out0 := op1_out0 r;
     op1_out1 := op1_out1 r; CON := CON r; eg_type := eg_type r; state := state r; TL := TL r;
     TLL := TLL r; volume := volume r; sl := sl r; eg_sh_ar := eg_sh_ar r;
     eg_sel_ar := eg_sel_ar r; eg_sh_dr := eg_sh_dr r; eg_sel_dr := eg_sel_dr r;
     eg_sh_rr := eg_sh_rr r; eg_sel_rr := eg_sel_rr r; key := key r; AMmask := AMmask r;
     vib := vib r; wavetable := wavetable r |}.
Definition with_dr (x : Z) (r : OPL_SLOT) : OPL_SLOT :=
  {| ar := ar r; dr := x; rr := rr r; KSR := KSR r; ksl := ksl r; ksr := ksr r; mul := mul r;
     Cnt := Cnt r; Incr := Incr r; FB := FB r; connect1 := connect1 r; op1_out0 := op1_out0 r;
     op1_out1 := op1_out1 r; CON := CON r; eg_type := eg_type r; state := state r; TL := TL r;
     TLL := TLL r; volume := volume r; sl := sl r; eg_sh_ar := eg_sh_ar r;
     eg_sel_ar := eg_sel_ar r; eg_sh_dr := eg_sh_dr r; eg_sel_dr := eg_sel_dr r;
     eg_sh_rr := eg_sh_rr r; eg_sel_rr := eg_sel_rr r; key := key r; AMmask := AMmask r;
     vib := vib r; wavetable := wavetable r |}.
Definition with_rr (x : Z) (r : OPL_SLOT) : OPL_SLOT :=
  {| ar := ar r; dr := dr r; rr := x; KSR := KSR r; ksl := ksl r; ksr := ksr r; mul := mul r;
     Cnt := Cnt r; Incr := Incr r; FB := FB r; connect1 := connect1 r; op1_out0 := op1_out0 r;
     op1_out1 := op1_out1 r; CON := CON r; eg_type := eg_type r; state := state r; TL := TL r;
     TLL := TLL r; volume := volume r; sl := sl r; eg_sh_ar := eg_sh_ar r;
     eg_sel_ar := eg_sel_ar r; eg_sh_dr := eg_sh_dr r; eg_sel_dr := eg_sel_dr r;
     eg_sh_rr := eg_sh_rr r; eg_sel_rr := eg_sel_rr r; key := key r; AMmask := AMmask r;
     vib := vib r; wavetable := wavetable r |}.
Definition with_KSR (x : Z) (r : OPL_SLOT) : OPL_SLOT :=
  {| ar := ar r; dr := dr r; rr := rr r; KSR := x; ksl := ksl r; ksr := ksr r; mul := mul r;
     Cnt := Cnt r; Incr := Incr r; FB := FB r; connect1 := connect1 r; op1_out0 := op1_out0 r;
     op1_out1 := op1_out1 r; CON := CON r; eg_type := eg_type r; state := state r; TL := TL r;
     TLL := TLL r; volume := volume r; sl := sl r; eg_sh_ar := eg_sh_ar r;
     eg_sel_ar := eg_sel_ar r; eg_sh_dr := eg_sh_dr r; eg_sel_dr := eg_sel_dr r;
     eg_sh_rr := eg_sh_rr r; eg_sel_rr := eg_sel_rr r; key := key r; AMmask := AMmask r;
     vib := vib r; wavetable := wavetable r |}.
Definition with_ksl (x : Z) (r : OPL_SLOT) : OPL_SLOT :=
  {| ar := ar r; dr := dr r; rr := rr r; KSR := KSR r; ksl := x; ksr := ksr r; mul := mul r;
     Cnt := Cnt r; Incr := Incr r; FB := FB r; connect1 := connect1 r; op1_out0 := op1_out0 r;
     op1_out1 := op1_out1 r; CON := CON r; eg_type := eg_type r; state := state r; TL := TL r;
     TLL := TLL r; volume := volume r; sl := sl r; eg_sh_ar := eg_sh_ar r;
     eg_sel_ar := eg_sel_ar r; eg_sh_dr := eg_sh_dr r; eg_sel_dr := eg_sel_dr r;
     eg_sh_rr := eg_sh_rr r; eg_sel_rr := eg_sel_rr r; key := key r; AMmask := AMmask r;
     vib := vib r; wavetable := wavetable r |}.
Definition with_ksr (x : Z) (r : OPL_SLOT) : OPL_SLOT :=
  {| ar := ar r; dr := dr r; rr := rr r; KSR := KSR r; ksl := ksl r; ksr := x; mul := mul r;
     Cnt := Cnt r; Incr := Incr r; FB := FB r; connect1 := connect1 r; op1_out0 := op1_out0 r;
     op1_out1 := op1_out1 r; CON := CON r; eg_type := eg_type r; state := state r; TL := TL r;
     TLL := TLL r; volume := volume r; sl := sl r; eg_sh_ar := eg_sh_ar r;
     eg_sel_ar := eg_sel_ar r; eg_sh_dr := eg_sh_dr r; eg_sel_dr := eg_sel_dr r;
     eg_sh_rr := eg_sh_rr r; eg_sel_rr := eg_sel_rr r; key := key r; AMmask := AMmask r;
     vib := vib r; wavetable := wavetable r |}.
Definition with_mul (x : Z) (r : OPL_SLOT) : OPL_SLOT :=
  {| ar := ar r; dr := dr r; rr := rr r; KSR := KSR r; ksl := ksl r; ksr := ksr r; mul := x;
     Cnt := Cnt r; Incr := Incr r; FB := FB r; connect1 := connect1 r; op1_out0 := op1_out0 r;
     op1_out1 := op1_out1 r; CON := CON r; eg_type := eg_type r; state := state r; TL := TL r;
     TLL := TLL r; volume := volume r; sl := sl r; eg_sh_ar := eg_sh_ar r;
     eg_sel_ar := eg_sel_ar r; eg_sh_dr := eg_sh_dr r; eg_sel_dr := eg_sel_dr r;
     eg_sh_rr := eg_sh_rr r; eg_sel_rr := eg_sel_rr r; key := key r; AMmask := AMmask r;
     vib := vib r; wavetable := wavetable r |}.
Definition with_Cnt (x : Z) (r : OPL_SLOT) : OPL_SLOT :=
  {| ar := ar r; dr := dr r; rr := rr r; KSR := KSR r; ksl := ksl r; ksr := ksr r;
     mul := mul r; Cnt := x; Incr := Incr r; FB := FB r; connect1 := connect1 r;
     op1_out0 := op1_out0 r; op1_out1 := op1_out1 r; CON := CON r; eg_type := eg_type r;
     state := state r; TL := TL r; TLL := TLL r; volume := volume r; sl := sl r;
     eg_sh_ar := eg_sh_ar r; eg_sel_ar := eg_sel_ar r; eg_sh_dr := eg_sh_dr r;
     eg_sel_dr := eg_sel_dr r; eg_sh_rr := eg_sh_rr r; eg_sel_rr := eg_sel_rr r; key := key r;
     AMmask := AMmask r; vib := vib r; wavetable := wavetable r |}.
Definition with_Incr (x : Z) (r : OPL_SLOT) : OPL_SLOT :=
  {| ar := ar r; dr := dr r; rr := rr r; KSR := KSR r; ksl := ksl r; ksr := ksr r;
     mul := mul r; Cnt := Cnt r; Incr := x; FB := FB r; connect1 := connect1 r;
     op1_out0 := op1_out0 r; op1_out1 := op1_out1 r; CON := CON r; eg_type := eg_type r;
     state := state r; TL := TL r; TLL := TLL r; volume := volume r; sl := sl r;
     eg_sh_ar := eg_sh_ar r; eg_sel_ar := eg_sel_ar r; eg_sh_dr := eg_sh_dr r;
     eg_sel_dr := eg_sel_dr r; eg_sh_rr := eg_sh_rr r; eg_sel_rr := eg_sel_rr r; key := key r;
     AMmask := AMmask r; vib := vib r; wavetable := wavetable r |}.
Definition with_FB (x : Z) (r : OPL_SLOT) : OPL_SLOT :=
  {| ar := ar r; dr := dr r; rr := rr r; KSR := KSR r; ksl := ksl r; ksr := ksr r;
     mul := mul r; Cnt := Cnt r; Incr := Incr r; FB := x; connect1 := connect1 r;
     op1_out0 := op1_out0 r; op1_out1 := op1_out1 r; CON := CON r; eg_type := eg_type r;
     state := state r; TL := TL r; TLL := TLL r; volume := volume r; sl := sl r;
     eg_sh_ar := eg_sh_ar r; eg_sel_ar := eg_sel_ar r; eg_sh_dr := eg_sh_dr r;
     eg_sel_dr := eg_sel_dr r; eg_sh_rr := eg_sh_rr r; eg_sel_rr := eg_sel_rr r; key := key r;
     AMmask := AMmask r; vib := vib r; wavetable := wavetable r |}.
Definition with_connect1 (x : conn) (r : OPL_SLOT) : OPL_SLOT :=
  {| ar := ar r; dr := dr r; rr := rr r; KSR := KSR r; ksl := ksl r; ksr := ksr r;
     mul := mul r; Cnt := Cnt r; Incr := Incr r; FB := FB r; connect1 := x;
     op1_out0 := op1_out0 r; op1_out1 := op1_out1 r; CON := CON r; eg_type := eg_type r;
     state := state r; TL := TL r; TLL := TLL r; volume := volume r; sl := sl r;
     eg_sh_ar := eg_sh_ar r; eg_sel_ar := eg_sel_ar r; eg_sh_dr := eg_sh_dr r;
     eg_sel_dr := eg_sel_dr r; eg_sh_rr := eg_sh_rr r; eg_sel_rr := eg_sel_rr r; key := key r;
     AMmask := AMmask r; vib := vib r; wavetable := wavetable r |}.
Definition with_op1_out0 (x : Z) (r : OPL_SLOT) : OPL_SLOT :=
  {| ar := ar r; dr := dr r; rr := rr r; KSR := KSR r; ksl := ksl r; ksr := ksr r;
     mul := mul r; Cnt := Cnt r; Incr := Incr r; FB := FB r; connect1 := connect1 r;
     op1_out0 := x; op1_out1 := op1_out1 r; CON := CON r; eg_type := eg_type r;
     state := state r; TL := TL r; TLL := TLL r; volume := volume r; sl := sl r;
     eg_sh_ar := eg_sh_ar r; eg_sel_ar := eg_sel_ar r; eg_sh_dr := eg_sh_dr r;
     eg_sel_dr := eg_sel_dr r; eg_sh_rr := eg_sh_rr r; eg_sel_rr := eg_sel_rr r; key := key r;
     AMmask := AMmask r; vib := vib r; wavetable := wavetable r |}.
Definition with_op1_out1 (x : Z) (r : OPL_SLOT) : OPL_SLOT :=
  {| ar := ar r; dr := dr r; rr := rr r; KSR := KSR r; ksl := ksl r; ksr := ksr r;
     mul := mul r; Cnt := Cnt r; Incr := Incr r; FB := FB r; connect1 := connect1 r;
     op1_out0 := op1_out0 r; op1_out1 := x; CON := CON r; eg_type := eg_type r;
     state := state r; TL := TL r; TLL := TLL r; volume := volume r; sl := sl r;
     eg_sh_ar := eg_sh_ar r; eg_sel_ar := eg_sel_ar r; eg_sh_dr := eg_sh_dr r;
     eg_sel_dr := eg_sel_dr r; eg_sh_rr := eg_sh_rr r; eg_sel_rr := eg_sel_rr r; key := key r;
     AMmask := AMmask r; vib := vib r; wavetable := wavetable r |}.
Definition with_CON (x : Z) (r : OPL_SLOT) : OPL_SLOT :=
  {| ar := ar r; dr := dr r; rr := rr r; KSR := KSR r; ksl := ksl r; ksr := ksr r;
     mul := mul r; Cnt := Cnt r; Incr := Incr r; FB := FB r; connect1 := connect1 r;
     op1_out0 := op1_out0 r; op1_out1 := op1_out1 r; CON := x; eg_type := eg_type r;
     state := state r; TL := TL r; TLL := TLL r; volume := volume r; sl := sl r;
     eg_sh_ar := eg_sh_ar r; eg_sel_ar := eg_sel_ar r; eg_sh_dr := eg_sh_dr r;
     eg_sel_dr := eg_sel_dr r; eg_sh_rr := eg_sh_rr r; eg_sel_rr := eg_sel_rr r; key := key r;
     AMmask := AMmask r; vib := vib r; wavetable := wavetable r |}.
Definition with_eg_type (x : Z) (r : OPL_SLOT) : OPL_SLOT :=
  {| ar := ar r; dr := dr r; rr := rr r; KSR := KSR r; ksl := ksl r; ksr := ksr r;
     mul := mul r; Cnt := Cnt r; Incr := Incr r; FB := FB r; connect1 := connect1 r;
     op1_out0 := op1_out0 r; op1_out1 := op1_out1 r; CON := CON r; eg_type := x;
     state := state r; TL := TL r; TLL := TLL r; volume := volume r; sl := sl r;
     eg_sh_ar := eg_sh_ar r; eg_sel_ar := eg_sel_ar r; eg_sh_dr := eg_sh_dr r;
     eg_sel_dr := eg_sel_dr r; eg_sh_rr := eg_sh_rr r; eg_sel_rr := eg_sel_rr r; key := key r;
     AMmask := AMmask r; vib := vib r; wavetable := wavetable r |}.
Definition with_state (x : Z) (r : OPL_SLOT) : OPL_SLOT :=
  {| ar := ar r; dr := dr r; rr := rr r; KSR := KSR r; ksl := ksl r; ksr := ksr r;
     mul := mul r; Cnt := Cnt r; Incr := Incr r; FB := FB r; connect1 := connect1 r;
     op1_out0 := op1_out0 r; op1_out1 := op1_out1 r; CON := CON r; eg_type := eg_type r;
     state := x; TL := TL r; TLL := TLL r; volume := volume r; sl := sl r;
     eg_sh_ar := eg_sh_ar r; eg_sel_ar := eg_sel_ar r; eg_sh_dr := eg_sh_dr r;
     eg_sel_dr := eg_sel_dr r; eg_sh_rr := eg_sh_rr r; eg_sel_rr := eg_sel_rr r; key := key r;
     AMmask := AMmask r; vib := vib r; wavetable := wavetable r |}.
Definition with_TL (x : Z) (r : OPL_SLOT) : OPL_SLOT :=
  {| ar := ar r; dr := dr r; rr := rr r; KSR := KSR r; ksl := ksl r; ksr := ksr r;
     mul := mul r; Cnt := Cnt r; Incr := Incr r; FB := FB r; connect1 := connect1 r;
     op1_out0 := op1_out0 r; op1_out1 := op1_out1 r; CON := CON r; eg_type := eg_type r;
     state := state r; TL := x; TLL := TLL r; volume := volume r; sl := sl r;
     eg_sh_ar := eg_sh_ar r; eg_sel_ar := eg_sel_ar r; eg_sh_dr := eg_sh_dr r;
     eg_sel_dr := eg_sel_dr r; eg_sh_rr := eg_sh_rr r; eg_sel_rr := eg_sel_rr r; key := key r;
     AMmask := AMmask r; vib := vib r; wavetable := wavetable r |}.
Definition with_TLL (x : Z) (r : OPL_SLOT) : OPL_SLOT :=
  {| ar := ar r; dr := dr r; rr := rr r; KSR := KSR r; ksl := ksl r; ksr := ksr r;
     mul := mul r; Cnt := Cnt r; Incr := Incr r; FB := FB r; connect1 := connect1 r;
     op1_out0 := op1_out0 r; op1_out1 := op1_out1 r; CON := CON r; eg_type := eg_type r;
     state := state r; TL := TL r; TLL := x; volume := volume r; sl := sl r;
     eg_sh_ar := eg_sh_ar r; eg_sel_ar := eg_sel_ar r; eg_sh_dr := eg_sh_dr r;
     eg_sel_dr := eg_sel_dr r; eg_sh_rr := eg_sh_rr r; eg_sel_rr := eg_sel_rr r; key := key r;
     AMmask := AMmask r; vib := vib r; wavetable := wavetable r |}.
Definition with_volume (x : Z) (r : OPL_SLOT) : OPL_SLOT :=
  {| ar := ar r; dr := dr r; rr := rr r; KSR := KSR r; ksl := ksl r; ksr := ksr r;
     mul := mul r; Cnt := Cnt r; Incr := Incr r; FB := FB r; connect1 := connect1 r;
     op1_out0 := op1_out0 r; op1_out1 := op1_out1 r; CON := CON r; eg_type := eg_type r;
     state := state r; TL := TL r; TLL := TLL r; volume := x; sl := sl r;
     eg_sh_ar := eg_sh_ar r; eg_sel_ar := eg_sel_ar r; eg_sh_dr := eg_sh_dr r;
     eg_sel_dr := eg_sel_dr r; eg_sh_rr := eg_sh_rr r; eg_sel_rr := eg_sel_rr r; key := key r;
     AMmask := AMmask r; vib := vib r; wavetable := wavetable r |}.
Definition with_sl (x : Z) (r : OPL_SLOT) : OPL_SLOT :=
  {| ar := ar r; dr := dr r; rr := rr r; KSR := KSR r; ksl := ksl r; ksr := ksr r;
     mul := mul r; Cnt := Cnt r; Incr := Incr r; FB := FB r; connect1 := connect1 r;
     op1_out0 := op1_out0 r; op1_out1 := op1_out1 r; CON := CON r; eg_type := eg_type r;
     state := state r; TL := TL r; TLL := TLL r; volume := volume r; sl := x;
     eg_sh_ar := eg_sh_ar r; eg_sel_ar := eg_sel_ar r; eg_sh_dr := eg_sh_dr r;
     eg_sel_dr := eg_sel_dr r; eg_sh_rr := eg_sh_rr r; eg_sel_rr := eg_sel_rr r; key := key r;
     AMmask := AMmask r; vib := vib r; wavetable := wavetable r |}.
Definition with_eg_sh_ar (x : Z) (r : OPL_SLOT) : OPL_SLOT :=
  {| ar := ar r; dr := dr r; rr := rr r; KSR := KSR r; ksl := ksl r; ksr := ksr r;
     mul := mul r; Cnt := Cnt r; Incr := Incr r; FB := FB r; connect1 := connect1 r;
     op1_out0 := op1_out0 r; op1_out1 := op1_out1 r; CON := CON r; eg_type := eg_type r;
     state := state r; TL := TL r; TLL := TLL r; volume := volume r; sl := sl r; eg_sh_ar := x;
     eg_sel_ar := eg_sel_ar r; eg_sh_dr := eg_sh_dr r; eg_sel_dr := eg_sel_dr r;
     eg_sh_rr := eg_sh_rr r; eg_sel_rr := eg_sel_rr r; key := key r; AMmask := AMmask r;
     vib := vib r; wavetable := wavetable r |}.
Definition with_eg_sel_ar (x : Z) (r : OPL_SLOT) : OPL_SLOT :=
  {| ar := ar r; dr := dr r; rr := rr r; KSR := KSR r; ksl := ksl r; ksr := ksr r;
     mul := mul r; Cnt := Cnt r; Incr := Incr r; FB := FB r; connect1 := connect1 r;
     op1_out0 := op1_out0 r; op1_out1 := op1_out1 r; CON := CON r; eg_type := eg_type r;
     state := state r; TL := TL r; TLL := TLL r; volume := volume r; sl := sl r;
     eg_sh_ar := eg_sh_ar r; eg_sel_ar := x; eg_sh_dr := eg_sh_dr r; eg_sel_dr := eg_sel_dr r;
     eg_sh_rr := eg_sh_rr r; eg_sel_rr := eg_sel_rr r; key := key r; AMmask := AMmask r;
     vib := vib r; wavetable := wavetable r |}.
Definition with_eg_sh_dr (x : Z) (r : OPL_SLOT) : OPL_SLOT :=
  {| ar := ar r; dr := dr r; rr := rr r; KSR := KSR r; ksl := ksl r; ksr := ksr r;
     mul := mul r; Cnt := Cnt r; Incr := Incr r; FB := FB r; connect1 := connect1 r;
     op1_out0 := op1_out0 r; op1_out1 := op1_out1 r; CON := CON r; eg_type := eg_type r;
     state := state r; TL := TL r; TLL := TLL r; volume := volume r; sl := sl r;
     eg_sh_ar := eg_sh_ar r; eg_sel_ar := eg_sel_ar r; eg_sh_dr := x; eg_sel_dr := eg_sel_dr r;
     eg_sh_rr := eg_sh_rr r; eg_sel_rr := eg_sel_rr r; key := key r; AMmask := AMmask r;
     vib := vib r; wavetable := wavetable r |}.
Definition with_eg_sel_dr (x : Z) (r : OPL_SLOT) : OPL_SLOT :=
  {| ar := ar r; dr := dr r; rr := rr r; KSR := KSR r; ksl := ksl r; ksr := ksr r;
     mul := mul r; Cnt := Cnt r; Incr := Incr r; FB := FB r; connect1 := connect1 r;
     op1_out0 := op1_out0 r; op1_out1 := op1_out1 r; CON := CON r; eg_type := eg_type r;
     state := state r; TL := TL r; TLL := TLL r; volume := volume r; sl := sl r;
     eg_sh_ar := eg_sh_ar r; eg_sel_ar := eg_sel_ar r; eg_sh_dr := eg_sh_dr r; eg_sel_dr := x;
     eg_sh_rr := eg_sh_rr r; eg_sel_rr := eg_sel_rr r; key := key r; AMmask := AMmask r;
     vib := vib r; wavetable := wavetable r |}.
Definition with_eg_sh_rr (x : Z) (r : OPL_SLOT) : OPL_SLOT :=
  {| ar := ar r; dr := dr r; rr := rr r; KSR := KSR r; ksl := ksl r; ksr := ksr r;
     mul := mul r; Cnt := Cnt r; Incr := Incr r; FB := FB r; connect1 := connect1 r;
     op1_out0 := op1_out0 r; op1_out1 := op1_out1 r; CON := CON r; eg_type := eg_type r;
     state := state r; TL := TL r; TLL := TLL r; volume := volume r; sl := sl r;
     eg_sh_ar := eg_sh_ar r; eg_sel_ar := eg_sel_ar r; eg_sh_dr := eg_sh_dr r;
     eg_sel_dr := eg_sel_dr r; eg_sh_rr := x; eg_sel_rr := eg_sel_rr r; key := key r;
     AMmask := AMmask r; vib := vib r; wavetable := wavetable r |}.
Definition with_eg_sel_rr (x : Z) (r : OPL_SLOT) : OPL_SLOT :=
  {| ar := ar r; dr := dr r; rr := rr r; KSR := KSR r; ksl := ksl r; ksr := ksr r;
     mul := mul r; Cnt := Cnt r; Incr := Incr r; FB := FB r; connect1 := connect1 r;
     op1_out0 := op1_out0 r; op1_out1 := op1_out1 r; CON := CON r; eg_type := eg_type r;
     state := state r; TL := TL r; TLL := TLL r; volume := volume r; sl := sl r;
     eg_sh_ar := eg_sh_ar r; eg_sel_ar := eg_sel_ar r; eg_sh_dr := eg_sh_dr r;
     eg_sel_dr := eg_sel_dr r; eg_sh_rr := eg_sh_rr r; eg_sel_rr := x; key := key r;
     AMmask := AMmask r; vib := vib r; wavetable := wavetable r |}.
Definition with_key (x : Z) (r : OPL_SLOT) : OPL_SLOT :=
  {| ar := ar r; dr := dr r; rr := rr r; KSR := KSR r; ksl := ksl r; ksr := ksr r;
     mul := mul r; Cnt := Cnt r; Incr := Incr r; FB := FB r; connect1 := connect1 r;
     op1_out0 := op1_out0 r; op1_out1 := op1_out1 r; CON := CON r; eg_type := eg_type r;
     state := state r; TL := TL r; TLL := TLL r; volume := volume r; sl := sl r;
     eg_sh_ar := eg_sh_ar r; eg_sel_ar := eg_sel_ar r; eg_sh_dr := eg_sh_dr r;
     eg_sel_dr := eg_sel_dr r; eg_sh_rr := eg_sh_rr r; eg_sel_rr := eg_sel_rr r; key := x;
     AMmask := AMmask r; vib := vib r; wavetable := wavetable r |}.
Definition with_AMmask (x : Z) (r : OPL_SLOT) : OPL_SLOT :=
  {| ar := ar r; dr := dr r; rr := rr r; KSR := KSR r; ksl := ksl r; ksr := ksr r;
     mul := mul r; Cnt := Cnt r; Incr := Incr r; FB := FB r; connect1 := connect1 r;
     op1_out0 := op1_out0 r; op1_out1 := op1_out1 r; CON := CON r; eg_type := eg_type r;
     state := state r; TL := TL r; TLL := TLL r; volume := volume r; sl := sl r;
     eg_sh_ar := eg_sh_ar r; eg_sel_ar := eg_sel_ar r; eg_sh_dr := eg_sh_dr r;
     eg_sel_dr := eg_sel_dr r; eg_sh_rr := eg_sh_rr r; eg_sel_rr := eg_sel_rr r; key := key r;
     AMmask := x; vib := vib r; wavetable := wavetable r |}.
Definition with_vib (x : Z) (r : OPL_SLOT) : OPL_SLOT :=
  {| ar := ar r; dr := dr r; rr := rr r; KSR := KSR r; ksl := ksl r; ksr := ksr r;
     mul := mul r; Cnt := Cnt r; Incr := Incr r; FB := FB r; connect1 := connect1 r;
     op1_out0 := op1_out0 r; op1_out1 := op1_out1 r; CON := CON r; eg_type := eg_type r;
     state := state r; TL := TL r; TLL := TLL r; volume := volume r; sl := sl r;
     eg_sh_ar := eg_sh_ar r; eg_sel_ar := eg_sel_ar r; eg_sh_dr := eg_sh_dr r;
     eg_sel_dr := eg_sel_dr r; eg_sh_rr := eg_sh_rr r; eg_sel_rr := eg_sel_rr r; key := key r;
     AMmask := AMmask r; vib := x; wavetable := wavetable r |}.
Definition with_wavetable (x : Z) (r : OPL_SLOT) : OPL_SLOT :=
  {| ar := ar r; dr := dr r; rr := rr r; KSR := KSR r; ksl := ksl r; ksr := ksr r;
     mul := mul r; Cnt := Cnt r; Incr := Incr r; FB := FB r; connect1 := connect1 r;
     op1_out0 := op1_out0 r; op1_out1 := op1_out1 r; CON := CON r; eg_type := eg_type r;
     state := state r; TL := TL r; TLL := TLL r; volume := volume r; sl := sl r;
     eg_sh_ar := eg_sh_ar r; eg_sel_ar := eg_sel_ar r; eg_sh_dr := eg_sh_dr r;
     eg_sel_dr := eg_sel_dr r; eg_sh_rr := eg_sh_rr r; eg_sel_rr := eg_sel_rr r; key := key r;
     AMmask := AMmask r; vib := vib r; wavetable := x |}.
Record OPL_CH : Type := Build_OPL_CH {
  SLOT1 : OPL_SLOT;  (* SLOT[SLOT1] *)
  SLOT2 : OPL_SLOT;  (* SLOT[SLOT2] *)
  block_fnum : Z;  (* block+fnum *)
  fc : Z;  (* Freq. Increment base *)
  ksl_base : Z;  (* KeyScaleLevel Base step *)
  kcode : Z  (* key code (for key scaling) *)
}.

Definition with_SLOT1 (x : OPL_SLOT) (r : OPL_CH) : OPL_CH :=
  {| SLOT1 := x; SLOT2 := SLOT2 r; block_fnum := block_fnum r; fc := fc r;
     ksl_base := ksl_base r; kcode := kcode r |}.
Definition with_SLOT2 (x : OPL_SLOT) (r : OPL_CH) : OPL_CH :=
  {| SLOT1 := SLOT1 r; SLOT2 := x; block_fnum := block_fnum r; fc := fc r;
     ksl_base := ksl_base r; kcode := kcode r |}.
Definition with_block_fnum (x : Z) (r : OPL_CH) : OPL_CH :=
  {| SLOT1 := SLOT1 r; SLOT2 := SLOT2 r; block_fnum := x; fc := fc r; ksl_base := ksl_base r;
     kcode := kcode r |}.
Definition with_fc (x : Z) (r : OPL_CH) : OPL_CH :=
  {| SLOT1 := SLOT1 r; SLOT2 := SLOT2 r; block_fnum := block_fnum r; fc := x;
     ksl_base := ksl_base r; kcode := kcode r |}.
Definition with_ksl_base (x : Z) (r : OPL_CH) : OPL_CH :=
  {| SLOT1 := SLOT1 r; SLOT2 := SLOT2 r; block_fnum := block_fnum r; fc := fc r; ksl_base := x;
     kcode := kcode r |}.
Definition with_kcode (x : Z) (r : OPL_CH) : OPL_CH :=
  {| SLOT1 := SLOT1 r; SLOT2 := SLOT2 r; block_fnum := block_fnum r; fc := fc r;
     ksl_base := ksl_base r; kcode := x |}.
Record FM_OPL : Type := Build_FM_OPL {
  P_CH : list OPL_CH;  (* OPL/OPL2 chips have 9 channels *)
  eg_cnt : Z;  (* global envelope generator counter *)
  eg_timer : Z;  (* 16.16 fixed point *)
  eg_timer_add : Z;
  eg_timer_overflow : Z;
  rhythm : Z;  (* Rhythm mode *)
  fn_tab : list Z;  (* fnumber->increment counter *)
  lfo_am_depth : Z;
  lfo_pm_depth_range : Z;
  lfo_am_cnt : Z;
  lfo_am_inc : Z;
  lfo_pm_cnt : Z;
  lfo_pm_inc : Z;
  noise_rng : Z;  (* 23 bit noise shift register *)
  noise_p : Z;  (* current noise phase *)
  noise_f : Z;  (* current noise period *)
  wavesel : Z;  (* waveform select enable flag *)
  type : Z;  (* chip type *)
  address : Z;  (* address register *)
  status : Z;  (* status flag *)
  statusmask : Z;  (* status mask *)
  mode : Z;  (* Reg.08 : CSM,notesel,etc. *)
  clock : Z;  (* master clock (Hz) *)
  rate : Z  (* sampling rate (Hz) *)
}.

Definition with_P_CH (x : list OPL_CH) (r : FM_OPL) : FM_OPL :=
  {| P_CH := x; eg_cnt := eg_cnt r; eg_timer := eg_timer r; eg_timer_add := eg_timer_add r;
     eg_timer_overflow := eg_timer_overflow r; rhythm := rhythm r; fn_tab := fn_tab r;
     lfo_am_depth := lfo_am_depth r; lfo_pm_depth_range := lfo_pm_depth_range r;
     lfo_am_cnt := lfo_am_cnt r; lfo_am_inc := lfo_am_inc r; lfo_pm_cnt := lfo_pm_cnt r;
     lfo_pm_inc := lfo_pm_inc r; noise_rng := noise_rng r; noise_p := noise_p r;
     noise_f := noise_f r; wavesel := wavesel r; type := type r; address := address r;
     status := status r; statusmask := statusmask r; mode := mode r; clock := clock r;
     rate := rate r |}.
Definition with_eg_cnt (x : Z) (r : FM_OPL) : FM_OPL :=
  {| P_CH := P_CH r; eg_cnt := x; eg_timer := eg_timer r; eg_timer_add := eg_timer_add r;
     eg_timer_overflow := eg_timer_overflow r; rhythm := rhythm r; fn_tab := fn_tab r;
     lfo_am_depth := lfo_am_depth r; lfo_pm_depth_range := lfo_pm_depth_range r;
     lfo_am_cnt := lfo_am_cnt r; lfo_am_inc := lfo_am_inc r; lfo_pm_cnt := lfo_pm_cnt r;
     lfo_pm_inc := lfo_pm_inc r; noise_rng := noise_rng r; noise_p := noise_p r;
     noise_f := noise_f r; wavesel := wavesel r; type := type r; address := address r;
     status := status r; statusmask := statusmask r; mode := mode r; clock := clock r;
     rate := rate r |}.
Definition with_eg_timer (x : Z) (r : FM_OPL) : FM_OPL :=
  {| P_CH := P_CH r; eg_cnt := eg_cnt r; eg_timer := x; eg_timer_add := eg_timer_add r;
     eg_timer_overflow := eg_timer_overflow r; rhythm := rhythm r; fn_tab := fn_tab r;
     lfo_am_depth := lfo_am_depth r; lfo_pm_depth_range := lfo_pm_depth_range r;
     lfo_am_cnt := lfo_am_cnt r; lfo_am_inc := lfo_am_inc r; lfo_pm_cnt := lfo_pm_cnt r;
     lfo_pm_inc := lfo_pm_inc r; noise_rng := noise_rng r; noise_p := noise_p r;
     noise_f := noise_f r; wavesel := wavesel r; type := type r; address := address r;
     status := status r; statusmask := statusmask r; mode := mode r; clock := clock r;
     rate := rate r |}.
Definition with_eg_timer_add (x : Z) (r : FM_OPL) : FM_OPL :=
  {| P_CH := P_CH r; eg_cnt := eg_cnt r; eg_timer := eg_timer r; eg_timer_add := x;
     eg_timer_overflow := eg_timer_overflow r; rhythm := rhythm r; fn_tab := fn_tab r;
     lfo_am_depth := lfo_am_depth r; lfo_pm_depth_range := lfo_pm_depth_range r;
     lfo_am_cnt := lfo_am_cnt r; lfo_am_inc := lfo_am_inc r; lfo_pm_cnt := lfo_pm_cnt r;
     lfo_pm_inc := lfo_pm_inc r; noise_rng := noise_rng r; noise_p := noise_p r;
     noise_f := noise_f r; wavesel := wavesel r; type := type r; address := address r;
     status := status r; statusmask := statusmask r; mode := mode r; clock := clock r;
     rate := rate r |}.
Definition with_eg_timer_overflow (x : Z) (r : FM_OPL) : FM_OPL :=
  {| P_CH := P_CH r; eg_cnt := eg_cnt r; eg_timer := eg_timer r;
     eg_timer_add := eg_timer_add r; eg_timer_overflow := x; rhythm := rhythm r;
     fn_tab := fn_tab r; lfo_am_depth := lfo_am_depth r;
     lfo_pm_depth_range := lfo_pm_depth_range r; lfo_am_cnt := lfo_am_cnt r;
     lfo_am_inc := lfo_am_inc r; lfo_pm_cnt := lfo_pm_cnt r; lfo_pm_inc := lfo_pm_inc r;
     noise_rng := noise_rng r; noise_p := noise_p r; noise_f := noise_f r;
     wavesel := wavesel r; type := type r; address := address r; status := status r;
     statusmask := statusmask r; mode := mode r; clock := clock r; rate := rate r |}.
Definition with_rhythm (x : Z) (r : FM_OPL) : FM_OPL :=
  {| P_CH := P_CH r; eg_cnt := eg_cnt r; eg_timer := eg_timer r;
     eg_timer_add := eg_timer_add r; eg_timer_overflow := eg_timer_overflow r; rhythm := x;
     fn_tab := fn_tab r; lfo_am_depth := lfo_am_depth r;
     lfo_pm_depth_range := lfo_pm_depth_range r; lfo_am_cnt := lfo_am_cnt r;
     lfo_am_inc := lfo_am_inc r; lfo_pm_cnt := lfo_pm_cnt r; lfo_pm_inc := lfo_pm_inc r;
     noise_rng := noise_rng r; noise_p := noise_p r; noise_f := noise_f r;
     wavesel := wavesel r; type := type r; address := address r; status := status r;
     statusmask := statusmask r; mode := mode r; clock := clock r; rate := rate r |}.
Definition with_fn_tab (x : list Z) (r : FM_OPL) : FM_OPL :=
  {| P_CH := P_CH r; eg_cnt := eg_cnt r; eg_timer := eg_timer r;
     eg_timer_add := eg_timer_add r; eg_timer_overflow := eg_timer_overflow r;
     rhythm := rhythm r; fn_tab := x; lfo_am_depth := lfo_am_depth r;
     lfo_pm_depth_range := lfo_pm_depth_range r; lfo_am_cnt := lfo_am_cnt r;
     lfo_am_inc := lfo_am_inc r; lfo_pm_cnt := lfo_pm_cnt r; lfo_pm_inc := lfo_pm_inc r;
     noise_rng := noise_rng r; noise_p := noise_p r; noise_f := noise_f r;
     wavesel := wavesel r; type := type r; address := address r; status := status r;
     statusmask := statusmask r; mode := mode r; clock := clock r; rate := rate r |}.
Definition with_lfo_am_depth (x : Z) (r : FM_OPL) : FM_OPL :=
  {| P_CH := P_CH r; eg_cnt := eg_cnt r; eg_timer := eg_timer r;
     eg_timer_add := eg_timer_add r; eg_timer_overflow := eg_timer_overflow r;
     rhythm := rhythm r; fn_tab := fn_tab r; lfo_am_depth := x;
     lfo_pm_depth_range := lfo_pm_depth_range r; lfo_am_cnt := lfo_am_cnt r;
     lfo_am_inc := lfo_am_inc r; lfo_pm_cnt := lfo_pm_cnt r; lfo_pm_inc := lfo_pm_inc r;
     noise_rng := noise_rng r; noise_p := noise_p r; noise_f := noise_f r;
     wavesel := wavesel r; type := type r; address := address r; status := status r;
     statusmask := statusmask r; mode := mode r; clock := clock r; rate := rate r |}.
Definition with_lfo_pm_depth_range (x : Z) (r : FM_OPL) : FM_OPL :=
  {| P_CH := P_CH r; eg_cnt := eg_cnt r; eg_timer := eg_timer r;
     eg_timer_add := eg_timer_add r; eg_timer_overflow := eg_timer_overflow r;
     rhythm := rhythm r; fn_tab := fn_tab r; lfo_am_depth := lfo_am_depth r;
     lfo_pm_depth_range := x; lfo_am_cnt := lfo_am_cnt r; lfo_am_inc := lfo_am_inc r;
     lfo_pm_cnt := lfo_pm_cnt r; lfo_pm_inc := lfo_pm_inc r; noise_rng := noise_rng r;
     noise_p := noise_p r; noise_f := noise_f r; wavesel := wavesel r; type := type r;
     address := address r; status := status r; statusmask := statusmask r; mode := mode r;
     clock := clock r; rate := rate r |}.
Definition with_lfo_am_cnt (x : Z) (r : FM_OPL) : FM_OPL :=
  {| P_CH := P_CH r; eg_cnt := eg_cnt r; eg_timer := eg_timer r;
     eg_timer_add := eg_timer_add r; eg_timer_overflow := eg_timer_overflow r;
     rhythm := rhythm r; fn_tab := fn_tab r; lfo_am_depth := lfo_am_depth r;
     lfo_pm_depth_range := lfo_pm_depth_range r; lfo_am_cnt := x; lfo_am_inc := lfo_am_inc r;
     lfo_pm_cnt := lfo_pm_cnt r; lfo_pm_inc := lfo_pm_inc r; noise_rng := noise_rng r;
     noise_p := noise_p r; noise_f := noise_f r; wavesel := wavesel r; type := type r;
     address := address r; status := status r; statusmask := statusmask r; mode := mode r;
     clock := clock r; rate := rate r |}.
Definition with_lfo_am_inc (x : Z) (r : FM_OPL) : FM_OPL :=
  {| P_CH := P_CH r; eg_cnt := eg_cnt r; eg_timer := eg_timer r;
     eg_timer_add := eg_timer_add r; eg_timer_overflow := eg_timer_overflow r;
     rhythm := rhythm r; fn_tab := fn_tab r; lfo_am_depth := lfo_am_depth r;
     lfo_pm_depth_range := lfo_pm_depth_range r; lfo_am_cnt := lfo_am_cnt r; lfo_am_inc := x;
     lfo_pm_cnt := lfo_pm_cnt r; lfo_pm_inc := lfo_pm_inc r; noise_rng := noise_rng r;
     noise_p := noise_p r; noise_f := noise_f r; wavesel := wavesel r; type := type r;
     address := address r; status := status r; statusmask := statusmask r; mode := mode r;
     clock := clock r; rate := rate r |}.
Definition with_lfo_pm_cnt (x : Z) (r : FM_OPL) : FM_OPL :=
  {| P_CH := P_CH r; eg_cnt := eg_cnt r; eg_timer := eg_timer r;
     eg_timer_add := eg_timer_add r; eg_timer_overflow := eg_timer_overflow r;
     rhythm := rhythm r; fn_tab := fn_tab r; lfo_am_depth := lfo_am_depth r;
     lfo_pm_depth_range := lfo_pm_depth_range r; lfo_am_cnt := lfo_am_cnt r;
     lfo_am_inc := lfo_am_inc r; lfo_pm_cnt := x; lfo_pm_inc := lfo_pm_inc r;
     noise_rng := noise_rng r; noise_p := noise_p r; noise_f := noise_f r;
     wavesel := wavesel r; type := type r; address := address r; status := status r;
     statusmask := statusmask r; mode := mode r; clock := clock r; rate := rate r |}.
Definition with_lfo_pm_inc (x : Z) (r : FM_OPL) : FM_OPL :=
  {| P_CH := P_CH r; eg_cnt := eg_cnt r; eg_timer := eg_timer r;
     eg_timer_add := eg_timer_add r; eg_timer_overflow := eg_timer_overflow r;
     rhythm := rhythm r; fn_tab := fn_tab r; lfo_am_depth := lfo_am_depth r;
     lfo_pm_depth_range := lfo_pm_depth_range r; lfo_am_cnt := lfo_am_cnt r;
     lfo_am_inc := lfo_am_inc r; lfo_pm_cnt := lfo_pm_cnt r; lfo_pm_inc := x;
     noise_rng := noise_rng r; noise_p := noise_p r; noise_f := noise_f r;
     wavesel := wavesel r; type := type r; address := address r; status := status r;
     statusmask := statusmask r; mode := mode r; clock := clock r; rate := rate r |}.
Definition with_noise_rng (x : Z) (r : FM_OPL) : FM_OPL :=
  {| P_CH := P_CH r; eg_cnt := eg_cnt r; eg_timer := eg_timer r;
     eg_timer_add := eg_timer_add r; eg_timer_overflow := eg_timer_overflow r;
     rhythm := rhythm r; fn_tab := fn_tab r; lfo_am_depth := lfo_am_depth r;
     lfo_pm_depth_range := lfo_pm_depth_range r; lfo_am_cnt := lfo_am_cnt r;
     lfo_am_inc := lfo_am_inc r; lfo_pm_cnt := lfo_pm_cnt r; lfo_pm_inc := lfo_pm_inc r;
     noise_rng := x; noise_p := noise_p r; noise_f := noise_f r; wavesel := wavesel r;
     type := type r; address := address r; status := status r; statusmask := statusmask r;
     mode := mode r; clock := clock r; rate := rate r |}.
Definition with_noise_p (x : Z) (r : FM_OPL) : FM_OPL :=
  {| P_CH := P_CH r; eg_cnt := eg_cnt r; eg_timer := eg_timer r;
     eg_timer_add := eg_timer_add r; eg_timer_overflow := eg_timer_overflow r;
     rhythm := rhythm r; fn_tab := fn_tab r; lfo_am_depth := lfo_am_depth r;
     lfo_pm_depth_range := lfo_pm_depth_range r; lfo_am_cnt := lfo_am_cnt r;
     lfo_am_inc := lfo_am_inc r; lfo_pm_cnt := lfo_pm_cnt r; lfo_pm_inc := lfo_pm_inc r;
     noise_rng := noise_rng r; noise_p := x; noise_f := noise_f r; wavesel := wavesel r;
     type := type r; address := address r; status := status r; statusmask := statusmask r;
     mode := mode r; clock := clock r; rate := rate r |}.
Definition with_noise_f (x : Z) (r : FM_OPL) : FM_OPL :=
  {| P_CH := P_CH r; eg_cnt := eg_cnt r; eg_timer := eg_timer r;
     eg_timer_add := eg_timer_add r; eg_timer_overflow := eg_timer_overflow r;
     rhythm := rhythm r; fn_tab := fn_tab r; lfo_am_depth := lfo_am_depth r;
     lfo_pm_depth_range := lfo_pm_depth_range r; lfo_am_cnt := lfo_am_cnt r;
     lfo_am_inc := lfo_am_inc r; lfo_pm_cnt := lfo_pm_cnt r; lfo_pm_inc := lfo_pm_inc r;
     noise_rng := noise_rng r; noise_p := noise_p r; noise_f := x; wavesel := wavesel r;
     type := type r; address := address r; status := status r; statusmask := statusmask r;
     mode := mode r; clock := clock r; rate := rate r |}.
Definition with_wavesel (x : Z) (r : FM_OPL) : FM_OPL :=
  {| P_CH := P_CH r; eg_cnt := eg_cnt r; eg_timer := eg_timer r;
     eg_timer_add := eg_timer_add r; eg_timer_overflow := eg_timer_overflow r;
     rhythm := rhythm r; fn_tab := fn_tab r; lfo_am_depth := lfo_am_depth r;
     lfo_pm_depth_range := lfo_pm_depth_range r; lfo_am_cnt := lfo_am_cnt r;
     lfo_am_inc := lfo_am_inc r; lfo_pm_cnt := lfo_pm_cnt r; lfo_pm_inc := lfo_pm_inc r;
     noise_rng := noise_rng r; noise_p := noise_p r; noise_f := noise_f r; wavesel := x;
     type := type r; address := address r; status := status r; statusmask := statusmask r;
     mode := mode r; clock := clock r; rate := rate r |}.
Definition with_type (x : Z) (r : FM_OPL) : FM_OPL :=
  {| P_CH := P_CH r; eg_cnt := eg_cnt r; eg_timer := eg_timer r;
     eg_timer_add := eg_timer_add r; eg_timer_overflow := eg_timer_overflow r;
     rhythm := rhythm r; fn_tab := fn_tab r; lfo_am_depth := lfo_am_depth r;
     lfo_pm_depth_range := lfo_pm_depth_range r; lfo_am_cnt := lfo_am_cnt r;
     lfo_am_inc := lfo_am_inc r; lfo_pm_cnt := lfo_pm_cnt r; lfo_pm_inc := lfo_pm_inc r;
     noise_rng := noise_rng r; noise_p := noise_p r; noise_f := noise_f r;
     wavesel := wavesel r; type := x; address := address r; status := status r;
     statusmask := statusmask r; mode := mode r; clock := clock r; rate := rate r |}.
Definition with_address (x : Z) (r : FM_OPL) : FM_OPL :=
  {| P_CH := P_CH r; eg_cnt := eg_cnt r; eg_timer := eg_timer r;
     eg_timer_add := eg_timer_add r; eg_timer_overflow := eg_timer_overflow r;
     rhythm := rhythm r; fn_tab := fn_tab r; lfo_am_depth := lfo_am_depth r;
     lfo_pm_depth_range := lfo_pm_depth_range r; lfo_am_cnt := lfo_am_cnt r;
     lfo_am_inc := lfo_am_inc r; lfo_pm_cnt := lfo_pm_cnt r; lfo_pm_inc := lfo_pm_inc r;
     noise_rng := noise_rng r; noise_p := noise_p r; noise_f := noise_f r;
     wavesel := wavesel r; type := type r; address := x; status := status r;
     statusmask := statusmask r; mode := mode r; clock := clock r; rate := rate r |}.
Definition with_status (x : Z) (r : FM_OPL) : FM_OPL :=
  {| P_CH := P_CH r; eg_cnt := eg_cnt r; eg_timer := eg_timer r;
     eg_timer_add := eg_timer_add r; eg_timer_overflow := eg_timer_overflow r;
     rhythm := rhythm r; fn_tab := fn_tab r; lfo_am_depth := lfo_am_depth r;
     lfo_pm_depth_range := lfo_pm_depth_range r; lfo_am_cnt := lfo_am_cnt r;
     lfo_am_inc := lfo_am_inc r; lfo_pm_cnt := lfo_pm_cnt r; lfo_pm_inc := lfo_pm_inc r;
     noise_rng := noise_rng r; noise_p := noise_p r; noise_f := noise_f r;
     wavesel := wavesel r; type := type r; address := address r; status := x;
     statusmask := statusmask r; mode := mode r; clock := clock r; rate := rate r |}.
Definition with_statusmask (x : Z) (r : FM_OPL) : FM_OPL :=
  {| P_CH := P_CH r; eg_cnt := eg_cnt r; eg_timer := eg_timer r;
     eg_timer_add := eg_timer_add r; eg_timer_overflow := eg_timer_overflow r;
     rhythm := rhythm r; fn_tab := fn_tab r; lfo_am_depth := lfo_am_depth r;
     lfo_pm_depth_range := lfo_pm_depth_range r; lfo_am_cnt := lfo_am_cnt r;
     lfo_am_inc := lfo_am_inc r; lfo_pm_cnt := lfo_pm_cnt r; lfo_pm_inc := lfo_pm_inc r;
     noise_rng := noise_rng r; noise_p := noise_p r; noise_f := noise_f r;
     wavesel := wavesel r; type := type r; address := address r; status := status r;
     statusmask := x; mode := mode r; clock := clock r; rate := rate r |}.
Definition with_mode (x : Z) (r : FM_OPL) : FM_OPL :=
  {| P_CH := P_CH r; eg_cnt := eg_cnt r; eg_timer := eg_timer r;
     eg_timer_add := eg_timer_add r; eg_timer_overflow := eg_timer_overflow r;
     rhythm := rhythm r; fn_tab := fn_tab r; lfo_am_depth := lfo_am_depth r;
     lfo_pm_depth_range := lfo_pm_depth_range r; lfo_am_cnt := lfo_am_cnt r;
     lfo_am_inc := lfo_am_inc r; lfo_pm_cnt := lfo_pm_cnt r; lfo_pm_inc := lfo_pm_inc r;
     noise_rng := noise_rng r; noise_p := noise_p r; noise_f := noise_f r;
     wavesel := wavesel r; type := type r; address := address r; status := status r;
     statusmask := statusmask r; mode := x; clock := clock r; rate := rate r |}.
Definition with_clock (x : Z) (r : FM_OPL) : FM_OPL :=
  {| P_CH := P_CH r; eg_cnt := eg_cnt r; eg_timer := eg_timer r;
     eg_timer_add := eg_timer_add r; eg_timer_overflow := eg_timer_overflow r;
     rhythm := rhythm r; fn_tab := fn_tab r; lfo_am_depth := lfo_am_depth r;
     lfo_pm_depth_range := lfo_pm_depth_range r; lfo_am_cnt := lfo_am_cnt r;
     lfo_am_inc := lfo_am_inc r; lfo_pm_cnt := lfo_pm_cnt r; lfo_pm_inc := lfo_pm_inc r;
     noise_rng := noise_rng r; noise_p := noise_p r; noise_f := noise_f r;
     wavesel := wavesel r; type := type r; address := address r; status := status r;
     statusmask := statusmask r; mode := mode r; clock := x; rate := rate r |}.
Definition with_rate (x : Z) (r : FM_OPL) : FM_OPL :=
  {| P_CH := P_CH r; eg_cnt := eg_cnt r; eg_timer := eg_timer r;
     eg_timer_add := eg_timer_add r; eg_timer_overflow := eg_timer_overflow r;
     rhythm := rhythm r; fn_tab := fn_tab r; lfo_am_depth := lfo_am_depth r;
     lfo_pm_depth_range := lfo_pm_depth_range r; lfo_am_cnt := lfo_am_cnt r;
     lfo_am_inc := lfo_am_inc r; lfo_pm_cnt := lfo_pm_cnt r; lfo_pm_inc := lfo_pm_inc r;
     noise_rng := noise_rng r; noise_p := noise_p r; noise_f := noise_f r;
     wavesel := wavesel r; type := type r; address := address r; status := status r;
     statusmask := statusmask r; mode := mode r; clock := clock r; rate := x |}.
Record globals : Type := Build_globals {
  sin_tab : list Z;  (* sin waveform table in 'decibel' scale *)
  tl_tab : list Z;  (* attenuation -> amplitude *)
  phase_modulation : Z;  (* phase modulation input (SLOT 2) *)
  output0 : Z;  (* output[0] *)
  lastChOutput : Z;
  outputCh : list Z;  (* outputCh[9] *)
  LFO_AM : Z;
  LFO_PM : Z
}.

Definition with_sin_tab (x : list Z) (r : globals) : globals :=
  {| sin_tab := x; tl_tab := tl_tab r; phase_modulation := phase_modulation r;
     output0 := output0 r; lastChOutput := lastChOutput r; outputCh := outputCh r;
     LFO_AM := LFO_AM r; LFO_PM := LFO_PM r |}.
Definition with_tl_tab (x : list Z) (r : globals) : globals :=
  {| sin_tab := sin_tab r; tl_tab := x; phase_modulation := phase_modulation r;
     output0 := output0 r; lastChOutput := lastChOutput r; outputCh := outputCh r;
     LFO_AM := LFO_AM r; LFO_PM := LFO_PM r |}.
Definition with_phase_modulation (x : Z) (r : globals) : globals :=
  {| sin_tab := sin_tab r; tl_tab := tl_tab r; phase_modulation := x; output0 := output0 r;
     lastChOutput := lastChOutput r; outputCh := outputCh r; LFO_AM := LFO_AM r;
     LFO_PM := LFO_PM r |}.
Definition with_output0 (x : Z) (r : globals) : globals :=
  {| sin_tab := sin_tab r; tl_tab := tl_tab r; phase_modulation := phase_modulation r;
     output0 := x; lastChOutput := lastChOutput r; outputCh := outputCh r; LFO_AM := LFO_AM r;
     LFO_PM := LFO_PM r |}.
Definition with_lastChOutput (x : Z) (r : globals) : globals :=
  {| sin_tab := sin_tab r; tl_tab := tl_tab r; phase_modulation := phase_modulation r;
     output0 := output0 r; lastChOutput := x; outputCh := outputCh r; LFO_AM := LFO_AM r;
     LFO_PM := LFO_PM r |}.
Definition with_outputCh (x : list Z) (r : globals) : globals :=
  {| sin_tab := sin_tab r; tl_tab := tl_tab r; phase_modulation := phase_modulation r;
     output0 := output0 r; lastChOutput := lastChOutput r; outputCh := x; LFO_AM := LFO_AM r;
     LFO_PM := LFO_PM r |}.
Definition with_LFO_AM (x : Z) (r : globals) : globals :=
  {| sin_tab := sin_tab r; tl_tab := tl_tab r; phase_modulation := phase_modulation r;
     output0 := output0 r; lastChOutput := lastChOutput r; outputCh := outputCh r; LFO_AM := x;
     LFO_PM := LFO_PM r |}.
Definition with_LFO_PM (x : Z) (r : globals) : globals :=
  {| sin_tab := sin_tab r; tl_tab := tl_tab r; phase_modulation := phase_modulation r;
     output0 := output0 r; lastChOutput := lastChOutput r; outputCh := outputCh r;
     LFO_AM := LFO_AM r; LFO_PM := x |}.
(** ** Status flags and the IRQ line *)

(** [status] and [statusmask] are bytes of the chip (the status port
    [OPLRead] hands them out as an [unsigned char]), [flag] is an [int]:
    [|=], [&=] and [=] compute in [int] and the store keeps the low 8
    bits. *)

(** status set and IRQ handling *)
Definition OPL_STATUS_SET (flag : Z) (OPL : FM_OPL) : FM_OPL :=
  (* set status flag *)
  let st := u8 (Z.lor (status OPL) flag) in
  if negb (nz (Z.land st 0x80)) && nz (Z.land st (statusmask OPL))
  then with_status (u8 (Z.lor st 0x80)) OPL     (* IRQ on *)
  else with_status st OPL.

(** status reset and IRQ handling *)
Definition OPL_STATUS_RESET (flag : Z) (OPL : FM_OPL) : FM_OPL :=
  (* reset status flag *)
  let st := u8 (Z.land (status OPL) (Z.lnot flag)) in
  if nz (Z.land st 0x80) && negb (nz (Z.land st (statusmask OPL)))
  then with_status (u8 (Z.land st 0x7f)) OPL
  else with_status st OPL.

(** ** advance_lfo: the LFO clocks *)

Definition advance_lfo (OPL : FM_OPL) (g : globals) : FM_OPL * globals :=
  let lim := Z.shiftl LFO_AM_TAB_ELEMENTS LFO_SH in
  let cnt0 := u32 (lfo_am_cnt OPL + lfo_am_inc OPL) in
  let cnt := if lim <=? cnt0 then u32 (cnt0 - lim) else cnt0 in
  let tmp := u8 (tab lfo_am_table (Z.shiftr cnt LFO_SH)) in
  let am := if nz (lfo_am_depth OPL) then tmp else Z.shiftr tmp 2 in
  let pm_cnt := u32 (lfo_pm_cnt OPL + lfo_pm_inc OPL) in
  let pm := Z.lor (Z.land (Z.shiftr pm_cnt LFO_SH) 7) (lfo_pm_depth_range OPL) in
  (with_lfo_pm_cnt pm_cnt (with_lfo_am_cnt cnt OPL),
   with_LFO_PM pm (with_LFO_AM am g)).

(** ** advance: the envelope, phase and noise clocks *)

(** [!(OPL->eg_cnt & ((1 << sh) - 1))] *)
Definition eg_hit (cnt sh : Z) : bool :=
  Z.land cnt (Z.shiftl 1 sh - 1) =? 0.

(** [eg_inc[sel + ((OPL->eg_cnt >> sh) & 7)]] *)
Definition eg_step (sel cnt sh : Z) : Z :=
  tab eg_inc (sel + Z.land (Z.shiftr cnt sh) 7).

(** The [switch (op->state)] of the envelope generator, for one operator
    and the current value [cnt] of the global envelope counter. *)
Definition eg_slot (cnt : Z) (op : OPL_SLOT) : OPL_SLOT :=
  if state op =? EG_ATT then
    if eg_hit cnt (eg_sh_ar op) then
      let vol := s32 (volume op
                      + Z.shiftr (Z.lnot (volume op)
                                  * eg_step (eg_sel_ar op) cnt (eg_sh_ar op)) 3) in
      if vol <=? MIN_ATT_INDEX
      then with_state EG_DEC (with_volume MIN_ATT_INDEX op)
      else with_volume vol op
    else op
  else if state op =? EG_DEC then
    if eg_hit cnt (eg_sh_dr op) then
      let vol := s32 (volume op + eg_step (eg_sel_dr op) cnt (eg_sh_dr op)) in
      if sl op <=? u32 vol
      then with_state EG_SUS (with_volume vol op)
      else with_volume vol op
    else op
  else if state op =? EG_SUS then
    if nz (eg_type op) then op
    else if eg_hit cnt (eg_sh_rr op) then
      let vol := s32 (volume op + eg_step (eg_sel_rr op) cnt (eg_sh_rr op)) in
      if MAX_ATT_INDEX <=? vol
      then with_volume MAX_ATT_INDEX op
      else with_volume vol op
    else op
  else if state op =? EG_REL then
    if eg_hit cnt (eg_sh_rr op) then
      let vol := s32 (volume op + eg_step (eg_sel_rr op) cnt (eg_sh_rr op)) in
      if MAX_ATT_INDEX <=? vol
      then with_state EG_OFF (with_volume MAX_ATT_INDEX op)
      else with_volume vol op
    else op
  else op.

(** [for (i = 0; i < 9 * 2; i++) { CH = &OPL->P_CH[i / 2]; op = &CH->SLOT[i & 1]; ... }]
    for a loop body that writes the operator only. *)
Definition each_slot (f : OPL_CH -> OPL_SLOT -> OPL_SLOT) (CH : OPL_CH) : OPL_CH :=
  with_SLOT2 (f CH (SLOT2 CH)) (with_SLOT1 (f CH (SLOT1 CH)) CH).

Definition for_slots (f : OPL_CH -> OPL_SLOT -> OPL_SLOT) (chs : list OPL_CH)
  : list OPL_CH :=
  (each_slot f <$> take 9 chs) ++ drop 9 chs.

(** One pass of the [while (OPL->eg_timer >= OPL->eg_timer_overflow)] body. *)
Definition eg_tick (OPL : FM_OPL) : FM_OPL :=
  let cnt := u32 (eg_cnt OPL + 1) in
  with_P_CH (for_slots (fun _ => eg_slot cnt) (P_CH OPL))
    (with_eg_cnt cnt
       (with_eg_timer (u32 (eg_timer OPL - eg_timer_overflow OPL)) OPL)).

Fixpoint eg_while (fuel : nat) (OPL : FM_OPL) : FM_OPL :=
  match fuel with
  | O => OPL
  | S fuel' =>
      if eg_timer_overflow OPL <=? eg_timer OPL
      then eg_while fuel' (eg_tick OPL)
      else OPL
  end.

(** The phase generator, for one operator of channel [CH]. *)
Definition pg_slot (OPL : FM_OPL) (g : globals) (CH : OPL_CH) (op : OPL_SLOT)
  : OPL_SLOT :=
  if nz (vib op) then
    let fnum_lfo := Z.shiftr (Z.land (block_fnum CH) 0x0380) 7 in
    let lfo_fn_table_index_offset := tab lfo_pm_table (LFO_PM g + 16 * fnum_lfo) in
    if nz lfo_fn_table_index_offset then
      let bf := u32 (block_fnum CH + lfo_fn_table_index_offset) in
      let block := u8 (Z.shiftr (Z.land bf 0x1c00) 10) in
      with_Cnt
        (u32 (Cnt op
              + Z.shiftr (tab (fn_tab OPL) (Z.land bf 0x03ff)) (7 - block) * mul op))
        op
    else with_Cnt (u32 (Cnt op + Incr op)) op
  else with_Cnt (u32 (Cnt op + Incr op)) op.

(** One shift of the noise register:
    [if (noise_rng & 1) noise_rng ^= 0x800302; noise_rng >>= 1;] *)
Definition noise_shift (rng : Z) : Z :=
  Z.shiftr (if nz (Z.land rng 1) then Z.lxor rng 0x800302 else rng) 1.

(** [advance].  The envelope loop subtracts [eg_timer_overflow] from
    [eg_timer] on every pass, so [eg_timer / eg_timer_overflow] passes
    are all it can make ([eg_while_exits] below); the noise loop counts
    [i] down to zero. *)
Definition advance (g : globals) (OPL : FM_OPL) : FM_OPL :=
  let OPL1 := with_eg_timer (u32 (eg_timer OPL + eg_timer_add OPL)) OPL in
  let OPL2 := eg_while (Z.to_nat (eg_timer OPL1 / eg_timer_overflow OPL1)) OPL1 in
  let OPL3 := with_P_CH (for_slots (pg_slot OPL2 g) (P_CH OPL2)) OPL2 in
  let p := u32 (noise_p OPL3 + noise_f OPL3) in
  let i := Z.shiftr p FREQ_SH in
  with_noise_rng (Nat.iter (Z.to_nat i) noise_shift (noise_rng OPL3))
    (with_noise_p (Z.land p FREQ_MASK) OPL3).

(** ** The operator *)

(** [((signed int)x >> FREQ_SH) & SIN_MASK] *)
Definition sin_index (x : Z) : Z :=
  Z.land (Z.shiftr (s32 x) FREQ_SH) SIN_MASK.

(** The [switch (wave_tab)] that derives the four waveforms from the one
    sine table; [None] is its [return 0]. *)
Definition wave_lookup (g : globals) (wave_tab i : Z) : option Z :=
  if wave_tab =? 1 then
    if nz (Z.land i (Z.shiftl 1 (SIN_BITS - 1))) then None
    else Some (tab (sin_tab g) i)
  else if wave_tab =? 2 then
    Some (tab (sin_tab g) (Z.land i (Z.shiftr SIN_MASK 1)))
  else if wave_tab =? 3 then
    if nz (Z.land i (Z.shiftl 1 (SIN_BITS - 2))) then None
    else Some (tab (sin_tab g) (Z.land i (Z.shiftr SIN_MASK 2)))
  else Some (tab (sin_tab g) i).

(** The tail shared by [op_calc] and [op_calc1], from the sign split on. *)
Definition tl_lookup (g : globals) (p : Z) : Z :=
  let sign := Z.land p 1 in
  let p1 := Z.shiftr p 1 in
  let s := u8 (Z.shiftr p1 8) in
  let p2 := Z.shiftr (tab (tl_tab g) (Z.land p1 255)) s in
  if nz sign then - p2 else p2.

Definition op_calc (g : globals) (phase env pm wave_tab : Z) : Z :=
  let i := sin_index (Z.land phase (Z.lnot FREQ_MASK) + Z.shiftl pm 16) in
  match wave_lookup g wave_tab i with
  | None => 0
  | Some s =>
      let p := s32 (s + Z.shiftl env 4) in
      if TL_TAB_LEN <=? p then 0 else s32 (tl_lookup g p)
  end.

Definition op_calc1 (g : globals) (phase env pm wave_tab : Z) : Z :=
  let i := sin_index (Z.land phase (Z.lnot FREQ_MASK) + pm) in
  match wave_lookup g wave_tab i with
  | None => 0
  | Some s =>
      let p := u32 (s + Z.shiftl env 4) in
      if TL_TAB_LEN <=? p then 0 else s32 (tl_lookup g p)
  end.

Definition volume_calc (g : globals) (OP : OPL_SLOT) : Z :=
  u32 (TLL OP + u32 (volume OP) + Z.land (LFO_AM g) (AMmask OP)).

(** [*connect += x] *)
Definition connect_add (c : conn) (x : Z) (g : globals) : globals :=
  match c with
  | conn_output => with_output0 (s32 (output0 g + x)) g
  | conn_phase_modulation => with_phase_modulation (s32 (phase_modulation g + x)) g
  | conn_null => g
  end.

(** [output[0] += x] *)
Definition output_add (x : Z) (g : globals) : globals :=
  with_output0 (s32 (output0 g + x)) g.

(** The operator-1 half of [OPL_CALC_CH], up to the store through
    [connect1]: the new history and the globals. *)
Definition calc_slot1 (g : globals) (SLOT : OPL_SLOT) (env out : Z) : OPL_SLOT :=
  let SLOTb := with_op1_out1 0 SLOT in
  if env <? ENV_QUIET then
    let out' := if nz (FB SLOTb) then out else 0 in
    with_op1_out1
      (op_calc1 g (Cnt SLOTb) env (Z.shiftl out' (FB SLOTb)) (wavetable SLOTb))
      SLOTb
  else SLOTb.

Definition OPL_CALC_CH (g : globals) (CH : OPL_CH) : globals * OPL_CH :=
  let g1 := with_lastChOutput 0 (with_phase_modulation 0 g) in
  (* SLOT 1 *)
  let SLOT := SLOT1 CH in
  let env := volume_calc g1 SLOT in
  let out := s32 (op1_out0 SLOT + op1_out1 SLOT) in
  let SLOTa := with_op1_out0 (op1_out1 SLOT) SLOT in
  let g2 := connect_add (connect1 SLOTa) (op1_out0 SLOTa) g1 in
  let SLOTc := calc_slot1 g2 SLOTa env out in
  (* SLOT 2 *)
  let SLOT' := SLOT2 CH in
  let env2 := volume_calc g2 SLOT' in
  let g3 :=
    if env2 <? ENV_QUIET then
      let o := op_calc g2 (Cnt SLOT') env2 (phase_modulation g2) (wavetable SLOT') in
      output_add o (with_lastChOutput o g2)
    else g2 in
  (g3, with_SLOT1 SLOTc CH).

(** Bit [n] of the integer part of a 16.16 phase counter. *)
Definition cnt_bit (op : OPL_SLOT) (n : Z) : Z :=
  Z.land (Z.shiftr (Z.shiftr (Cnt op) FREQ_SH) n) 1.

Definition hh_phase (SLOT7_1 SLOT8_2 : OPL_SLOT) (noise : Z) : Z :=
  let bit7 := cnt_bit SLOT7_1 7 in
  let bit3 := cnt_bit SLOT7_1 3 in
  let bit2 := cnt_bit SLOT7_1 2 in
  let res1 := Z.lor (Z.lxor bit2 bit7) bit3 in
  let phase := if nz res1 then Z.lor 0x200 (Z.shiftr 0xd0 2) else 0xd0 in
  let bit5e := cnt_bit SLOT8_2 5 in
  let bit3e := cnt_bit SLOT8_2 3 in
  let res2 := Z.lxor bit3e bit5e in
  let phase := if nz res2 then Z.lor 0x200 (Z.shiftr 0xd0 2) else phase in
  if nz (Z.land phase 0x200) then
    if nz noise then Z.lor 0x200 0xd0 else phase
  else
    if nz noise then Z.shiftr 0xd0 2 else phase.

Definition sd_phase (SLOT7_1 : OPL_SLOT) (noise : Z) : Z :=
  let bit8 := cnt_bit SLOT7_1 8 in
  let phase := if nz bit8 then 0x200 else 0x100 in
  if nz noise then Z.lxor phase 0x100 else phase.

Definition top_phase (SLOT7_1 SLOT8_2 : OPL_SLOT) : Z :=
  let bit7 := cnt_bit SLOT7_1 7 in
  let bit3 := cnt_bit SLOT7_1 3 in
  let bit2 := cnt_bit SLOT7_1 2 in
  let res1 := Z.lor (Z.lxor bit2 bit7) bit3 in
  let phase := if nz res1 then 0x300 else 0x100 in
  let bit5e := cnt_bit SLOT8_2 5 in
  let bit3e := cnt_bit SLOT8_2 3 in
  let res2 := Z.lxor bit3e bit5e in
  if nz res2 then 0x300 else phase.

(** The five voices of [OPL_CALC_RH], in the order of the source. *)

(** Bass Drum: the two operators of channel 6; when [CON] is set the
    output of operator 1 is ignored.  The output sample is doubled. *)
Definition rh_bass_drum (g : globals) (CH6 : OPL_CH) : globals * OPL_CH :=
  let g1 := with_lastChOutput 0 (with_phase_modulation 0 g) in
  (* SLOT 1 *)
  let SLOT := SLOT1 CH6 in
  let env := volume_calc g1 SLOT in
  let out := s32 (op1_out0 SLOT + op1_out1 SLOT) in
  let SLOTa := with_op1_out0 (op1_out1 SLOT) SLOT in
  let g2 := if nz (CON SLOTa) then g1
            else with_phase_modulation (op1_out0 SLOTa) g1 in
  let SLOTc := calc_slot1 g2 SLOTa env out in
  (* SLOT 2 *)
  let SLOT' := SLOT2 CH6 in
  let env := volume_calc g2 SLOT' in
  let g3 :=
    if env <? ENV_QUIET then
      let o := s32 (op_calc g2 (Cnt SLOT') env (phase_modulation g2) (wavetable SLOT') * 2) in
      output_add o (with_lastChOutput o g2)
    else g2 in
  (g3, with_SLOT1 SLOTc CH6).

(** High Hat: envelope of channel 7 operator 1 *)
Definition rh_high_hat (SLOT7_1 SLOT8_2 : OPL_SLOT) (noise : Z) (g : globals) : globals :=
  let env := volume_calc g SLOT7_1 in
  if env <? ENV_QUIET then
    let phase := hh_phase SLOT7_1 SLOT8_2 noise in
    output_add
      (s32 (op_calc g (u32 (Z.shiftl phase FREQ_SH)) env 0 (wavetable SLOT7_1) * 2)) g
  else g.

(** Snare Drum: envelope of channel 7 operator 2 *)
Definition rh_snare_drum (SLOT7_1 SLOT7_2 : OPL_SLOT) (noise : Z) (g : globals)
  : globals :=
  let env := volume_calc g SLOT7_2 in
  if env <? ENV_QUIET then
    let phase := sd_phase SLOT7_1 noise in
    output_add
      (s32 (op_calc g (u32 (Z.shiftl phase FREQ_SH)) env 0 (wavetable SLOT7_2) * 2)) g
  else g.

(** Tom Tom: channel 8 operator 1 *)
Definition rh_tom_tom (SLOT8_1 : OPL_SLOT) (g : globals) : globals :=
  let env := volume_calc g SLOT8_1 in
  if env <? ENV_QUIET then
    output_add (s32 (op_calc g (Cnt SLOT8_1) env 0 (wavetable SLOT8_1) * 2)) g
  else g.

(** Top Cymbal: envelope of channel 8 operator 2 *)
Definition rh_top_cymbal (SLOT7_1 SLOT8_2 : OPL_SLOT) (g : globals) : globals :=
  let env := volume_calc g SLOT8_2 in
  if env <? ENV_QUIET then
    let phase := top_phase SLOT7_1 SLOT8_2 in
    output_add
      (s32 (op_calc g (u32 (Z.shiftl phase FREQ_SH)) env 0 (wavetable SLOT8_2) * 2)) g
  else g.

(** [OPL_CALC_RH(&OPL->P_CH[0], noise)]: [CH6] is [CH[6]], and
    [SLOT7_1] ... [SLOT8_2] are the operators of channels 7 and 8 that
    the cached pointers of [ym3812_update_one] designate.  Only channel
    6 is written. *)
Definition OPL_CALC_RH (g : globals) (CH6 CH7 CH8 : OPL_CH) (noise : Z)
  : globals * OPL_CH :=
  let SLOT7_1 := SLOT1 CH7 in
  let SLOT7_2 := SLOT2 CH7 in
  let SLOT8_1 := SLOT1 CH8 in
  let SLOT8_2 := SLOT2 CH8 in
  let bd := rh_bass_drum g CH6 in
  (rh_top_cymbal SLOT7_1 SLOT8_2
     (rh_tom_tom SLOT8_1
        (rh_snare_drum SLOT7_1 SLOT7_2 noise
           (rh_high_hat SLOT7_1 SLOT8_2 noise (fst bd)))),
   snd bd).

(** ** Key on / key off *)

Definition FM_KEYON (key_set : Z) (SLOT : OPL_SLOT) : OPL_SLOT :=
  let SLOTa :=
    if nz (key SLOT) then SLOT
    else with_state EG_ATT (with_Cnt 0 SLOT) in
  with_key (Z.lor (key SLOTa) key_set) SLOTa.

Definition FM_KEYOFF (key_clr : Z) (SLOT : OPL_SLOT) : OPL_SLOT :=
  if nz (key SLOT) then
    let SLOTa := with_key (Z.land (key SLOT) (u32 key_clr)) SLOT in
    if nz (key SLOTa) then SLOTa
    else if EG_REL <? state SLOTa then with_state EG_REL SLOTa
    else SLOTa
  else SLOT.

(** ** Register decode *)

Definition set_ar_rates (SLOT : OPL_SLOT) : OPL_SLOT :=
  if ar SLOT + ksr SLOT <? 16 + 62 then
    with_eg_sel_ar (tab eg_rate_select (ar SLOT + ksr SLOT))
      (with_eg_sh_ar (tab eg_rate_shift (ar SLOT + ksr SLOT)) SLOT)
  else
    with_eg_sel_ar (13 * RATE_STEPS) (with_eg_sh_ar 0 SLOT).

Definition set_dr_rates (SLOT : OPL_SLOT) : OPL_SLOT :=
  with_eg_sel_dr (tab eg_rate_select (dr SLOT + ksr SLOT))
    (with_eg_sh_dr (tab eg_rate_shift (dr SLOT + ksr SLOT)) SLOT).

Definition set_rr_rates (SLOT : OPL_SLOT) : OPL_SLOT :=
  with_eg_sel_rr (tab eg_rate_select (rr SLOT + ksr SLOT))
    (with_eg_sh_rr (tab eg_rate_shift (rr SLOT + ksr SLOT)) SLOT).

(** update phase increment counter of operator (also update the EG rates
    if necessary); [kcode] is at most 15, so that the [UINT8] field [ksr]
    holds [kcode >> KSR] as it is *)
Definition CALC_FCSLOT (CH : OPL_CH) (SLOT : OPL_SLOT) : OPL_SLOT :=
  let SLOTa := with_Incr (u32 (fc CH * mul SLOT)) SLOT in
  let ksr' := Z.shiftr (kcode CH) (KSR SLOTa) in
  if ksr SLOTa =? ksr' then SLOTa
  else set_rr_rates (set_dr_rates (set_ar_rates (with_ksr ksr' SLOTa))).

(** [CH = &OPL->P_CH[slot / 2]; SLOT = &CH->SLOT[slot & 1]; ...] *)
Definition in_SLOT1 (f : OPL_SLOT -> OPL_SLOT) (CH : OPL_CH) : OPL_CH :=
  with_SLOT1 (f (SLOT1 CH)) CH.

Definition in_SLOT2 (f : OPL_SLOT -> OPL_SLOT) (CH : OPL_CH) : OPL_CH :=
  with_SLOT2 (f (SLOT2 CH)) CH.

Definition in_slot (slot : Z) (f : OPL_CH -> OPL_SLOT -> OPL_SLOT) (CH : OPL_CH)
  : OPL_CH :=
  if Z.land slot 1 =? 0 then in_SLOT1 (f CH) CH else in_SLOT2 (f CH) CH.

Definition on_slot (slot : Z) (f : OPL_CH -> OPL_SLOT -> OPL_SLOT) (OPL : FM_OPL)
  : FM_OPL :=
  with_P_CH (alter (in_slot slot f) (Z.to_nat (slot / 2)) (P_CH OPL)) OPL.

(** [SLOT->TLL = SLOT->TL + (CH->ksl_base >> SLOT->ksl)] *)
Definition refresh_TLL (CH : OPL_CH) (SLOT : OPL_SLOT) : OPL_SLOT :=
  with_TLL (u32 (TL SLOT + Z.shiftr (ksl_base CH) (ksl SLOT))) SLOT.

(** set multi,am,vib,EG-TYP,KSR,mul: what [set_mul] does to the operator
    [SLOT] of channel [CH] *)
Definition set_mul_slot (v : Z) (CH : OPL_CH) (SLOT : OPL_SLOT) : OPL_SLOT :=
  CALC_FCSLOT CH
    (with_AMmask (if nz (Z.land v 0x80) then u32 (Z.lnot 0) else 0)
       (with_vib (Z.land v 0x40)
          (with_eg_type (Z.land v 0x20)
             (with_KSR (if nz (Z.land v 0x10) then 0 else 2)
                (with_mul (u8 (tab mul_tab8 (Z.land v 0x0f))) SLOT))))).

Definition set_mul (OPL : FM_OPL) (slot v : Z) : FM_OPL :=
  on_slot slot (set_mul_slot v) OPL.

(** set ksl & tl *)
Definition set_ksl_tl_slot (v : Z) (CH : OPL_CH) (SLOT : OPL_SLOT) : OPL_SLOT :=
  let ksl' := Z.shiftr v 6 in     (* 0 / 1.5 / 3.0 / 6.0 dB/OCT *)
  refresh_TLL CH
    (with_TL (Z.shiftl (Z.land v 0x3f) (ENV_BITS - 1 - 7))
       (with_ksl (if nz ksl' then 3 - ksl' else 31) SLOT)).

Definition set_ksl_tl (OPL : FM_OPL) (slot v : Z) : FM_OPL :=
  on_slot slot (set_ksl_tl_slot v) OPL.

(** set attack rate & decay rate *)
Definition set_ar_dr_slot (v : Z) (CH : OPL_CH) (SLOT : OPL_SLOT) : OPL_SLOT :=
  set_dr_rates
    (with_dr (if nz (Z.land v 0x0f) then 16 + Z.shiftl (Z.land v 0x0f) 2 else 0)
       (set_ar_rates
          (with_ar (if nz (Z.shiftr v 4) then 16 + Z.shiftl (Z.shiftr v 4) 2 else 0)
             SLOT))).

Definition set_ar_dr (OPL : FM_OPL) (slot v : Z) : FM_OPL :=
  on_slot slot (set_ar_dr_slot v) OPL.

(** set sustain level & release rate *)
Definition set_sl_rr_slot (v : Z) (CH : OPL_CH) (SLOT : OPL_SLOT) : OPL_SLOT :=
  set_rr_rates
    (with_rr (if nz (Z.land v 0x0f) then 16 + Z.shiftl (Z.land v 0x0f) 2 else 0)
       (with_sl (Z.shiftl (tab sl_tab (Z.shiftr v 4)) 1) SLOT)).

Definition set_sl_rr (OPL : FM_OPL) (slot v : Z) : FM_OPL :=
  on_slot slot (set_sl_rr_slot v) OPL.

(** [CH->SLOT[slot & 1].wavetable = (UINT16)(v & 0x03)] *)
Definition set_wavetable_slot (v : Z) (CH : OPL_CH) (SLOT : OPL_SLOT) : OPL_SLOT :=
  with_wavetable (u16 (Z.land v 0x03)) SLOT.

(** The key switches of register 0xBD, in the order of the source:
    BD (both operators of channel 6), HH, SD, TOM, TOP-CY. *)
Definition rhythm_keys (bd hh sd tom top : OPL_SLOT -> OPL_SLOT)
    (chs : list OPL_CH) : list OPL_CH :=
  alter (in_SLOT2 top) 8%nat
    (alter (in_SLOT1 tom) 8%nat
       (alter (in_SLOT2 sd) 7%nat
          (alter (in_SLOT1 hh) 7%nat
             (alter (in_SLOT2 bd) 6%nat
                (alter (in_SLOT1 bd) 6%nat chs))))).

Definition key_switch (c : Z) (bit : Z) : OPL_SLOT -> OPL_SLOT :=
  if nz c then FM_KEYON bit else FM_KEYOFF (Z.lnot bit).

(** [r == 0xbd]: am depth, vibrato depth, r,bd,sd,tom,tc,hh *)
Definition write_rhythm (OPL : FM_OPL) (v : Z) : FM_OPL :=
  let OPL1 :=
    with_rhythm (Z.land v 0x3f)
      (with_lfo_pm_depth_range (if nz (Z.land v 0x40) then 8 else 0)
         (with_lfo_am_depth (Z.land v 0x80) OPL)) in
  if nz (Z.land (rhythm OPL1) 0x20) then
    with_P_CH
      (rhythm_keys (key_switch (Z.land v 0x10) 2) (key_switch (Z.land v 0x01) 2)
         (key_switch (Z.land v 0x08) 2) (key_switch (Z.land v 0x04) 2)
         (key_switch (Z.land v 0x02) 2) (P_CH OPL1)) OPL1
  else
    with_P_CH
      (rhythm_keys (FM_KEYOFF (Z.lnot 2)) (FM_KEYOFF (Z.lnot 2))
         (FM_KEYOFF (Z.lnot 2)) (FM_KEYOFF (Z.lnot 2))
         (FM_KEYOFF (Z.lnot 2)) (P_CH OPL1)) OPL1.

(** The block under [/* update */] of the case [0xa0]: the channel takes
    the new [block_fnum], and everything derived from it is refreshed. *)
Definition update_block_fnum (OPL : FM_OPL) (bfn : Z) (CH : OPL_CH) : OPL_CH :=
  let block := u8 (Z.shiftr bfn 10) in
  let CH1 := with_block_fnum bfn CH in
  let CH2 := with_ksl_base (tab ksl_tab (Z.shiftr bfn 6)) CH1 in
  let CH3 :=
    with_fc (Z.shiftr (tab (fn_tab OPL) (Z.land bfn 0x03ff)) (7 - block)) CH2 in
  (* BLK 2,1,0 bits -> bits 3,2,1 of kcode *)
  let kc := Z.shiftr (Z.land (block_fnum CH3) 0x1c00) 9 in
  let CH4 :=
    with_kcode
      (if nz (Z.land (mode OPL) 0x40)
       then Z.lor kc (Z.shiftr (Z.land (block_fnum CH3) 0x100) 8)   (* notesel == 1 *)
       else Z.lor kc (Z.shiftr (Z.land (block_fnum CH3) 0x200) 9))  (* notesel == 0 *)
      CH3 in
  (* refresh Total Level in both SLOTs of this channel *)
  let CH5 := in_SLOT2 (refresh_TLL CH4) (in_SLOT1 (refresh_TLL CH4) CH4) in
  (* refresh frequency counter in both SLOTs of this channel *)
  in_SLOT2 (CALC_FCSLOT CH5) (in_SLOT1 (CALC_FCSLOT CH5) CH5).

(** [0xa0-0xa8], [0xb0-0xb8]: keyon,block,fnum, on the channel
    [CH = &OPL->P_CH[r & 0x0f]] *)
Definition write_fnum (OPL : FM_OPL) (r v : Z) (CH : OPL_CH) : OPL_CH :=
  let bfn :=
    if Z.land r 0x10 =? 0
    then Z.lor (Z.land (block_fnum CH) 0x1f00) v                          (* a0-a8 *)
    else Z.lor (Z.shiftl (Z.land v 0x1f) 8) (Z.land (block_fnum CH) 0xff) (* b0-b8 *) in
  let CHk :=
    if Z.land r 0x10 =? 0 then CH
    else if nz (Z.land v 0x20)
    then in_SLOT2 (FM_KEYON 1) (in_SLOT1 (FM_KEYON 1) CH)
    else in_SLOT2 (FM_KEYOFF (Z.lnot 1)) (in_SLOT1 (FM_KEYOFF (Z.lnot 1)) CH) in
  if block_fnum CHk =? bfn then CHk
  else update_block_fnum OPL bfn CHk.

(** [0xc0-0xc8]: FB,C *)
Definition write_fb_con (v : Z) (SLOT : OPL_SLOT) : OPL_SLOT :=
  let fb := Z.land (Z.shiftr v 1) 7 in
  let SLOTa := with_CON (Z.land v 1) (with_FB (if nz fb then fb + 7 else 0) SLOT) in
  with_connect1 (if nz (CON SLOTa) then conn_output else conn_phase_modulation) SLOTa.

(** write a value v to register r on OPL chip *)
Definition OPLWriteReg (OPL : FM_OPL) (r v : Z) : FM_OPL :=
  (* adjust bus to 8 bits *)
  let r := Z.land r 0xff in
  let v := Z.land v 0xff in
  let sw := Z.land r 0xe0 in
  if sw =? 0x00 then                      (* 00-1f:control *)
    if Z.land r 0x1f =? 0x01 then         (* waveform select enable *)
      if nz (Z.land (type OPL) OPL_TYPE_WAVESEL)
      then with_wavesel (Z.land v 0x20) OPL
      else OPL
    else if Z.land r 0x1f =? 0x08 then    (* MODE *)
      with_mode v OPL
    else OPL
  else if sw =? 0x20 then                 (* am ON, vib ON, ksr, eg_type, mul *)
    let slot := tab slot_array (Z.land r 0x1f) in
    if slot <? 0 then OPL else set_mul OPL slot v
  else if sw =? 0x40 then
    let slot := tab slot_array (Z.land r 0x1f) in
    if slot <? 0 then OPL else set_ksl_tl OPL slot v
  else if sw =? 0x60 then
    let slot := tab slot_array (Z.land r 0x1f) in
    if slot <? 0 then OPL else set_ar_dr OPL slot v
  else if sw =? 0x80 then
    let slot := tab slot_array (Z.land r 0x1f) in
    if slot <? 0 then OPL else set_sl_rr OPL slot v
  else if sw =? 0xa0 then
    if r =? 0xbd then write_rhythm OPL v
    else if 8 <? Z.land r 0x0f then OPL
    else
      with_P_CH (alter (write_fnum OPL r v) (Z.to_nat (Z.land r 0x0f)) (P_CH OPL)) OPL
  else if sw =? 0xc0 then
    if 8 <? Z.land r 0x0f then OPL
    else
      with_P_CH
        (alter (in_SLOT1 (write_fb_con v)) (Z.to_nat (Z.land r 0x0f)) (P_CH OPL)) OPL
  else if sw =? 0xe0 then                 (* waveform select *)
    if nz (wavesel OPL) then
      let slot := tab slot_array (Z.land r 0x1f) in
      if slot <? 0 then OPL
      else on_slot slot (set_wavetable_slot v) OPL
    else OPL
  else OPL.

(** ** Reset, creation, and the bus *)

(** [for (i = hi; i >= lo; i--) OPLWriteReg(OPL, i, 0);] with [n] registers *)
Fixpoint write_zero_down (n : nat) (hi : Z) (OPL : FM_OPL) : FM_OPL :=
  match n with
  | O => OPL
  | S n' => write_zero_down n' (hi - 1) (OPLWriteReg OPL hi 0)
  end.

Definition reset_slot (SLOT : OPL_SLOT) : OPL_SLOT :=
  with_connect1 conn_output
    (with_volume MAX_ATT_INDEX (with_state EG_OFF (with_wavetable 0 SLOT))).

Definition OPLResetChip (OPL : FM_OPL) : FM_OPL :=
  let OPL1 :=
    OPL_STATUS_RESET 0x7f
      (with_mode 0 (with_noise_rng 1 (with_eg_cnt 0 (with_eg_timer 0 OPL)))) in
  (* reset with register write *)
  let OPL2 := OPLWriteReg OPL1 0x01 0 in
  let OPL3 := OPLWriteReg OPL2 0x02 0 in
  let OPL4 := OPLWriteReg OPL3 0x03 0 in
  let OPL5 := OPLWriteReg OPL4 0x04 0 in
  let OPL6 := write_zero_down (Z.to_nat (0xff - 0x20 + 1)) 0xff OPL5 in
  (* reset operator parameters *)
  with_P_CH (for_slots (fun _ => reset_slot) (P_CH OPL6)) OPL6.

(** What the floating-point code of [init_tables] and [OPL_initalize]
    leaves behind. *)
Record fp_derived : Type := Build_fp_derived {
  fp_tl_tab : list Z;
  fp_sin_tab : list Z;
  fp_fn_tab : list Z;
  fp_lfo_am_inc : Z;
  fp_lfo_pm_inc : Z;
  fp_noise_f : Z;
  fp_eg_timer_add : Z
}.

Definition init_tables (fp : fp_derived) (g : globals) : globals :=
  with_sin_tab (fp_sin_tab fp) (with_tl_tab (fp_tl_tab fp) g).

Definition OPL_initalize (fp : fp_derived) (OPL : FM_OPL) : FM_OPL :=
  with_eg_timer_overflow (1 * Z.shiftl 1 EG_SH)
    (with_eg_timer_add (fp_eg_timer_add fp)
       (with_noise_f (fp_noise_f fp)
          (with_lfo_pm_inc (fp_lfo_pm_inc fp)
             (with_lfo_am_inc (fp_lfo_am_inc fp)
                (with_fn_tab (fp_fn_tab fp) OPL))))).

(** The state that [memset(ptr, 0, state_size)] leaves. *)
Definition zero_slot : OPL_SLOT :=
  Build_OPL_SLOT 0 0 0 0 0 0 0 0 0 0 conn_null 0 0 0 0 0 0 0 0 0 0 0 0 0 0 0 0 0 0 0.

Definition zero_ch : OPL_CH := Build_OPL_CH zero_slot zero_slot 0 0 0 0.

Definition zero_chip : FM_OPL :=
  Build_FM_OPL (replicate 9 zero_ch) 0 0 0 0 0 [] 0 0 0 0 0 0 0 0 0 0 0 0 0 0 0 0 0.

(** The file-scope variables at program start. *)
Definition zero_globals : globals :=
  Build_globals [] [] 0 0 0 (replicate 9 0) 0 0.

(** The chip together with the file-scope variables. *)
Definition machine : Type := FM_OPL * globals.

(** [OPLCreate]: [init_tables], then the one chip [FM_OPL_MEMORY] is
    cleared and initialised. *)
Definition OPLCreate (fp : fp_derived) (g : globals) (clock' rate' type' : Z)
  : machine :=
  (OPL_initalize fp (with_rate rate' (with_clock clock' (with_type type' zero_chip))),
   init_tables fp g).

Definition OPLWrite (OPL : FM_OPL) (a v : Z) : FM_OPL * Z :=
  let OPL' :=
    if Z.land a 1 =? 0
    then with_address (Z.land v 0xff) OPL          (* address port *)
    else OPLWriteReg OPL (address OPL) v in        (* data port *)
  (OPL', Z.shiftr (status OPL') 7).

Definition OPLRead (OPL : FM_OPL) (a : Z) : Z :=
  if Z.land a 1 =? 0
  then u8 (Z.land (status OPL) (Z.lor (statusmask OPL) 0x80))
  else 0xff.

(** CSM Key Controll *)
Definition CSMKeyControll (CH : OPL_CH) : OPL_CH :=
  in_SLOT2 (FM_KEYOFF (Z.lnot 4))
    (in_SLOT1 (FM_KEYOFF (Z.lnot 4))
       (in_SLOT2 (FM_KEYON 4) (in_SLOT1 (FM_KEYON 4) CH))).

Definition OPLTimerOver (OPL : FM_OPL) (c : Z) : FM_OPL * Z :=
  let OPL' :=
    if nz c then OPL_STATUS_SET 0x20 OPL
    else
      let OPL1 := OPL_STATUS_SET 0x40 OPL in
      if nz (Z.land (mode OPL1) 0x80)
      then with_P_CH ((CSMKeyControll <$> take 9 (P_CH OPL1)) ++ drop 9 (P_CH OPL1)) OPL1
      else OPL1 in
  (OPL', Z.shiftr (status OPL') 7).

Definition ym3812_reset_chip (chip : FM_OPL) : FM_OPL := OPLResetChip chip.

Definition ym3812_init (fp : fp_derived) (g : globals) (clock' rate' : Z) : machine :=
  let YM3812 := OPLCreate fp g clock' rate' OPL_TYPE_YM3812 in
  (ym3812_reset_chip (fst YM3812), snd YM3812).

Definition ym3812_write (chip : FM_OPL) (a v : Z) : FM_OPL * Z := OPLWrite chip a v.

Definition ym3812_read (chip : FM_OPL) (a : Z) : Z := Z.lor (OPLRead chip a) 0x06.

Definition ym3812_timer_over (chip : FM_OPL) (c : Z) : FM_OPL * Z := OPLTimerOver chip c.

(** ** The sample loop *)

Definition limit (val max min : Z) : Z :=
  if max <? val then max else if val <? min then min else val.

(** Modelled from the spec: the typedef [OPLSAMPLE] of the output buffer
    is declared in [fmopl.h], which is not among the sources; the
    specification has the samples signed and 16 bits wide, so a store
    into the buffer keeps the low 16 bits. *)
Definition OPLSAMPLE (x : Z) : Z := s16 x.

(** [OPL_CALC_CH(&OPL->P_CH[c]); outputCh[c] = lastChOutput;] *)
Definition calc_ch (c : nat) (M : machine) : machine :=
  match P_CH (fst M) !! c with
  | Some CH =>
      let '(g', CH') := OPL_CALC_CH (snd M) CH in
      (with_P_CH (<[c := CH']> (P_CH (fst M))) (fst M),
       with_outputCh (<[c := lastChOutput g']> (outputCh g')) g')
  | None => M
  end.

(** [OPL_CALC_RH(&OPL->P_CH[0], (OPL->noise_rng >> 0) & 1);
     outputCh[6] = outputCh[7] = outputCh[8] = lastChOutput;] *)
Definition calc_rh (M : machine) : machine :=
  match P_CH (fst M) !! 6%nat, P_CH (fst M) !! 7%nat, P_CH (fst M) !! 8%nat with
  | Some CH6, Some CH7, Some CH8 =>
      let noise := Z.land (Z.shiftr (noise_rng (fst M)) 0) 1 in
      let '(g', CH6') := OPL_CALC_RH (snd M) CH6 CH7 CH8 noise in
      (with_P_CH (<[6%nat := CH6']> (P_CH (fst M))) (fst M),
       with_outputCh
         (<[6%nat := lastChOutput g']>
            (<[7%nat := lastChOutput g']>
               (<[8%nat := lastChOutput g']> (outputCh g')))) g')
  | _, _, _ => M
  end.

(** The channel sum of one sample: the body of the loop of
    [ym3812_update_one] up to [lt = output[0]]; [rhythm] is the local
    variable of that name. *)
Definition mix (rhythm' : Z) (M : machine) : machine :=
  let '(OPL1, g1) := advance_lfo (fst M) (with_output0 0 (snd M)) in
  (* FM part *)
  let M6 :=
    calc_ch 5 (calc_ch 4 (calc_ch 3 (calc_ch 2 (calc_ch 1 (calc_ch 0 (OPL1, g1)))))) in
  if nz rhythm' then calc_rh M6                 (* Rhythm part *)
  else calc_ch 8 (calc_ch 7 (calc_ch 6 M6)).

(** One pass of the loop: the machine after [advance], and [buf[i]].
    The limit check of the source is commented out. *)
Definition sample_step (rhythm' : Z) (M : machine) : machine * Z :=
  let M' := mix rhythm' M in
  let lt := Z.shiftr (output0 (snd M')) FINAL_SH in
  ((advance (snd M') (fst M'), snd M'), OPLSAMPLE lt).

Fixpoint update_loop (rhythm' : Z) (n : nat) (M : machine) : machine * list Z :=
  match n with
  | O => (M, [])
  | S n' =>
      let '(M1, x) := sample_step rhythm' M in
      let '(M2, xs) := update_loop rhythm' n' M1 in
      (M2, x :: xs)
  end.

(** Generate [length] samples.  [rhythm] is read once, before the loop.

    Before the loop the source refreshes a pointer cache: when [cur_chip]
    is not the chip it is given, it stores the chip in [cur_chip] and the
    addresses of the operators of channels 7 and 8 in [SLOT7_1] ...
    [SLOT8_2], also when [length <= 0].  The cache is not part of
    [machine]: inside the loop the four pointers always designate the
    operators of channels 7 and 8 of the chip at hand, which is how
    [calc_rh] hands them to [OPL_CALC_RH]. *)
Definition ym3812_update_one (M : machine) (length' : Z) : machine * list Z :=
  let rhythm' := u8 (Z.land (rhythm (fst M)) 0x20) in
  update_loop rhythm' (Z.to_nat length') M.

(** ** Traces of calls *)

(** The calls a host makes: a register write (the address port, then the
    data port), sample generation, reset, a timer overflow. *)
Inductive event : Type :=
  | EvWrite (r v : Z)
  | EvUpdate (length' : Z)
  | EvReset
  | EvTimerOver (c : Z).

Definition run_event (M : machine) (e : event) : machine * list Z :=
  match e with
  | EvWrite r v =>
      let OPL1 := fst (ym3812_write (fst M) 0 r) in
      ((fst (ym3812_write OPL1 1 v), snd M), [])
  | EvUpdate n => ym3812_update_one M n
  | EvReset => ((ym3812_reset_chip (fst M), snd M), [])
  | EvTimerOver c => ((fst (ym3812_timer_over (fst M) c), snd M), [])
  end.

(** The machine after the calls [es], and all the samples they produced. *)
Fixpoint run (M : machine) (es : list event) : machine * list Z :=
  match es with
  | [] => (M, [])
  | e :: es' =>
      let '(M1, xs) := run_event M e in
      let '(M2, ys) := run M1 es' in
      (M2, xs ++ ys)
  end.

(** The operator [CH->SLOT[slot & 1]]. *)
Definition slot_of (slot : Z) (CH : OPL_CH) : OPL_SLOT :=
  if Z.land slot 1 =? 0 then SLOT1 CH else SLOT2 CH.

(** The operator that the source numbers [slot]:
    [OPL->P_CH[slot / 2].SLOT[slot & 1]]. *)
Definition get_slot (OPL : FM_OPL) (slot : Z) : option OPL_SLOT :=
  slot_of slot <$> P_CH OPL !! Z.to_nat (slot / 2).

(** All operators of the chip. *)
Definition slots (OPL : FM_OPL) : list OPL_SLOT :=
  CH ← P_CH OPL; [SLOT1 CH; SLOT2 CH].

(** ** Predicates of the statements *)

(** The noise register holds a nonzero 23-bit value. *)
Definition noise_ok (OPL : FM_OPL) : Prop := 0 < noise_rng OPL < 2 ^ 23.

(** Both operators of a channel. *)
Definition both (P : OPL_SLOT -> Prop) (CH : OPL_CH) : Prop :=
  P (SLOT1 CH) /\ P (SLOT2 CH).

(** Channel [i] exists and satisfies [Q]. *)
Definition lsat (Q : OPL_CH -> Prop) (i : nat) (l : list OPL_CH) : Prop :=
  exists CH, l !! i = Some CH /\ Q CH.

(** [l'] has the channels of [l], and each one keeps [Q]. *)
Definition ch_pres (Q : OPL_CH -> Prop) (l l' : list OPL_CH) : Prop :=
  length l' = length l /\ forall i, lsat Q i l -> lsat Q i l'.

(** [Q] survives everything that sample generation does to a channel. *)
Definition closed_under_update (Q : OPL_CH -> Prop) : Prop :=
  (forall cnt CH, Q CH -> Q (each_slot (fun _ => eg_slot cnt) CH)) /\
  (forall OPL g CH, Q CH -> Q (each_slot (pg_slot OPL g) CH)) /\
  (forall g CH, 0 <= LFO_AM g < 256 -> Q CH -> Q (snd (OPL_CALC_CH g CH))) /\
  (forall g CH6 CH7 CH8 noise,
      0 <= LFO_AM g < 256 -> Q CH6 -> Q (snd (OPL_CALC_RH g CH6 CH7 CH8 noise))).

(** [Q] survives every register write that switches no key on. *)
Definition closed_under_decode (Q : OPL_CH -> Prop) : Prop :=
  (forall s v CH, 0 <= v <= 255 -> Q CH -> Q (in_slot s (set_mul_slot v) CH)) /\
  (forall s v CH, 0 <= v <= 255 -> Q CH -> Q (in_slot s (set_ksl_tl_slot v) CH)) /\
  (forall s v CH, 0 <= v <= 255 -> Q CH -> Q (in_slot s (set_ar_dr_slot v) CH)) /\
  (forall s v CH, 0 <= v <= 255 -> Q CH -> Q (in_slot s (set_sl_rr_slot v) CH)) /\
  (forall s v CH, 0 <= v <= 255 -> Q CH -> Q (in_slot s (set_wavetable_slot v) CH)) /\
  (forall v CH, 0 <= v <= 255 -> Q CH -> Q (in_SLOT1 (write_fb_con v) CH)) /\
  (forall OPL bfn CH, 0 <= bfn <= 0x1fff -> Q CH -> Q (update_block_fnum OPL bfn CH)) /\
  (forall k CH, Q CH -> Q (in_SLOT1 (FM_KEYOFF k) CH)) /\
  (forall k CH, Q CH -> Q (in_SLOT2 (FM_KEYOFF k) CH)).

Definition closed_under_keyon (Q : OPL_CH -> Prop) : Prop :=
  (forall k CH, Q CH -> Q (in_SLOT1 (FM_KEYON k) CH)) /\
  (forall k CH, Q CH -> Q (in_SLOT2 (FM_KEYON k) CH)).

Definition closed_under_reset (Q : OPL_CH -> Prop) : Prop :=
  forall CH, Q CH -> Q (each_slot (fun _ => reset_slot) CH).

(** A register write that switches a key on: bit 5 of [0xb0-0xb8], or
    register [0xbd] with the rhythm bit and the bit of a voice. *)
Definition keyon_write (r v : Z) : bool :=
  let r := Z.land r 0xff in
  let v := Z.land v 0xff in
  if r =? 0xbd then nz (Z.land v 0x20) && nz (Z.land v 0x1f)
  else (Z.land r 0xe0 =? 0xa0) && nz (Z.land r 0x10) && (Z.land r 0x0f <=? 8)
       && nz (Z.land v 0x20).

(** The envelope invariant of an operator: the attenuation is within
    [MIN_ATT_INDEX, MAX_ATT_INDEX], the sustain level is one of [sl_tab]
    (at most 496), and an operator that decays has not reached 496 yet. *)
Definition env_ok (op : OPL_SLOT) : Prop :=
  0 <= volume op <= 511 /\ sl op <= 496 /\ (state op = EG_DEC -> volume op <= 495).

(** An operator whose output history is empty and whose level fields
    are within the ranges the decoder gives them. *)
Definition ready_slot (op : OPL_SLOT) : Prop :=
  op1_out0 op = 0 /\ op1_out1 op = 0 /\
  0 <= TL op <= 252 /\ 0 <= ksl op /\ 0 <= TLL op <= 507.

Definition ready_ch (CH : OPL_CH) : Prop :=
  0 <= ksl_base CH <= 255 /\ both ready_slot CH.

(** An operator at rest: [EG_OFF] at the maximal attenuation. *)
Definition at_rest (op : OPL_SLOT) : Prop :=
  state op = EG_OFF /\ volume op = MAX_ATT_INDEX.

Definition silent_ch (CH : OPL_CH) : Prop :=
  ready_ch CH /\ both at_rest CH.

(** The calls that switch no key on. *)
Definition quiet_event (e : event) : Prop :=
  match e with
  | EvWrite r v => keyon_write r v = false
  | EvUpdate _ => True
  | EvReset => True
  | EvTimerOver _ => False
  end.

(** ** A sample chip *)

(** The increments that [OPL_initalize] derives for a 3579545 Hz chip
    sampled at 44100 Hz: [freqbase] is the single-precision quotient
    (3579545 / 72) / 44100 = 1.12734..., and the four products are
    truncated to [lfo_am_inc] = 295526, [lfo_pm_inc] = 18470 and
    [noise_f] = [eg_timer_add] = 73881.  The tables are left empty. *)
Definition demo_fp : fp_derived :=
  Build_fp_derived [] [] [] 295526 18470 73881 73881.

Definition demo_chip : FM_OPL :=
  fst (ym3812_init demo_fp zero_globals 3579545 44100).

(** [demo_chip] with one sample left in the output history of operator 1
    of channel 0. *)
Definition ringing_chip : FM_OPL :=
  with_P_CH (alter (in_SLOT1 (with_op1_out1 1)) 0%nat (P_CH demo_chip)) demo_chip.

(** A machine in the middle of a silent sample: every channel silent, the
    accumulator still zero, the tremolo value a byte. *)
Definition silent_mix (M : machine) : Prop :=
  Forall silent_ch (P_CH (fst M)) /\ output0 (snd M) = 0 /\ 0 <= LFO_AM (snd M) < 256.

(** An operator that sustains: its EG-type bit is [e], and in the
    non-percussive mode ([e] set) its attenuation rests at [v0]. *)
Definition sustaining (e v0 : Z) (op : OPL_SLOT) : Prop :=
  state op = EG_SUS /\ eg_type op = e /\ (e <> 0 -> volume op = v0).

(** ** The sample loop in the words of the specification *)

(** One melodic channel: [OPL_CALC_CH] runs on channel [c] of the chip
    and the channel's output is recorded. *)
Definition melodic_channel (c : nat) (M : machine) : machine :=
  match P_CH (fst M) !! c with
  | Some CH =>
      let r := OPL_CALC_CH (snd M) CH in
      (with_P_CH (<[c := snd r]> (P_CH (fst M))) (fst M),
       with_outputCh (<[c := lastChOutput (fst r)]> (outputCh (fst r))) (fst r))
  | None => M
  end.

(** The rhythm mixer: one pass of [OPL_CALC_RH] over channels 6, 7 and 8
    with the low bit of the noise generator; the bass drum updates
    channel 6, and the three channels record the same output. *)
Definition rhythm_mixer (M : machine) : machine :=
  match P_CH (fst M) !! 6%nat, P_CH (fst M) !! 7%nat, P_CH (fst M) !! 8%nat with
  | Some CH6, Some CH7, Some CH8 =>
      let r := OPL_CALC_RH (snd M) CH6 CH7 CH8 (Z.land (noise_rng (fst M)) 1) in
      let l := lastChOutput (fst r) in
      (with_P_CH (<[6%nat := snd r]> (P_CH (fst M))) (fst M),
       with_outputCh (<[6%nat := l]> (<[7%nat := l]> (<[8%nat := l]> (outputCh (fst r)))))
         (fst r))
  | _, _, _ => M
  end.

(** Steps (1) and (2), first half: the accumulator is cleared, the LFO
    advances, and channels 0 to 5 are synthesized. *)
Definition melodic_0_5 (M : machine) : machine :=
  melodic_channel 5 (melodic_channel 4 (melodic_channel 3
    (melodic_channel 2 (melodic_channel 1 (melodic_channel 0
       (advance_lfo (fst M) (with_output0 0 (snd M)))))))).

(** Channels 6 to 8 as three melodic channels. *)
Definition melodic_6_8 (M : machine) : machine :=
  melodic_channel 8 (melodic_channel 7 (melodic_channel 6 M)).

(** Steps (3) and (4): the accumulator is emitted as the sample and the
    envelope, phase and noise clocks advance. *)
Definition emit (M : machine) : machine * Z :=
  ((advance (snd M) (fst M), snd M), OPLSAMPLE (Z.shiftr (output0 (snd M)) FINAL_SH)).

(** One sample, with the switch between the rhythm mixer and the three
    melodic channels taken from the rhythm flag (bit 5 of register 0xBD)
    that the chip holds when channels 6 to 8 are due. *)
Definition sample_live (M : machine) : machine * Z :=
  let M6 := melodic_0_5 M in
  emit (if nz (Z.land (rhythm (fst M6)) 0x20) then rhythm_mixer M6 else melodic_6_8 M6).

(** [n] samples, each with the flag of its own moment. *)
Fixpoint update_live (n : nat) (M : machine) : machine * list Z :=
  match n with
  | O => (M, [])
  | S n' =>
      let '(M1, x) := sample_live M in
      let '(M2, xs) := update_live n' M1 in
      (M2, x :: xs)
  end.

(** The offsets of an operator block at which [slot_array] has no
    operator. *)
Definition no_operator_offsets : list Z :=
  List.filter (fun off => tab slot_array off <? 0) (seqZ 0 32).

(** ** More sample states *)

(** An operator at rest that sustains at attenuation 100. *)
Definition sustain_op : OPL_SLOT :=
  with_state EG_SUS (with_volume 100 (reset_slot zero_slot)).

(** [demo_chip] with operator 1 of channel 0 sustaining. *)
Definition sustain_chip : FM_OPL :=
  with_P_CH (alter (in_SLOT1 (fun _ => sustain_op)) 0%nat (P_CH demo_chip)) demo_chip.

(** A channel at rest, in the parallel connection, whose operator 1
    computed the sample [x] on the sample before. *)
Definition ringing_ch (x : Z) : OPL_CH :=
  Build_OPL_CH (with_op1_out1 x (reset_slot zero_slot)) (reset_slot zero_slot) 0 0 0 0.

(** [demo_chip] with channel 0 replaced by [ringing_ch x]. *)
Definition loud_machine (x : Z) : machine :=
  (with_P_CH (<[0%nat := ringing_ch x]> (P_CH demo_chip)) demo_chip, zero_globals).

(** [demo_chip] with channel 7 replaced by [ringing_ch 5]: as a melodic
    channel it adds 5 to the next sample, the rhythm mixer does not run
    its operator 1 as a melodic operator. *)
Definition rhythm_probe : machine :=
  (with_P_CH (<[7%nat := ringing_ch 5]> (P_CH demo_chip)) demo_chip, zero_globals).

(** [demo_chip] after the write that enables waveform selection. *)
Definition wavesel_chip : FM_OPL := OPLWriteReg demo_chip 0x01 0x20.

(** ** The rest of the interface *)

(** IRQ mask set *)
Definition OPL_STATUSMASK_SET (flag : Z) (OPL : FM_OPL) : FM_OPL :=
  (* IRQ handling check *)
  OPL_STATUS_RESET 0 (OPL_STATUS_SET 0 (with_statusmask (u8 flag) OPL)).

(** [connect == &output[0]] *)
Definition connect1_is_output0 (connect : conn) : Z :=
  match connect with
  | conn_output => 1
  | _ => 0
  end.

(** [chip->P_CH[x].SLOT[y].connect1 = output0 ? &output[0] : &phase_modulation];
    an index outside [P_CH[9]] or [SLOT[2]] (undefined in C) changes
    nothing. *)
Definition set_connect1 (chip : FM_OPL) (x y output0' : Z) : FM_OPL :=
  let c := if nz output0' then conn_output else conn_phase_modulation in
  if (0 <=? x) && (x <? 9) then
    if y =? 0 then
      with_P_CH (alter (in_SLOT1 (with_connect1 c)) (Z.to_nat x) (P_CH chip)) chip
    else if y =? 1 then
      with_P_CH (alter (in_SLOT2 (with_connect1 c)) (Z.to_nat x) (P_CH chip)) chip
    else chip
  else chip.

Definition ym3812_peek (chip : FM_OPL) (a : Z) : Z := Z.lor (OPLRead chip a) 0x06.

(** [fmopl_set_machine_parameter]: the new values of [fmopl_timer_80]
    and [fmopl_timer_320].  The products are taken without wrap-around
    (they are of type [long], where an overflow is undefined). *)
Definition fmopl_set_machine_parameter (clock_rate : Z) : Z * Z :=
  (u32 (Z.quot (clock_rate * 80) 1000000), u32 (Z.quot (clock_rate * 320) 1000000)).

(** ** Properties of the state *)

(** In [status], the IRQ bit 7 is set exactly when a flag that the mask
    lets through is set. *)
Definition irq_consistent (OPL : FM_OPL) : Prop :=
  Z.land (status OPL) 0x80 <> 0 <-> Z.land (status OPL) (statusmask OPL) <> 0.

(** The operator with the fields that sample generation advances
    blanked (the phase counter, the output history, the envelope
    position): what is left is what register writes and resets decide. *)
Definition op_regs (op : OPL_SLOT) : OPL_SLOT :=
  with_volume 0 (with_state 0 (with_op1_out1 0 (with_op1_out0 0 (with_Cnt 0 op)))).

Definition ch_regs (CH : OPL_CH) : OPL_CH :=
  with_SLOT2 (op_regs (SLOT2 CH)) (with_SLOT1 (op_regs (SLOT1 CH)) CH).

(** The chip without its channels and with the counters that sample
    generation advances blanked. *)
Definition chip_regs (OPL : FM_OPL) : FM_OPL :=
  with_noise_p 0
    (with_noise_rng 0
       (with_lfo_pm_cnt 0
          (with_lfo_am_cnt 0 (with_eg_timer 0 (with_eg_cnt 0 (with_P_CH [] OPL)))))).

(** What [OPLCreate] fixes for the life of the chip. *)
Definition chip_const (OPL : FM_OPL) : Z * Z * Z * list Z * Z * Z * Z * Z * Z :=
  (type OPL, clock OPL, rate OPL, fn_tab OPL, eg_timer_overflow OPL,
   eg_timer_add OPL, noise_f OPL, lfo_am_inc OPL, lfo_pm_inc OPL).

(** The envelope state is one of the five phases. *)
Definition state_ok (op : OPL_SLOT) : Prop := EG_OFF <= state op <= EG_ATT.

(** The fields that the decoder derives are those that their sources
    give: the total level with the key scale level of the channel, the
    phase increment, the key scale rate. *)
Definition derived_slot (CH : OPL_CH) (op : OPL_SLOT) : Prop :=
  TLL op = u32 (TL op + Z.shiftr (ksl_base CH) (ksl op)) /\
  Incr op = u32 (fc CH * mul op) /\
  ksr op = Z.shiftr (kcode CH) (KSR op).

Definition derived_ok (CH : OPL_CH) : Prop := both (derived_slot CH) CH.

(** The envelope rates stored in the operator are those of the rate
    tables for its [ar], [dr] and [rr] and its key scale rate. *)
Definition rates_ok (op : OPL_SLOT) : Prop :=
  eg_sh_ar op = (if ar op + ksr op <? 16 + 62
                 then tab eg_rate_shift (ar op + ksr op) else 0) /\
  eg_sel_ar op = (if ar op + ksr op <? 16 + 62
                  then tab eg_rate_select (ar op + ksr op) else 13 * RATE_STEPS) /\
  eg_sh_dr op = tab eg_rate_shift (dr op + ksr op) /\
  eg_sel_dr op = tab eg_rate_select (dr op + ksr op) /\
  eg_sh_rr op = tab eg_rate_shift (rr op + ksr op) /\
  eg_sel_rr op = tab eg_rate_select (rr op + ksr op).

(** The ranges of the fields that the decoder writes. *)
Definition regs_ok (op : OPL_SLOT) : Prop :=
  0 <= TL op <= 252 /\ 1 <= mul op <= 30 /\ 0 <= sl op <= 496 /\
  0 <= ar op <= 76 /\ 0 <= dr op <= 76 /\ 0 <= rr op <= 76 /\
  (KSR op = 0 \/ KSR op = 2) /\ 0 <= ksl op <= 31 /\
  0 <= wavetable op <= 3 /\ 0 <= FB op <= 14 /\ 0 <= Incr op < 2 ^ 32.

(** The two tables of [init_tables]. *)
Definition tabs (g : globals) : list Z * list Z := (sin_tab g, tl_tab g).

(** A channel of [demo_chip]; its nine channels are alike. *)
Definition demo_ch : OPL_CH := default zero_ch (P_CH demo_chip !! 0%nat).

(** The chip without what a register write can change: its channels,
    [wavesel], [mode], [rhythm] and the two LFO depths. *)
Definition chip_hold (OPL : FM_OPL) : FM_OPL :=
  with_lfo_pm_depth_range 0
    (with_lfo_am_depth 0 (with_rhythm 0 (with_mode 0 (with_wavesel 0 (with_P_CH [] OPL))))).



(** ** Facts about machine integers *)

(** Linear arithmetic with division and remainder by constants. *)
Ltac zlia := Z.div_mod_to_equations; lia.

Lemma testbit_small (a n : Z) : 0 <= a < 2 ^ n -> Z.testbit a n = false.
Proof.
  intros [Ha Hn].
  destruct (Z.eq_dec a 0) as [->|Hne]; [apply Z.bits_0|].
  destruct (Z.le_gt_cases 0 n) as [Hn0|Hn0].
  - apply Z.bits_above_log2; [lia|]. apply Z.log2_lt_pow2; lia.
  - rewrite Z.pow_neg_r in Hn; lia.
Qed.

Lemma testbit_true_ge (a n : Z) : 0 <= a -> Z.testbit a n = true -> 2 ^ n <= a.
Proof.
  intros Ha Hb. destruct (Z.le_gt_cases (2 ^ n) a) as [|Hlt]; [done|].
  rewrite testbit_small in Hb; [done | lia].
Qed.

Lemma log2_lt_pow2' (a n : Z) : 0 < n -> 0 <= a < 2 ^ n -> Z.log2 a < n.
Proof.
  intros Hn [Ha Ha'].
  destruct (Z.eq_dec a 0) as [->|]; [simpl; lia|]. apply Z.log2_lt_pow2; lia.
Qed.

Lemma lxor_lt_pow2 (a b n : Z) :
  0 < n -> 0 <= a < 2 ^ n -> 0 <= b < 2 ^ n -> 0 <= Z.lxor a b < 2 ^ n.
Proof.
  intros Hn Ha Hb.
  assert (0 <= Z.lxor a b) as Hnn by (apply Z.lxor_nonneg; lia).
  split; [done|].
  destruct (Z.eq_dec (Z.lxor a b) 0) as [->|Hne]; [lia|].
  apply Z.log2_lt_pow2; [lia|].
  eapply Z.le_lt_trans; [apply Z.log2_lxor; lia|].
  apply Z.max_lub_lt; by apply log2_lt_pow2'.
Qed.

Lemma land_1_mod (x : Z) : Z.land x 1 = x mod 2.
Proof. change 1 with (Z.ones 1). rewrite Z.land_ones by lia. done. Qed.

(** ** Equality of records, field by field *)

Lemma slot_ext (a b : OPL_SLOT) :
  ar a = ar b -> dr a = dr b -> rr a = rr b -> KSR a = KSR b -> ksl a = ksl b ->
  ksr a = ksr b -> mul a = mul b -> Cnt a = Cnt b -> Incr a = Incr b -> FB a = FB b ->
  connect1 a = connect1 b -> op1_out0 a = op1_out0 b -> op1_out1 a = op1_out1 b ->
  CON a = CON b -> eg_type a = eg_type b -> state a = state b -> TL a = TL b ->
  TLL a = TLL b -> volume a = volume b -> sl a = sl b ->
  eg_sh_ar a = eg_sh_ar b -> eg_sel_ar a = eg_sel_ar b ->
  eg_sh_dr a = eg_sh_dr b -> eg_sel_dr a = eg_sel_dr b ->
  eg_sh_rr a = eg_sh_rr b -> eg_sel_rr a = eg_sel_rr b ->
  key a = key b -> AMmask a = AMmask b -> vib a = vib b -> wavetable a = wavetable b ->
  a = b.
Proof. destruct a, b. cbn. intros. by subst. Qed.

Lemma ch_ext (a b : OPL_CH) :
  SLOT1 a = SLOT1 b -> SLOT2 a = SLOT2 b -> block_fnum a = block_fnum b ->
  fc a = fc b -> ksl_base a = ksl_base b -> kcode a = kcode b -> a = b.
Proof. destruct a, b. cbn. intros. by subst. Qed.

Lemma chip_ext (a b : FM_OPL) :
  P_CH a = P_CH b -> eg_cnt a = eg_cnt b -> eg_timer a = eg_timer b ->
  eg_timer_add a = eg_timer_add b -> eg_timer_overflow a = eg_timer_overflow b ->
  rhythm a = rhythm b -> fn_tab a = fn_tab b -> lfo_am_depth a = lfo_am_depth b ->
  lfo_pm_depth_range a = lfo_pm_depth_range b -> lfo_am_cnt a = lfo_am_cnt b ->
  lfo_am_inc a = lfo_am_inc b -> lfo_pm_cnt a = lfo_pm_cnt b ->
  lfo_pm_inc a = lfo_pm_inc b -> noise_rng a = noise_rng b -> noise_p a = noise_p b ->
  noise_f a = noise_f b -> wavesel a = wavesel b -> type a = type b ->
  address a = address b -> status a = status b -> statusmask a = statusmask b ->
  mode a = mode b -> clock a = clock b -> rate a = rate b -> a = b.
Proof. destruct a, b. cbn. intros. by subst. Qed.

(** Reduce the projections of record updates, and nothing else. *)
Ltac rsimpl :=
  cbn [ar dr rr KSR ksl ksr mul Cnt Incr FB connect1 op1_out0 op1_out1 CON eg_type state TL
       TLL volume sl eg_sh_ar eg_sel_ar eg_sh_dr eg_sel_dr eg_sh_rr eg_sel_rr key AMmask
       vib wavetable SLOT1 SLOT2 block_fnum fc ksl_base kcode P_CH eg_cnt eg_timer
       eg_timer_add eg_timer_overflow rhythm fn_tab lfo_am_depth lfo_pm_depth_range
       lfo_am_cnt lfo_am_inc lfo_pm_cnt lfo_pm_inc noise_rng noise_p noise_f wavesel type
       address status statusmask mode clock rate sin_tab tl_tab phase_modulation output0
       lastChOutput outputCh LFO_AM LFO_PM with_ar with_dr with_rr with_KSR with_ksl
       with_ksr with_mul with_Cnt with_Incr with_FB with_connect1 with_op1_out0
       with_op1_out1 with_CON with_eg_type with_state with_TL with_TLL with_volume with_sl
       with_eg_sh_ar with_eg_sel_ar with_eg_sh_dr with_eg_sel_dr with_eg_sh_rr
       with_eg_sel_rr with_key with_AMmask with_vib with_wavetable with_SLOT1 with_SLOT2
       with_block_fnum with_fc with_ksl_base with_kcode with_P_CH with_eg_cnt with_eg_timer
       with_eg_timer_add with_eg_timer_overflow with_rhythm with_fn_tab with_lfo_am_depth
       with_lfo_pm_depth_range with_lfo_am_cnt with_lfo_am_inc with_lfo_pm_cnt
       with_lfo_pm_inc with_noise_rng with_noise_p with_noise_f with_wavesel with_type
       with_address with_status with_statusmask with_mode with_clock with_rate with_sin_tab
       with_tl_tab with_phase_modulation with_output0 with_lastChOutput with_outputCh
       with_LFO_AM with_LFO_PM fst snd].

Tactic Notation "rsimpl" "in" hyp(H) :=
  cbn [ar dr rr KSR ksl ksr mul Cnt Incr FB connect1 op1_out0 op1_out1 CON eg_type state TL
       TLL volume sl eg_sh_ar eg_sel_ar eg_sh_dr eg_sel_dr eg_sh_rr eg_sel_rr key AMmask
       vib wavetable SLOT1 SLOT2 block_fnum fc ksl_base kcode P_CH eg_cnt eg_timer
       eg_timer_add eg_timer_overflow rhythm fn_tab lfo_am_depth lfo_pm_depth_range
       lfo_am_cnt lfo_am_inc lfo_pm_cnt lfo_pm_inc noise_rng noise_p noise_f wavesel type
       address status statusmask mode clock rate sin_tab tl_tab phase_modulation output0
       lastChOutput outputCh LFO_AM LFO_PM with_ar with_dr with_rr with_KSR with_ksl
       with_ksr with_mul with_Cnt with_Incr with_FB with_connect1 with_op1_out0
       with_op1_out1 with_CON with_eg_type with_state with_TL with_TLL with_volume with_sl
       with_eg_sh_ar with_eg_sel_ar with_eg_sh_dr with_eg_sel_dr with_eg_sh_rr
       with_eg_sel_rr with_key with_AMmask with_vib with_wavetable with_SLOT1 with_SLOT2
       with_block_fnum with_fc with_ksl_base with_kcode with_P_CH with_eg_cnt with_eg_timer
       with_eg_timer_add with_eg_timer_overflow with_rhythm with_fn_tab with_lfo_am_depth
       with_lfo_pm_depth_range with_lfo_am_cnt with_lfo_am_inc with_lfo_pm_cnt
       with_lfo_pm_inc with_noise_rng with_noise_p with_noise_f with_wavesel with_type
       with_address with_status with_statusmask with_mode with_clock with_rate with_sin_tab
       with_tl_tab with_phase_modulation with_output0 with_lastChOutput with_outputCh
       with_LFO_AM with_LFO_PM fst snd] in H.
Tactic Notation "rsimpl" "in" "*" :=
  cbn [ar dr rr KSR ksl ksr mul Cnt Incr FB connect1 op1_out0 op1_out1 CON eg_type state TL
       TLL volume sl eg_sh_ar eg_sel_ar eg_sh_dr eg_sel_dr eg_sh_rr eg_sel_rr key AMmask
       vib wavetable SLOT1 SLOT2 block_fnum fc ksl_base kcode P_CH eg_cnt eg_timer
       eg_timer_add eg_timer_overflow rhythm fn_tab lfo_am_depth lfo_pm_depth_range
       lfo_am_cnt lfo_am_inc lfo_pm_cnt lfo_pm_inc noise_rng noise_p noise_f wavesel type
       address status statusmask mode clock rate sin_tab tl_tab phase_modulation output0
       lastChOutput outputCh LFO_AM LFO_PM with_ar with_dr with_rr with_KSR with_ksl
       with_ksr with_mul with_Cnt with_Incr with_FB with_connect1 with_op1_out0
       with_op1_out1 with_CON with_eg_type with_state with_TL with_TLL with_volume with_sl
       with_eg_sh_ar with_eg_sel_ar with_eg_sh_dr with_eg_sel_dr with_eg_sh_rr
       with_eg_sel_rr with_key with_AMmask with_vib with_wavetable with_SLOT1 with_SLOT2
       with_block_fnum with_fc with_ksl_base with_kcode with_P_CH with_eg_cnt with_eg_timer
       with_eg_timer_add with_eg_timer_overflow with_rhythm with_fn_tab with_lfo_am_depth
       with_lfo_pm_depth_range with_lfo_am_cnt with_lfo_am_inc with_lfo_pm_cnt
       with_lfo_pm_inc with_noise_rng with_noise_p with_noise_f with_wavesel with_type
       with_address with_status with_statusmask with_mode with_clock with_rate with_sin_tab
       with_tl_tab with_phase_modulation with_output0 with_lastChOutput with_outputCh
       with_LFO_AM with_LFO_PM fst snd] in *.

(** Prove two records equal by comparing their fields. *)
Ltac slot_eq := apply slot_ext; rsimpl; try reflexivity.
Ltac ch_eq := apply ch_ext; rsimpl; try reflexivity.
Ltac chip_eq := apply chip_ext; rsimpl; try reflexivity.

(** ** The noise register *)

Lemma noise_shift_range (x : Z) : 0 < x < 2 ^ 23 -> 0 < noise_shift x < 2 ^ 23.
Proof.
  intros [Hx Hx']. unfold noise_shift, nz.
  rewrite land_1_mod, Z.shiftr_div_pow2 by lia. change (2 ^ 1) with 2.
  destruct (x mod 2 =? 0) eqn:Hb; simpl.
  - apply Z.eqb_eq in Hb. zlia.
  - assert (0 <= Z.lxor x 0x800302 < 2 ^ 24) as Hr by (apply lxor_lt_pow2; simpl; lia).
    assert (2 ^ 23 <= Z.lxor x 0x800302) as Hl.
    { apply testbit_true_ge; [lia|].
      rewrite Z.lxor_spec, testbit_small by (simpl; lia). reflexivity. }
    zlia.
Qed.

Lemma noise_iter_range (n : nat) (x : Z) :
  0 < x < 2 ^ 23 -> 0 < Nat.iter n noise_shift x < 2 ^ 23.
Proof.
  intros Hx. induction n as [|n IH]; [done|]. simpl. by apply noise_shift_range.
Qed.


(** ** What the operations leave alone *)

Lemma noise_rng_OPLWriteReg OPL r v : noise_rng (OPLWriteReg OPL r v) = noise_rng OPL.
Proof.
  unfold OPLWriteReg, set_mul, set_ksl_tl, set_ar_dr, set_sl_rr, write_rhythm, on_slot.
  repeat case_match; reflexivity.
Qed.

Lemma noise_rng_write_zero_down n hi OPL :
  noise_rng (write_zero_down n hi OPL) = noise_rng OPL.
Proof.
  revert hi OPL. induction n as [|n IH]; intros hi OPL; [done|].
  cbn [write_zero_down]. by rewrite IH, noise_rng_OPLWriteReg.
Qed.

Lemma noise_rng_OPLResetChip OPL : noise_rng (OPLResetChip OPL) = 1.
Proof.
  unfold OPLResetChip. rsimpl.
  rewrite noise_rng_write_zero_down, !noise_rng_OPLWriteReg.
  unfold OPL_STATUS_RESET. by case_match.
Qed.

Lemma noise_rng_calc_ch c M : noise_rng (fst (calc_ch c M)) = noise_rng (fst M).
Proof. unfold calc_ch. repeat case_match; reflexivity. Qed.

Lemma noise_rng_calc_rh M : noise_rng (fst (calc_rh M)) = noise_rng (fst M).
Proof. unfold calc_rh. repeat case_match; reflexivity. Qed.

Lemma noise_rng_mix rh M : noise_rng (fst (mix rh M)) = noise_rng (fst M).
Proof.
  unfold mix. destruct (advance_lfo _ _) as [OPL1 g1] eqn:Hl.
  assert (noise_rng OPL1 = noise_rng (fst M)) as <-
    by (unfold advance_lfo in Hl; by injection Hl as <- _).
  case_match; rewrite ?noise_rng_calc_rh, ?noise_rng_calc_ch; reflexivity.
Qed.

Lemma noise_rng_eg_while n OPL : noise_rng (eg_while n OPL) = noise_rng OPL.
Proof.
  revert OPL. induction n as [|n IH]; intros OPL; [done|].
  simpl. case_match; [|done]. by rewrite IH.
Qed.

Lemma noise_ok_advance g OPL : noise_ok OPL -> noise_ok (advance g OPL).
Proof.
  unfold noise_ok, advance. intros H. rsimpl.
  apply noise_iter_range. by rewrite noise_rng_eg_while.
Qed.

Lemma noise_ok_sample_step rh M :
  noise_ok (fst M) -> noise_ok (fst (fst (sample_step rh M))).
Proof.
  intros HM. unfold sample_step. rsimpl.
  apply noise_ok_advance. unfold noise_ok. by rewrite noise_rng_mix.
Qed.

Lemma noise_ok_update_loop rh n M :
  noise_ok (fst M) -> noise_ok (fst (fst (update_loop rh n M))).
Proof.
  revert M. induction n as [|n IH]; intros M HM; [done|].
  cbn [update_loop].
  pose proof (noise_ok_sample_step rh M HM) as H1.
  destruct (sample_step rh M) as [M1 x].
  specialize (IH M1 H1). destruct (update_loop rh n M1) as [M2 xs]. exact IH.
Qed.

Lemma noise_ok_run_event M e : noise_ok (fst M) -> noise_ok (fst (fst (run_event M e))).
Proof.
  intros HM. destruct e as [r v|n| |c]; cbn [run_event].
  - unfold noise_ok, ym3812_write, OPLWrite in *. rsimpl.
    change (Z.land 0 1 =? 0) with true. change (Z.land 1 1 =? 0) with false.
    cbv iota. by rewrite noise_rng_OPLWriteReg.
  - by apply noise_ok_update_loop.
  - unfold noise_ok, ym3812_reset_chip. rsimpl. rewrite noise_rng_OPLResetChip. lia.
  - unfold noise_ok, ym3812_timer_over, OPLTimerOver, OPL_STATUS_SET in *. rsimpl.
    repeat case_match; done.
Qed.

Lemma noise_ok_run es M : noise_ok (fst M) -> noise_ok (fst (fst (run M es))).
Proof.
  revert M. induction es as [|e es IH]; intros M HM; [done|].
  cbn [run]. pose proof (noise_ok_run_event M e HM) as H1.
  destruct (run_event M e) as [M1 xs]. specialize (IH M1 H1).
  destruct (run M1 es) as [M2 ys]. done.
Qed.

(** C4.  The 23-bit noise register, seeded with 1 by reset, is never
    zero: neither after any number of its shift steps (XOR 0x800302 into
    the register when bit 0 is set, then shift right by one), nor in the
    chip after any calls that follow a reset. *)
Theorem noise_rng_never_zero :
  (forall n : nat, Nat.iter n noise_shift 1 <> 0) /\
  (forall (M : machine) (es : list event),
      noise_rng (OPLResetChip (fst M)) = 1 /\
      noise_rng (fst (fst (run (ym3812_reset_chip (fst M), snd M) es))) <> 0).
Proof.
  split.
  - intros n. pose proof (noise_iter_range n 1 ltac:(lia)). lia.
  - intros M es. split; [apply noise_rng_OPLResetChip|].
    pose proof (noise_ok_run es (ym3812_reset_chip (fst M), snd M)) as H.
    assert (noise_ok (fst (ym3812_reset_chip (fst M), snd M))) as H0.
    { unfold noise_ok, ym3812_reset_chip. rsimpl. rewrite noise_rng_OPLResetChip. lia. }
    specialize (H H0). unfold noise_ok in H. lia.
Qed.


(** ** Masks *)

Lemma land_upper (a m : Z) : 0 <= m -> 0 <= Z.land a m <= m.
Proof.
  intros Hm. split; [apply Z.land_nonneg; by right|].
  assert (Z.ldiff (Z.land a m) m = 0) as H0.
  { apply Z.bits_inj'. intros n _.
    rewrite Z.ldiff_spec, Z.land_spec, Z.bits_0.
    by destruct (Z.testbit a n), (Z.testbit m n). }
  pose proof (Z.sub_nocarry_ldiff _ _ H0) as Hs.
  assert (0 <= Z.ldiff m (Z.land a m)) by (apply Z.ldiff_nonneg; by left).
  lia.
Qed.

Lemma land_land_const (a m k : Z) : Z.land (Z.land a m) k = Z.land a (Z.land m k).
Proof. by rewrite Z.land_assoc. Qed.

Lemma nz_true (x : Z) : nz x = true <-> x <> 0.
Proof. unfold nz. rewrite negb_true_iff, Z.eqb_neq. done. Qed.

Lemma nz_false (x : Z) : nz x = false <-> x = 0.
Proof. unfold nz. rewrite negb_false_iff, Z.eqb_eq. done. Qed.

(** ** The decode is idempotent *)

Lemma FM_KEYON_idem k S : FM_KEYON k (FM_KEYON k S) = FM_KEYON k S.
Proof.
  unfold FM_KEYON at 2 3. destruct (nz (key S)) eqn:Hk.
  - unfold FM_KEYON. rsimpl.
    assert (nz (Z.lor (key S) k) = true) as ->.
    { apply nz_true in Hk. apply nz_true. rewrite Z.lor_eq_0_iff. tauto. }
    slot_eq. by rewrite <- Z.lor_assoc, Z.lor_diag.
  - unfold FM_KEYON. rsimpl.
    destruct (nz (Z.lor (key S) k)); slot_eq; by rewrite <- Z.lor_assoc, Z.lor_diag.
Qed.

Lemma FM_KEYOFF_idem k S : FM_KEYOFF k (FM_KEYOFF k S) = FM_KEYOFF k S.
Proof.
  unfold FM_KEYOFF at 2 3.
  destruct (nz (key S)) eqn:Hk; [|unfold FM_KEYOFF; by rewrite Hk].
  rsimpl. destruct (nz (Z.land (key S) (u32 k))) eqn:Hk2.
  - unfold FM_KEYOFF. rsimpl. rewrite Hk2. rsimpl.
    rewrite <- Z.land_assoc, Z.land_diag, Hk2. slot_eq.
  - destruct (EG_REL <? state S) eqn:Hs; unfold FM_KEYOFF; rsimpl; by rewrite Hk2.
Qed.

Lemma key_switch_idem c k S : key_switch c k (key_switch c k S) = key_switch c k S.
Proof. unfold key_switch. destruct (nz c); [apply FM_KEYON_idem | apply FM_KEYOFF_idem]. Qed.

Lemma in_SLOT1_idem f CH :
  f (f (SLOT1 CH)) = f (SLOT1 CH) -> in_SLOT1 f (in_SLOT1 f CH) = in_SLOT1 f CH.
Proof. intros H. unfold in_SLOT1. ch_eq. done. Qed.

Lemma in_SLOT2_idem f CH :
  f (f (SLOT2 CH)) = f (SLOT2 CH) -> in_SLOT2 f (in_SLOT2 f CH) = in_SLOT2 f CH.
Proof. intros H. unfold in_SLOT2. ch_eq. done. Qed.

Lemma alter_idem {A} (f : A -> A) (i : nat) (l : list A) :
  (forall x, l !! i = Some x -> f (f x) = f x) -> alter f i (alter f i l) = alter f i l.
Proof.
  intros H. rewrite list_alter_alter_eq. apply list_alter_ext; [|done].
  intros x Hx. by apply H.
Qed.

(** [CALC_FCSLOT] reads the channel's [fc] and [kcode] only. *)
Lemma CALC_FCSLOT_ch CH CH' S :
  fc CH' = fc CH -> kcode CH' = kcode CH -> CALC_FCSLOT CH' S = CALC_FCSLOT CH S.
Proof. intros H1 H2. unfold CALC_FCSLOT. by rewrite H1, H2. Qed.

Lemma refresh_TLL_ch CH CH' S :
  ksl_base CH' = ksl_base CH -> refresh_TLL CH' S = refresh_TLL CH S.
Proof. intros H1. unfold refresh_TLL. by rewrite H1. Qed.

(** The second pass of [CALC_FCSLOT] finds [ksr] up to date, also after
    fields that it does not read were set again. *)
Lemma CALC_FCSLOT_again CH S S' :
  mul S' = mul (CALC_FCSLOT CH S) -> KSR S' = KSR (CALC_FCSLOT CH S) ->
  ksr S' = ksr (CALC_FCSLOT CH S) -> mul S = mul (CALC_FCSLOT CH S) ->
  CALC_FCSLOT CH S' = with_Incr (Incr (CALC_FCSLOT CH S)) S'.
Proof.
  unfold CALC_FCSLOT. rsimpl.
  destruct (ksr S =? Z.shiftr (kcode CH) (KSR S)) eqn:Hk; rsimpl.
  - intros Hm HK Hks _. rewrite HK, Hks, Hk, Hm. done.
  - unfold set_rr_rates, set_dr_rates, set_ar_rates. rsimpl.
    destruct (ar S + Z.shiftr (kcode CH) (KSR S) <? 16 + 62); rsimpl;
      intros Hm HK Hks _; rewrite HK, Hks, Z.eqb_refl, Hm; done.
Qed.

Lemma CALC_FCSLOT_KSR CH S : KSR (CALC_FCSLOT CH S) = KSR S.
Proof.
  unfold CALC_FCSLOT, set_rr_rates, set_dr_rates, set_ar_rates. rsimpl.
  repeat case_match; reflexivity.
Qed.

Lemma CALC_FCSLOT_mul CH S : mul (CALC_FCSLOT CH S) = mul S.
Proof.
  unfold CALC_FCSLOT, set_rr_rates, set_dr_rates, set_ar_rates. rsimpl.
  repeat case_match; reflexivity.
Qed.

Lemma CALC_FCSLOT_Incr CH S : Incr (CALC_FCSLOT CH S) = u32 (fc CH * mul S).
Proof.
  unfold CALC_FCSLOT, set_rr_rates, set_dr_rates, set_ar_rates. rsimpl.
  repeat case_match; reflexivity.
Qed.

Lemma CALC_FCSLOT_idem CH S : CALC_FCSLOT CH (CALC_FCSLOT CH S) = CALC_FCSLOT CH S.
Proof.
  rewrite (CALC_FCSLOT_again CH S) by (by rewrite ?CALC_FCSLOT_mul).
  slot_eq.
Qed.

Lemma on_slot_idem slot f OPL :
  (forall CH, in_slot slot f (in_slot slot f CH) = in_slot slot f CH) ->
  on_slot slot f (on_slot slot f OPL) = on_slot slot f OPL.
Proof.
  intros H. unfold on_slot. chip_eq.
  apply alter_idem. intros CH _. apply H.
Qed.

Lemma CALC_FCSLOT_eg_type CH S : eg_type (CALC_FCSLOT CH S) = eg_type S.
Proof.
  unfold CALC_FCSLOT, set_rr_rates, set_dr_rates, set_ar_rates. rsimpl.
  repeat case_match; reflexivity.
Qed.

Lemma CALC_FCSLOT_vib CH S : vib (CALC_FCSLOT CH S) = vib S.
Proof.
  unfold CALC_FCSLOT, set_rr_rates, set_dr_rates, set_ar_rates. rsimpl.
  repeat case_match; reflexivity.
Qed.

Lemma CALC_FCSLOT_AMmask CH S : AMmask (CALC_FCSLOT CH S) = AMmask S.
Proof.
  unfold CALC_FCSLOT, set_rr_rates, set_dr_rates, set_ar_rates. rsimpl.
  repeat case_match; reflexivity.
Qed.

(** The operator part of [set_mul]. *)
Lemma set_mul_slot_idem CH CH' a vb e k m S :
  fc CH' = fc CH -> kcode CH' = kcode CH ->
  CALC_FCSLOT CH'
    (with_AMmask a (with_vib vb (with_eg_type e (with_KSR k (with_mul m
       (CALC_FCSLOT CH
          (with_AMmask a (with_vib vb (with_eg_type e (with_KSR k (with_mul m S)))))))))))
  = CALC_FCSLOT CH
      (with_AMmask a (with_vib vb (with_eg_type e (with_KSR k (with_mul m S))))).
Proof.
  intros Hfc Hkc. rewrite (CALC_FCSLOT_ch CH CH') by done.
  set (S0 := with_AMmask a (with_vib vb (with_eg_type e (with_KSR k (with_mul m S))))).
  rewrite (CALC_FCSLOT_again CH S0);
    [|rsimpl; by rewrite ?CALC_FCSLOT_mul, ?CALC_FCSLOT_KSR..].
  slot_eq; rewrite ?CALC_FCSLOT_mul, ?CALC_FCSLOT_KSR, ?CALC_FCSLOT_eg_type,
    ?CALC_FCSLOT_vib, ?CALC_FCSLOT_AMmask; reflexivity.
Qed.

Lemma set_mul_idem OPL slot v : set_mul (set_mul OPL slot v) slot v = set_mul OPL slot v.
Proof.
  apply on_slot_idem. intros CH.
  unfold in_slot, set_mul_slot. destruct (Z.land slot 1 =? 0).
  - unfold in_SLOT1. ch_eq. by apply (set_mul_slot_idem CH).
  - unfold in_SLOT2. ch_eq. by apply (set_mul_slot_idem CH).
Qed.

Lemma set_ksl_tl_idem OPL slot v :
  set_ksl_tl (set_ksl_tl OPL slot v) slot v = set_ksl_tl OPL slot v.
Proof.
  apply on_slot_idem. intros CH.
  unfold in_slot. destruct (Z.land slot 1 =? 0);
    [apply in_SLOT1_idem | apply in_SLOT2_idem];
    unfold set_ksl_tl_slot, refresh_TLL; slot_eq.
Qed.

Lemma set_ar_dr_slot_idem a d S :
  set_dr_rates (with_dr d (set_ar_rates (with_ar a
    (set_dr_rates (with_dr d (set_ar_rates (with_ar a S)))))))
  = set_dr_rates (with_dr d (set_ar_rates (with_ar a S))).
Proof.
  unfold set_dr_rates, set_ar_rates. rsimpl.
  destruct (a + ksr S <? 16 + 62) eqn:Ha; rsimpl; rewrite ?Ha; slot_eq.
Qed.

Lemma set_ar_dr_idem OPL slot v :
  set_ar_dr (set_ar_dr OPL slot v) slot v = set_ar_dr OPL slot v.
Proof.
  apply on_slot_idem. intros CH.
  unfold in_slot. destruct (Z.land slot 1 =? 0);
    [apply in_SLOT1_idem | apply in_SLOT2_idem]; apply set_ar_dr_slot_idem.
Qed.

Lemma set_sl_rr_idem OPL slot v :
  set_sl_rr (set_sl_rr OPL slot v) slot v = set_sl_rr OPL slot v.
Proof.
  apply on_slot_idem. intros CH.
  unfold in_slot. destruct (Z.land slot 1 =? 0);
    [apply in_SLOT1_idem | apply in_SLOT2_idem];
    unfold set_sl_rr_slot, set_rr_rates; slot_eq.
Qed.

Lemma write_fb_con_idem v S : write_fb_con v (write_fb_con v S) = write_fb_con v S.
Proof. unfold write_fb_con. slot_eq. Qed.

Lemma alter678_idem (f6 f7 f8 : OPL_CH -> OPL_CH) (l : list OPL_CH) :
  (forall x, f6 (f6 x) = f6 x) -> (forall x, f7 (f7 x) = f7 x) ->
  (forall x, f8 (f8 x) = f8 x) ->
  alter f8 8%nat (alter f7 7%nat (alter f6 6%nat
    (alter f8 8%nat (alter f7 7%nat (alter f6 6%nat l)))))
  = alter f8 8%nat (alter f7 7%nat (alter f6 6%nat l)).
Proof.
  intros H6 H7 H8.
  rewrite (list_alter_alter_ne f6 f8 _ 6%nat 8%nat) by done.
  rewrite (list_alter_alter_ne f6 f7 _ 6%nat 7%nat) by done.
  rewrite (list_alter_alter_ne f7 f8 _ 7%nat 8%nat) by done.
  rewrite (alter_idem f6) by auto. rewrite (alter_idem f7) by auto.
  rewrite (alter_idem f8) by auto. done.
Qed.

Lemma in_SLOT12_idem f g CH :
  (forall S, f (f S) = f S) -> (forall S, g (g S) = g S) ->
  in_SLOT2 g (in_SLOT1 f (in_SLOT2 g (in_SLOT1 f CH))) = in_SLOT2 g (in_SLOT1 f CH).
Proof. intros Hf Hg. unfold in_SLOT1, in_SLOT2. ch_eq; congruence. Qed.

Lemma rhythm_keys_idem bd hh sd tom top chs :
  (forall S, bd (bd S) = bd S) -> (forall S, hh (hh S) = hh S) ->
  (forall S, sd (sd S) = sd S) -> (forall S, tom (tom S) = tom S) ->
  (forall S, top (top S) = top S) ->
  rhythm_keys bd hh sd tom top (rhythm_keys bd hh sd tom top chs)
  = rhythm_keys bd hh sd tom top chs.
Proof.
  intros Hbd Hhh Hsd Htom Htop. unfold rhythm_keys.
  rewrite !list_alter_alter_eq.
  apply alter678_idem; intros CH; unfold compose; by apply in_SLOT12_idem.
Qed.

Lemma write_rhythm_idem OPL v :
  write_rhythm (write_rhythm OPL v) v = write_rhythm OPL v.
Proof.
  unfold write_rhythm. rsimpl.
  destruct (nz (Z.land (Z.land v 63) 32)); chip_eq;
    apply rhythm_keys_idem; intros S;
    auto using key_switch_idem, FM_KEYOFF_idem.
Qed.

Lemma fnum_lo_fix (x v : Z) :
  Z.lor (Z.land (Z.lor (Z.land x 0x1f00) (Z.land v 0xff)) 0x1f00) (Z.land v 0xff)
  = Z.lor (Z.land x 0x1f00) (Z.land v 0xff).
Proof.
  rewrite Z.land_lor_distr_l, !land_land_const.
  change (Z.land 0x1f00 0x1f00) with 0x1f00. change (Z.land 0xff 0x1f00) with 0.
  by rewrite Z.land_0_r, Z.lor_0_r.
Qed.

Lemma land_shiftl8_ff (w : Z) : Z.land (Z.shiftl w 8) 0xff = 0.
Proof.
  change 0xff with (Z.ones 8).
  rewrite Z.land_ones, Z.shiftl_mul_pow2, Z.mod_mul by lia. done.
Qed.

Lemma fnum_hi_fix (x v : Z) :
  Z.lor (Z.shiftl (Z.land v 0x1f) 8)
    (Z.land (Z.lor (Z.shiftl (Z.land v 0x1f) 8) (Z.land x 0xff)) 0xff)
  = Z.lor (Z.shiftl (Z.land v 0x1f) 8) (Z.land x 0xff).
Proof.
  rewrite Z.land_lor_distr_l, land_shiftl8_ff, land_land_const.
  change (Z.land 0xff 0xff) with 0xff. by rewrite Z.lor_0_l.
Qed.

Lemma FM_KEYON_CALC_FCSLOT k CH S :
  FM_KEYON k (CALC_FCSLOT CH S) = CALC_FCSLOT CH (FM_KEYON k S).
Proof.
  unfold FM_KEYON, CALC_FCSLOT, set_rr_rates, set_dr_rates, set_ar_rates. rsimpl.
  destruct (nz (key S)) eqn:Hk; rsimpl; repeat case_match; rsimpl in *;
    rewrite ?Hk; try congruence; slot_eq.
Qed.

Lemma FM_KEYOFF_CALC_FCSLOT k CH S :
  FM_KEYOFF k (CALC_FCSLOT CH S) = CALC_FCSLOT CH (FM_KEYOFF k S).
Proof.
  unfold FM_KEYOFF, CALC_FCSLOT, set_rr_rates, set_dr_rates, set_ar_rates. rsimpl.
  destruct (nz (key S)) eqn:Hk; rsimpl; repeat case_match; rsimpl in *;
    rewrite ?Hk; try congruence; slot_eq.
Qed.

Lemma FM_KEYON_refresh_TLL k CH S :
  FM_KEYON k (refresh_TLL CH S) = refresh_TLL CH (FM_KEYON k S).
Proof. unfold FM_KEYON, refresh_TLL. rsimpl. destruct (nz (key S)); slot_eq. Qed.

Lemma FM_KEYOFF_refresh_TLL k CH S :
  FM_KEYOFF k (refresh_TLL CH S) = refresh_TLL CH (FM_KEYOFF k S).
Proof.
  unfold FM_KEYOFF, refresh_TLL. rsimpl. destruct (nz (key S)); [|done]. rsimpl.
  repeat case_match; slot_eq.
Qed.

Lemma block_fnum_in_SLOT12 f g CH : block_fnum (in_SLOT2 g (in_SLOT1 f CH)) = block_fnum CH.
Proof. reflexivity. Qed.

Lemma block_fnum_update OPL bfn CH : block_fnum (update_block_fnum OPL bfn CH) = bfn.
Proof. reflexivity. Qed.

(** Key switches commute with the refresh of the derived values. *)
Lemma update_block_fnum_keys OPL bfn k CH :
  (forall X S, k (CALC_FCSLOT X S) = CALC_FCSLOT X (k S)) ->
  (forall X S, k (refresh_TLL X S) = refresh_TLL X (k S)) ->
  in_SLOT2 k (in_SLOT1 k (update_block_fnum OPL bfn CH))
  = update_block_fnum OPL bfn (in_SLOT2 k (in_SLOT1 k CH)).
Proof.
  intros Hc Hr. unfold update_block_fnum, in_SLOT1, in_SLOT2. rsimpl.
  ch_eq; rewrite Hc, Hr; f_equal.
Qed.

Lemma write_fnum_idem OPL OPL' r v CH :
  fn_tab OPL' = fn_tab OPL -> mode OPL' = mode OPL ->
  write_fnum OPL' r (Z.land v 0xff) (write_fnum OPL r (Z.land v 0xff) CH)
  = write_fnum OPL r (Z.land v 0xff) CH.
Proof.
  intros Hfn Hmode.
  assert (forall b X, update_block_fnum OPL' b X = update_block_fnum OPL b X) as Hup
    by (intros; unfold update_block_fnum; by rewrite Hfn, Hmode).
  unfold write_fnum. rewrite !Hup.
  destruct (Z.land r 0x10 =? 0) eqn:Ha.
  - destruct (block_fnum CH =? _) eqn:He.
    + by rewrite He.
    + rewrite block_fnum_update, fnum_lo_fix, Z.eqb_refl. done.
  - set (k := if nz (Z.land (Z.land v 0xff) 0x20) then FM_KEYON 1 else FM_KEYOFF (Z.lnot 1)).
    assert (forall S, k (k S) = k S) as Hk
      by (intros S; unfold k; destruct (nz _); [apply FM_KEYON_idem|apply FM_KEYOFF_idem]).
    assert (forall X S, k (CALC_FCSLOT X S) = CALC_FCSLOT X (k S)) as Hc
      by (intros X S; unfold k; destruct (nz _);
          [apply FM_KEYON_CALC_FCSLOT|apply FM_KEYOFF_CALC_FCSLOT]).
    assert (forall X S, k (refresh_TLL X S) = refresh_TLL X (k S)) as Hr
      by (intros X S; unfold k; destruct (nz _);
          [apply FM_KEYON_refresh_TLL|apply FM_KEYOFF_refresh_TLL]).
    assert (forall CH0,
      (if nz (Z.land (Z.land v 0xff) 0x20)
       then in_SLOT2 (FM_KEYON 1) (in_SLOT1 (FM_KEYON 1) CH0)
       else in_SLOT2 (FM_KEYOFF (Z.lnot 1)) (in_SLOT1 (FM_KEYOFF (Z.lnot 1)) CH0))
      = in_SLOT2 k (in_SLOT1 k CH0)) as Hsw by (intros; unfold k; by destruct (nz _)).
    rewrite !Hsw. clearbody k. clear Hsw.
    rewrite !block_fnum_in_SLOT12.
    destruct (block_fnum CH =? _) eqn:He.
    + rewrite ?block_fnum_in_SLOT12, He. by apply in_SLOT12_idem.
    + rewrite ?block_fnum_in_SLOT12, block_fnum_update, fnum_hi_fix, Z.eqb_refl.
      rewrite update_block_fnum_keys by done. f_equal. by apply in_SLOT12_idem.
Qed.

(** C9.  The register decode is idempotent: for every chip state and
    every (address, value) pair, writing the pair a second time changes
    nothing. *)
Theorem OPLWriteReg_idempotent (OPL : FM_OPL) (r v : Z) :
  OPLWriteReg (OPLWriteReg OPL r v) r v = OPLWriteReg OPL r v.
Proof.
  unfold OPLWriteReg.
  set (r' := Z.land r 0xff). set (v' := Z.land v 0xff).
  destruct (Z.land r' 0xe0 =? 0x00).
  { destruct (Z.land r' 0x1f =? 0x01).
    - destruct (nz (Z.land (type OPL) OPL_TYPE_WAVESEL)) eqn:Ht; rsimpl; by rewrite ?Ht.
    - destruct (Z.land r' 0x1f =? 0x08); reflexivity. }
  destruct (Z.land r' 0xe0 =? 0x20).
  { destruct (_ <? 0); [done|apply set_mul_idem]. }
  destruct (Z.land r' 0xe0 =? 0x40).
  { destruct (_ <? 0); [done|apply set_ksl_tl_idem]. }
  destruct (Z.land r' 0xe0 =? 0x60).
  { destruct (_ <? 0); [done|apply set_ar_dr_idem]. }
  destruct (Z.land r' 0xe0 =? 0x80).
  { destruct (_ <? 0); [done|apply set_sl_rr_idem]. }
  destruct (Z.land r' 0xe0 =? 0xa0).
  { destruct (r' =? 0xbd); [apply write_rhythm_idem|].
    destruct (8 <? Z.land r' 0x0f); [done|].
    chip_eq.
    rewrite list_alter_alter_eq. apply list_alter_ext; [|done].
    intros CH _. unfold compose. by apply write_fnum_idem. }
  destruct (Z.land r' 0xe0 =? 0xc0).
  { destruct (8 <? Z.land r' 0x0f); [done|].
    chip_eq. apply alter_idem. intros CH _.
    apply in_SLOT1_idem, write_fb_con_idem. }
  destruct (Z.land r' 0xe0 =? 0xe0); [|done].
  destruct (nz (wavesel OPL)) eqn:Hw; [|by rewrite Hw].
  destruct (_ <? 0) eqn:Hs.
  { by rewrite Hw. }
  change (wavesel (on_slot ?s ?f OPL)) with (wavesel OPL). rewrite Hw.
  apply on_slot_idem. intros CH. unfold in_slot.
  destruct (Z.land _ 1 =? 0); [apply in_SLOT1_idem | apply in_SLOT2_idem];
    unfold set_wavetable_slot; slot_eq.
Qed.


(** ** Channel-wise preservation *)

Lemma ch_pres_refl Q l : ch_pres Q l l.
Proof. by split. Qed.

Lemma ch_pres_trans Q l1 l2 l3 : ch_pres Q l1 l2 -> ch_pres Q l2 l3 -> ch_pres Q l1 l3.
Proof. intros [H1 H2] [H3 H4]. split; [congruence|auto]. Qed.

Lemma ch_pres_alter Q f j l : (forall CH, Q CH -> Q (f CH)) -> ch_pres Q l (alter f j l).
Proof.
  intros Hf. split; [apply length_alter|].
  intros i (CH & Hi & HQ). unfold lsat. rewrite list_lookup_alter.
  case_decide; [subst; rewrite Hi; eauto | eauto].
Qed.

Lemma ch_pres_first9 Q f l :
  (forall CH, Q CH -> Q (f CH)) -> ch_pres Q l ((f <$> take 9 l) ++ drop 9 l).
Proof.
  intros Hf. split.
  - rewrite length_app, length_fmap, length_take, length_drop. lia.
  - intros i (CH & Hi & HQ). unfold lsat.
    destruct (decide (i < 9)%nat) as [Hlt|Hge].
    + rewrite lookup_app_l by (rewrite length_fmap, length_take;
        apply lookup_lt_Some in Hi; lia).
      rewrite list_lookup_fmap, lookup_take_lt, Hi by done. eauto.
    + assert (length (f <$> take 9 l) = 9%nat) as Hlen
        by (rewrite length_fmap, length_take; apply lookup_lt_Some in Hi; lia).
      rewrite lookup_app_r by lia. rewrite Hlen, lookup_drop.
      replace (9 + (i - 9))%nat with i by lia. eauto.
Qed.

Lemma ch_pres_insert Q c CH CH' l :
  l !! c = Some CH -> (Q CH -> Q CH') -> ch_pres Q l (<[c := CH']> l).
Proof.
  intros Hc Hf. split; [apply length_insert|].
  intros i (CH0 & Hi & HQ). unfold lsat.
  destruct (decide (c = i)) as [->|Hne].
  - rewrite list_lookup_insert_eq by (by apply lookup_lt_Some in Hi).
    assert (CH0 = CH) as -> by congruence. eauto.
  - rewrite list_lookup_insert_ne by done. eauto.
Qed.

Lemma ch_pres_Forall Q l l' : ch_pres Q l l' -> Forall Q l -> Forall Q l'.
Proof.
  intros [Hlen Hp] Hall. apply Forall_lookup. intros i CH' Hi.
  destruct (lookup_lt_is_Some_2 l i) as [CH HCH].
  { apply lookup_lt_Some in Hi. lia. }
  destruct (Hp i) as (CH'' & Hi' & HQ).
  { exists CH. split; [done|]. by eapply Forall_lookup_1. }
  congruence.
Qed.

Lemma for_slots_pres Q f l :
  (forall CH, Q CH -> Q (each_slot f CH)) -> ch_pres Q l (for_slots f l).
Proof. apply ch_pres_first9. Qed.

(** ** Sample generation keeps what [closed_under_update] keeps *)

Section update.
Context (Q : OPL_CH -> Prop) (HQ : closed_under_update Q).

Lemma eg_tick_pres OPL : ch_pres Q (P_CH OPL) (P_CH (eg_tick OPL)).
Proof. unfold eg_tick. rsimpl. apply for_slots_pres. intros CH. apply HQ. Qed.

Lemma eg_while_pres n OPL : ch_pres Q (P_CH OPL) (P_CH (eg_while n OPL)).
Proof.
  revert OPL. induction n as [|n IH]; intros OPL; cbn [eg_while];
    [apply ch_pres_refl|].
  case_match; [|apply ch_pres_refl].
  eapply ch_pres_trans; [apply eg_tick_pres | apply IH].
Qed.

Lemma advance_pres g OPL : ch_pres Q (P_CH OPL) (P_CH (advance g OPL)).
Proof.
  unfold advance.
  pose proof (fun n => eg_while_pres n
                (with_eg_timer (u32 (eg_timer OPL + eg_timer_add OPL)) OPL)) as H1.
  rsimpl in H1. rsimpl. eapply ch_pres_trans; [apply H1|].
  apply for_slots_pres. intros CH. apply HQ.
Qed.

Lemma calc_ch_pres c M :
  0 <= LFO_AM (snd M) < 256 -> ch_pres Q (P_CH (fst M)) (P_CH (fst (calc_ch c M))).
Proof.
  intros Ham. unfold calc_ch. destruct (P_CH (fst M) !! c) as [CH|] eqn:Hc;
    [|apply ch_pres_refl].
  pose proof (proj1 (proj2 (proj2 HQ)) (snd M) CH Ham) as Hq.
  destruct (OPL_CALC_CH (snd M) CH) as [g' CH']. rsimpl.
  by apply (ch_pres_insert Q c CH).
Qed.

Lemma calc_rh_pres M :
  0 <= LFO_AM (snd M) < 256 -> ch_pres Q (P_CH (fst M)) (P_CH (fst (calc_rh M))).
Proof.
  intros Ham. unfold calc_rh.
  destruct (P_CH (fst M) !! 6%nat) as [CH6|] eqn:H6; [|apply ch_pres_refl].
  destruct (P_CH (fst M) !! 7%nat) as [CH7|]; [|apply ch_pres_refl].
  destruct (P_CH (fst M) !! 8%nat) as [CH8|]; [|apply ch_pres_refl].
  pose proof (proj2 (proj2 (proj2 HQ)) (snd M) CH6 CH7 CH8
                (Z.land (Z.shiftr (noise_rng (fst M)) 0) 1) Ham) as Hq.
  destruct (OPL_CALC_RH _ _ _ _ _) as [g' CH']. rsimpl.
  by apply (ch_pres_insert Q 6%nat CH6).
Qed.

Lemma LFO_AM_advance_lfo OPL g : 0 <= LFO_AM (snd (advance_lfo OPL g)) < 256.
Proof.
  unfold advance_lfo. rsimpl.
  set (tmp := u8 _).
  assert (0 <= tmp < 256) as Ht by (unfold tmp, u8; apply Z.mod_pos_bound; lia).
  destruct (nz (lfo_am_depth OPL)); [done|].
  rewrite Z.shiftr_div_pow2 by lia. change (2 ^ 2) with 4. zlia.
Qed.

Lemma LFO_AM_calc_ch c M : LFO_AM (snd (calc_ch c M)) = LFO_AM (snd M).
Proof.
  unfold calc_ch. destruct (P_CH (fst M) !! c) as [CH|]; [|done].
  unfold OPL_CALC_CH, calc_slot1, connect_add, output_add. rsimpl.
  repeat case_match; reflexivity.
Qed.

Lemma mix_pres rh M : ch_pres Q (P_CH (fst M)) (P_CH (fst (mix rh M))).
Proof.
  unfold mix.
  pose proof (LFO_AM_advance_lfo (fst M) (with_output0 0 (snd M))) as Ham.
  destruct (advance_lfo (fst M) (with_output0 0 (snd M))) as [OPL1 g1] eqn:Hl.
  assert (P_CH OPL1 = P_CH (fst M)) as HP
    by (unfold advance_lfo in Hl; by injection Hl as <- _).
  rewrite <- HP. cbn [snd] in Ham. clear Hl HP.
  set (M0 := (OPL1, g1)).
  assert (0 <= LFO_AM (snd M0) < 256) as H0 by done.
  change OPL1 with (fst M0). clearbody M0.
  set (M1 := calc_ch 0 M0). set (M2 := calc_ch 1 M1). set (M3 := calc_ch 2 M2).
  set (M4 := calc_ch 3 M3). set (M5 := calc_ch 4 M4). set (M6 := calc_ch 5 M5).
  assert (LFO_AM (snd M6) = LFO_AM (snd M0)) as Ha6
    by (unfold M6, M5, M4, M3, M2, M1; by rewrite !LFO_AM_calc_ch).
  assert (ch_pres Q (P_CH (fst M0)) (P_CH (fst M6))) as H6.
  { unfold M6, M5, M4, M3, M2, M1.
    repeat (eapply ch_pres_trans;
      [|apply calc_ch_pres; rewrite ?LFO_AM_calc_ch; exact H0]).
    apply ch_pres_refl. }
  clearbody M6. eapply ch_pres_trans; [exact H6|].
  destruct (nz rh).
  - apply calc_rh_pres. by rewrite Ha6.
  - repeat (eapply ch_pres_trans;
      [|apply calc_ch_pres; rewrite ?LFO_AM_calc_ch, Ha6; exact H0]).
    apply ch_pres_refl.
Qed.

Lemma sample_step_pres rh M :
  ch_pres Q (P_CH (fst M)) (P_CH (fst (fst (sample_step rh M)))).
Proof.
  unfold sample_step. rsimpl.
  eapply ch_pres_trans; [apply mix_pres | apply advance_pres].
Qed.

Lemma update_loop_pres rh n M :
  ch_pres Q (P_CH (fst M)) (P_CH (fst (fst (update_loop rh n M)))).
Proof.
  revert M. induction n as [|n IH]; intros M; cbn [update_loop]; [apply ch_pres_refl|].
  pose proof (sample_step_pres rh M) as H1.
  destruct (sample_step rh M) as [M1 x].
  specialize (IH M1). destruct (update_loop rh n M1) as [M2 xs].
  eapply ch_pres_trans; [exact H1 | exact IH].
Qed.

Lemma ym3812_update_one_pres M n :
  ch_pres Q (P_CH (fst M)) (P_CH (fst (fst (ym3812_update_one M n)))).
Proof. apply update_loop_pres. Qed.

End update.

(** ** Register writes keep what [closed_under_decode] keeps *)

Lemma lor_lt_pow2 (a b n : Z) :
  0 < n -> 0 <= a < 2 ^ n -> 0 <= b < 2 ^ n -> 0 <= Z.lor a b < 2 ^ n.
Proof.
  intros Hn Ha Hb.
  assert (0 <= Z.lor a b) as Hnn by (apply Z.lor_nonneg; lia).
  split; [done|].
  destruct (Z.eq_dec (Z.lor a b) 0) as [->|Hne]; [lia|].
  apply Z.log2_lt_pow2; [lia|].
  rewrite Z.log2_lor by lia.
  apply Z.max_lub_lt; by apply log2_lt_pow2'.
Qed.

Lemma land_sub_mask (v m k : Z) : Z.land v m = 0 -> Z.land m k = k -> Z.land v k = 0.
Proof. intros H0 Hk. by rewrite <- Hk, Z.land_assoc, H0. Qed.

(** Case analysis on the first test of the goal. *)
Ltac case_goal :=
  match goal with |- context [if ?c then _ else _] => destruct c eqn:? end.

Lemma keyon_write_0 r : keyon_write r 0 = false.
Proof.
  unfold keyon_write.
  replace (nz (Z.land (Z.land 0 255) 32)) with false by reflexivity.
  case_goal; [reflexivity | apply andb_false_r].
Qed.

Section decode.
Context (Q : OPL_CH -> Prop) (HD : closed_under_decode Q).

Lemma on_slot_pres slot f OPL :
  (forall CH, Q CH -> Q (in_slot slot f CH)) ->
  ch_pres Q (P_CH OPL) (P_CH (on_slot slot f OPL)).
Proof. intros Hf. unfold on_slot. rsimpl. by apply ch_pres_alter. Qed.

Lemma rhythm_keys_pres bd hh sd tom top l :
  (forall CH, Q CH -> Q (in_SLOT1 bd CH)) -> (forall CH, Q CH -> Q (in_SLOT2 bd CH)) ->
  (forall CH, Q CH -> Q (in_SLOT1 hh CH)) -> (forall CH, Q CH -> Q (in_SLOT2 sd CH)) ->
  (forall CH, Q CH -> Q (in_SLOT1 tom CH)) -> (forall CH, Q CH -> Q (in_SLOT2 top CH)) ->
  ch_pres Q l (rhythm_keys bd hh sd tom top l).
Proof.
  intros. unfold rhythm_keys.
  repeat (eapply ch_pres_trans; [|by apply ch_pres_alter]). apply ch_pres_refl.
Qed.

Lemma key_switch_pres c k :
  nz c = false \/ closed_under_keyon Q ->
  (forall CH, Q CH -> Q (in_SLOT1 (key_switch c k) CH)) /\
  (forall CH, Q CH -> Q (in_SLOT2 (key_switch c k) CH)).
Proof.
  intros Hc. unfold key_switch. destruct (nz c) eqn:Hn.
  - destruct Hc as [|[H1 H2]]; [done|]. split; intros CH; [apply H1 | apply H2].
  - split; intros CH; apply HD.
Qed.

Lemma write_rhythm_pres OPL v :
  0 <= v <= 255 ->
  nz (Z.land v 0x20) && nz (Z.land v 0x1f) = false \/ closed_under_keyon Q ->
  ch_pres Q (P_CH OPL) (P_CH (write_rhythm OPL v)).
Proof.
  intros Hv Hk. unfold write_rhythm. rsimpl.
  rewrite land_land_const. change (Z.land 0x3f 0x20) with 0x20.
  destruct (nz (Z.land v 0x20)) eqn:H20; rsimpl.
  - assert (forall m, Z.land 0x1f m = m -> nz (Z.land v m) = false \/ closed_under_keyon Q)
      as Hm.
    { intros m Hm. destruct Hk as [Hk|Hk]; [left|by right].
      rewrite andb_true_l in Hk. apply nz_false in Hk. apply nz_false.
      by apply (land_sub_mask v 0x1f m). }
    apply rhythm_keys_pres; apply key_switch_pres; by apply Hm.
  - apply rhythm_keys_pres; intros CH; apply HD.
Qed.

Lemma write_fnum_pres OPL r v CH :
  0 <= v <= 255 ->
  nz (Z.land r 0x10) && nz (Z.land v 0x20) = false \/ closed_under_keyon Q ->
  Q CH -> Q (write_fnum OPL r v CH).
Proof.
  intros Hv Hk HQ. unfold write_fnum.
  set (bfn := if Z.land r 16 =? 0 then Z.lor _ _ else _).
  assert (0 <= bfn <= 0x1fff) as Hb.
  { assert (0 <= bfn < 2 ^ 13); [|lia]. unfold bfn. destruct (Z.land r 16 =? 0).
    - apply lor_lt_pow2; [lia| |lia].
      pose proof (land_upper (block_fnum CH) 0x1f00 ltac:(lia)). lia.
    - apply lor_lt_pow2; [lia| |].
      + pose proof (land_upper v 0x1f ltac:(lia)).
        rewrite Z.shiftl_mul_pow2 by lia. lia.
      + pose proof (land_upper (block_fnum CH) 0xff ltac:(lia)). lia. }
  clearbody bfn.
  set (CHk := if Z.land r 16 =? 0 then CH else _).
  assert (Q CHk) as HQk.
  { unfold CHk. destruct (Z.land r 16 =? 0) eqn:Hr; [done|].
    assert (nz (Z.land r 16) = true) as Hnz by (apply nz_true; by apply Z.eqb_neq).
    rewrite Hnz in Hk. destruct (nz (Z.land v 32)) eqn:Hv32.
    - destruct Hk as [|[H1 H2]]; [done|]. by apply H2, H1.
    - by apply HD, HD. }
  clearbody CHk. destruct (block_fnum CHk =? bfn); [done|]. by apply HD.
Qed.

Lemma OPLWriteReg_pres OPL r v :
  keyon_write r v = false \/ closed_under_keyon Q ->
  ch_pres Q (P_CH OPL) (P_CH (OPLWriteReg OPL r v)).
Proof.
  intros Hk. unfold OPLWriteReg. unfold keyon_write in Hk.
  pose proof (land_upper v 0xff ltac:(lia)) as Hv.
  set (r' := Z.land r 0xff) in *. set (v' := Z.land v 0xff) in *. clearbody r' v'.
  destruct (Z.land r' 0xe0 =? 0x00).
  { repeat case_goal; apply ch_pres_refl. }
  destruct (Z.land r' 0xe0 =? 0x20).
  { case_goal; [apply ch_pres_refl|]. apply on_slot_pres. intros CH. by apply HD. }
  destruct (Z.land r' 0xe0 =? 0x40).
  { case_goal; [apply ch_pres_refl|]. apply on_slot_pres. intros CH. by apply HD. }
  destruct (Z.land r' 0xe0 =? 0x60).
  { case_goal; [apply ch_pres_refl|]. apply on_slot_pres. intros CH. by apply HD. }
  destruct (Z.land r' 0xe0 =? 0x80).
  { case_goal; [apply ch_pres_refl|]. apply on_slot_pres. intros CH. by apply HD. }
  destruct (Z.land r' 0xe0 =? 0xa0).
  { destruct (r' =? 0xbd); [by apply write_rhythm_pres|].
    destruct (8 <? Z.land r' 0x0f) eqn:H8; [apply ch_pres_refl|].
    rsimpl. apply ch_pres_alter. intros CH. apply write_fnum_pres; [done|].
    destruct Hk as [Hk|Hk]; [left|by right].
    assert ((Z.land r' 15 <=? 8) = true) as H8' by lia.
    rewrite H8' in Hk. by rewrite andb_true_l, andb_true_r in Hk. }
  destruct (Z.land r' 0xe0 =? 0xc0).
  { case_goal; [apply ch_pres_refl|]. rsimpl. apply ch_pres_alter. intros CH. by apply HD. }
  destruct (Z.land r' 0xe0 =? 0xe0); [|apply ch_pres_refl].
  do 2 (case_goal; try apply ch_pres_refl).
  apply on_slot_pres. intros CH. by apply HD.
Qed.

Lemma write_zero_down_pres n hi OPL :
  ch_pres Q (P_CH OPL) (P_CH (write_zero_down n hi OPL)).
Proof.
  revert hi OPL. induction n as [|n IH]; intros hi OPL; cbn [write_zero_down];
    [apply ch_pres_refl|].
  eapply ch_pres_trans; [|apply IH]. apply OPLWriteReg_pres. left. apply keyon_write_0.
Qed.

Lemma OPLResetChip_pres OPL :
  closed_under_reset Q -> ch_pres Q (P_CH OPL) (P_CH (OPLResetChip OPL)).
Proof.
  intros HR. unfold OPLResetChip. rsimpl.
  eapply ch_pres_trans; [|apply for_slots_pres, HR].
  eapply ch_pres_trans; [|apply write_zero_down_pres].
  assert (forall O r, ch_pres Q (P_CH O) (P_CH (OPLWriteReg O r 0))) as Hw.
  { intros O r. apply OPLWriteReg_pres. left. apply keyon_write_0. }
  do 4 (eapply ch_pres_trans; [|apply Hw]).
  unfold OPL_STATUS_RESET. case_match; apply ch_pres_refl.
Qed.

Lemma OPLTimerOver_pres OPL c :
  closed_under_keyon Q -> ch_pres Q (P_CH OPL) (P_CH (fst (OPLTimerOver OPL c))).
Proof.
  intros [K1 K2]. unfold OPLTimerOver, OPL_STATUS_SET. rsimpl.
  repeat case_match; rsimpl; try apply ch_pres_refl;
    apply ch_pres_first9; intros CH HCH; unfold CSMKeyControll;
    by apply HD, HD, K2, K1.
Qed.

End decode.

(** ** Lifting operator predicates to channels *)

Lemma both_in_SLOT1 (P : OPL_SLOT -> Prop) f CH :
  (forall S, P S -> P (f S)) -> both P CH -> both P (in_SLOT1 f CH).
Proof. intros Hf [H1 H2]. split; [by apply Hf | done]. Qed.

Lemma both_in_SLOT2 (P : OPL_SLOT -> Prop) f CH :
  (forall S, P S -> P (f S)) -> both P CH -> both P (in_SLOT2 f CH).
Proof. intros Hf [H1 H2]. split; [done | by apply Hf]. Qed.

Lemma both_in_slot (P : OPL_SLOT -> Prop) s f CH :
  (forall S, P S -> P (f CH S)) -> both P CH -> both P (in_slot s f CH).
Proof.
  intros Hf HP. unfold in_slot. case_goal; [by apply both_in_SLOT1 | by apply both_in_SLOT2].
Qed.

Lemma both_each_slot (P : OPL_SLOT -> Prop) f CH :
  (forall S, P S -> P (f CH S)) -> both P CH -> both P (each_slot f CH).
Proof. intros Hf [H1 H2]. split; by apply Hf. Qed.

(** What the operator network writes to a channel: the output history
    of operator 1. *)
Lemma calc_slot1_history g S env out :
  exists b, calc_slot1 g S env out = with_op1_out1 b S.
Proof. unfold calc_slot1. case_goal; eexists; slot_eq. Qed.

Lemma OPL_CALC_CH_history g CH :
  exists b, snd (OPL_CALC_CH g CH)
            = in_SLOT1 (fun S => with_op1_out1 b (with_op1_out0 (op1_out1 S) S)) CH.
Proof.
  unfold OPL_CALC_CH. rsimpl.
  match goal with |- context [calc_slot1 ?g ?S ?e ?o] =>
    destruct (calc_slot1_history g S e o) as [b ->] end.
  exists b. unfold in_SLOT1. ch_eq.
Qed.

Lemma OPL_CALC_RH_history g CH6 CH7 CH8 noise :
  exists b, snd (OPL_CALC_RH g CH6 CH7 CH8 noise)
            = in_SLOT1 (fun S => with_op1_out1 b (with_op1_out0 (op1_out1 S) S)) CH6.
Proof.
  unfold OPL_CALC_RH, rh_bass_drum. rsimpl.
  match goal with |- context [calc_slot1 ?g ?S ?e ?o] =>
    destruct (calc_slot1_history g S e o) as [b ->] end.
  exists b. unfold in_SLOT1. ch_eq.
Qed.

(** ** Traces *)

Lemma run_event_EvWrite M r v :
  fst (run_event M (EvWrite r v))
  = (OPLWriteReg (with_address (Z.land r 0xff) (fst M)) (Z.land r 0xff) v, snd M).
Proof. reflexivity. Qed.

Lemma keyon_write_mask r v : keyon_write (Z.land r 0xff) v = keyon_write r v.
Proof.
  unfold keyon_write. rewrite land_land_const. by change (Z.land 0xff 0xff) with 0xff.
Qed.

Section traces.
Context (Q : OPL_CH -> Prop).
Context (HU : closed_under_update Q) (HD : closed_under_decode Q).
Context (HK : closed_under_keyon Q) (HR : closed_under_reset Q).

Lemma run_event_pres M e :
  ch_pres Q (P_CH (fst M)) (P_CH (fst (fst (run_event M e)))).
Proof.
  destruct e as [r v|n| |c].
  - rewrite run_event_EvWrite. cbn [fst].
    apply (OPLWriteReg_pres Q HD (with_address (Z.land r 0xff) (fst M))). by right.
  - by apply ym3812_update_one_pres.
  - by apply OPLResetChip_pres.
  - by apply OPLTimerOver_pres.
Qed.

Lemma run_pres es M : ch_pres Q (P_CH (fst M)) (P_CH (fst (fst (run M es)))).
Proof.
  revert M. induction es as [|e es IH]; intros M; cbn [run]; [apply ch_pres_refl|].
  pose proof (run_event_pres M e) as H1.
  destruct (run_event M e) as [M1 xs]. specialize (IH M1).
  destruct (run M1 es) as [M2 ys]. eapply ch_pres_trans; [exact H1 | exact IH].
Qed.

End traces.

Lemma Forall_slots (P : OPL_SLOT -> Prop) OPL :
  Forall (both P) (P_CH OPL) <-> Forall P (slots OPL).
Proof.
  unfold slots. rewrite Forall_bind. apply Forall_iff. intros CH. unfold both.
  split.
  - intros [H1 H2]. by repeat constructor.
  - intros H. inversion H as [|? ? H1 H']; subst. by inversion H'; subst.
Qed.

(** Two invariants hold together. *)
Lemma closed_under_decode_and (Q1 Q2 : OPL_CH -> Prop) :
  closed_under_decode Q1 -> closed_under_decode Q2 ->
  closed_under_decode (fun CH => Q1 CH /\ Q2 CH).
Proof.
  intros (A1 & A2 & A3 & A4 & A5 & A6 & A7 & A8 & A9)
         (B1 & B2 & B3 & B4 & B5 & B6 & B7 & B8 & B9).
  unfold closed_under_decode. repeat refine (conj _ _); intros; destruct_and!; split; eauto.
Qed.


(** ** Tables and wrap-around *)

Lemma tab_bounds (t : list Z) (lo hi i : Z) :
  Forall (fun x => lo <= x <= hi) t -> lo <= 0 <= hi -> lo <= tab t i <= hi.
Proof.
  intros Ht H0. unfold tab. destruct (i <? 0); [done|].
  destruct (lt_dec (Z.to_nat i) (length t)) as [Hlt|Hge].
  - by apply Forall_nth.
  - rewrite nth_overflow by lia. done.
Qed.

Lemma eg_inc_bounds : Forall (fun x => 0 <= x <= 8) eg_inc.
Proof. unfold eg_inc. repeat (constructor; [lia|]). constructor. Qed.

Lemma sl_tab_bounds : Forall (fun x => 0 <= x <= 248) sl_tab.
Proof. unfold sl_tab. repeat (constructor; [lia|]). constructor. Qed.

Lemma eg_step_bounds sel cnt sh : 0 <= eg_step sel cnt sh <= 8.
Proof. unfold eg_step. apply tab_bounds; [apply eg_inc_bounds | lia]. Qed.

Lemma s32_small (x : Z) : - 2 ^ 31 <= x < 2 ^ 31 -> s32 x = x.
Proof. intros Hx. unfold s32. case_match; zlia. Qed.

Lemma u32_small (x : Z) : 0 <= x < 2 ^ 32 -> u32 x = x.
Proof. intros Hx. unfold u32. by apply Z.mod_small. Qed.

(** ** The envelope generator keeps the attenuation in range *)

(** Arithmetic that knows the numbers of the envelope phases. *)
Ltac eg_lia :=
  change MAX_ATT_INDEX with 511 in *; change MIN_ATT_INDEX with 0 in *;
  unfold EG_ATT, EG_DEC, EG_SUS, EG_REL, EG_OFF in *; lia.

Lemma attack_step_range (vol inc : Z) :
  0 <= vol <= 511 -> 0 <= inc <= 8 ->
  -1 <= vol + Z.shiftr (Z.lnot vol * inc) 3 <= vol.
Proof.
  intros Hv Hi. rewrite Z.shiftr_div_pow2 by lia. change (2 ^ 3) with 8.
  unfold Z.lnot.
  assert (- (vol + 1) * 8 <= Z.pred (- vol) * inc <= 0) by nia.
  zlia.
Qed.

Lemma env_ok_eg_slot cnt op : env_ok op -> env_ok (eg_slot cnt op).
Proof.
  intros (Hv & Hsl & Hdec). unfold eg_slot, env_ok.
  change MAX_ATT_INDEX with 511. change MIN_ATT_INDEX with 0.
  destruct (state op =? EG_ATT) eqn:Hatt.
  { destruct (eg_hit cnt (eg_sh_ar op)); [|done].
    pose proof (attack_step_range (volume op) _ Hv
                  (eg_step_bounds (eg_sel_ar op) cnt (eg_sh_ar op))) as Ha.
    rewrite s32_small by lia.
    case_goal; rsimpl; repeat split; eg_lia. }
  destruct (state op =? EG_DEC) eqn:Hdc.
  { apply Z.eqb_eq in Hdc. specialize (Hdec Hdc).
    destruct (eg_hit cnt (eg_sh_dr op)); [|done].
    pose proof (eg_step_bounds (eg_sel_dr op) cnt (eg_sh_dr op)) as Hi.
    rewrite s32_small by lia. rewrite u32_small by lia.
    case_goal; rsimpl; repeat split; eg_lia. }
  destruct (state op =? EG_SUS) eqn:Hsus.
  { apply Z.eqb_eq in Hsus.
    destruct (nz (eg_type op)); [done|].
    destruct (eg_hit cnt (eg_sh_rr op)); [|done].
    pose proof (eg_step_bounds (eg_sel_rr op) cnt (eg_sh_rr op)) as Hi.
    rewrite s32_small by lia.
    case_goal; rsimpl; repeat split; eg_lia. }
  destruct (state op =? EG_REL) eqn:Hrel; [|done].
  apply Z.eqb_eq in Hrel.
  destruct (eg_hit cnt (eg_sh_rr op)); [|done].
  pose proof (eg_step_bounds (eg_sel_rr op) cnt (eg_sh_rr op)) as Hi.
  rewrite s32_small by lia.
  case_goal; rsimpl; repeat split; eg_lia.
Qed.

(** [env_ok] reads the envelope phase, the attenuation and the sustain
    level only. *)
Lemma env_ok_ext (a b : OPL_SLOT) :
  state a = state b -> volume a = volume b -> sl a = sl b -> env_ok b -> env_ok a.
Proof. unfold env_ok. intros -> -> ->. done. Qed.

(** Settle [env_ok] for an operator function that leaves the three
    fields alone. *)
Ltac env_frame :=
  let S := fresh "S" in let H := fresh "H" in
  intros S H; apply (env_ok_ext _ S); [..|exact H];
  rsimpl; repeat (case_goal; rsimpl); reflexivity.

Lemma env_ok_CALC_FCSLOT CH S : env_ok S -> env_ok (CALC_FCSLOT CH S).
Proof.
  revert S. unfold CALC_FCSLOT, set_rr_rates, set_dr_rates, set_ar_rates. env_frame.
Qed.

Lemma env_ok_refresh_TLL CH S : env_ok S -> env_ok (refresh_TLL CH S).
Proof. revert S. unfold refresh_TLL. env_frame. Qed.

Lemma env_ok_FM_KEYON k S : env_ok S -> env_ok (FM_KEYON k S).
Proof.
  intros (Hv & Hsl & Hd). unfold FM_KEYON, env_ok. case_goal; rsimpl; [done|].
  repeat split; eg_lia.
Qed.

Lemma env_ok_FM_KEYOFF k S : env_ok S -> env_ok (FM_KEYOFF k S).
Proof.
  intros (Hv & Hsl & Hd). unfold FM_KEYOFF, env_ok.
  repeat (case_goal; rsimpl); try done; repeat split; eg_lia.
Qed.

Lemma env_ok_update : closed_under_update (both env_ok).
Proof.
  unfold closed_under_update. split; [|split; [|split]].
  - intros cnt CH. apply both_each_slot. intros S. apply env_ok_eg_slot.
  - intros OPL g CH. apply both_each_slot. unfold pg_slot. env_frame.
  - intros g CH _ HQ. destruct (OPL_CALC_CH_history g CH) as [b ->].
    revert HQ. apply both_in_SLOT1. env_frame.
  - intros g CH6 CH7 CH8 noise _ HQ.
    destruct (OPL_CALC_RH_history g CH6 CH7 CH8 noise) as [b ->].
    revert HQ. apply both_in_SLOT1. env_frame.
Qed.

Lemma env_ok_decode : closed_under_decode (both env_ok).
Proof.
  unfold closed_under_decode. repeat refine (conj _ _).
  - intros s v CH _. apply both_in_slot. intros S HS. unfold set_mul_slot.
    apply env_ok_CALC_FCSLOT. revert S HS. env_frame.
  - intros s v CH _. apply both_in_slot. intros S HS. unfold set_ksl_tl_slot.
    apply env_ok_refresh_TLL. revert S HS. env_frame.
  - intros s v CH _. apply both_in_slot.
    unfold set_ar_dr_slot, set_dr_rates, set_ar_rates. env_frame.
  - intros s v CH _. apply both_in_slot. intros S (Hv & Hsl & Hd).
    unfold set_sl_rr_slot, set_rr_rates, env_ok. rsimpl.
    pose proof (tab_bounds sl_tab 0 248 (Z.shiftr v 4) sl_tab_bounds ltac:(lia)).
    rewrite Z.shiftl_mul_pow2 by lia. split; [done|]. split; [lia|done].
  - intros s v CH _. apply both_in_slot. unfold set_wavetable_slot. env_frame.
  - intros v CH _. apply both_in_SLOT1. unfold write_fb_con. env_frame.
  - intros OPL bfn CH _ [H1 H2]. unfold update_block_fnum, in_SLOT1, in_SLOT2. rsimpl.
    split; rsimpl; by apply env_ok_CALC_FCSLOT, env_ok_refresh_TLL.
  - intros k CH. apply both_in_SLOT1. intros S. apply env_ok_FM_KEYOFF.
  - intros k CH. apply both_in_SLOT2. intros S. apply env_ok_FM_KEYOFF.
Qed.

Lemma env_ok_keyon : closed_under_keyon (both env_ok).
Proof.
  split; intros k CH; [apply both_in_SLOT1 | apply both_in_SLOT2];
    intros S; apply env_ok_FM_KEYON.
Qed.

Lemma env_ok_reset : closed_under_reset (both env_ok).
Proof.
  intros CH. apply both_each_slot. intros S (Hv & Hsl & Hd).
  unfold reset_slot, env_ok. rsimpl. repeat split; eg_lia.
Qed.

Lemma env_ok_zero_slot : env_ok zero_slot.
Proof. unfold env_ok, zero_slot. rsimpl. repeat split; eg_lia. Qed.

Lemma env_ok_init fp g clock' rate' :
  Forall (both env_ok) (P_CH (fst (ym3812_init fp g clock' rate'))).
Proof.
  unfold ym3812_init, ym3812_reset_chip. cbn [fst].
  eapply ch_pres_Forall;
    [apply OPLResetChip_pres; [apply env_ok_decode | apply env_ok_reset]|].
  unfold OPLCreate, OPL_initalize. rsimpl.
  apply Forall_replicate. split; apply env_ok_zero_slot.
Qed.

(** C1.  For every operator of a created chip, after any sequence of
    calls (register writes, sample generation with its envelope-clock
    advances, resets, timer overflows), the attenuation [volume] is within
    [MIN_ATT_INDEX, MAX_ATT_INDEX] = [0, 511]. *)
Theorem attenuation_in_range (fp : fp_derived) (g : globals) (clock' rate' : Z)
    (es : list event) :
  Forall (fun op => MIN_ATT_INDEX <= volume op <= MAX_ATT_INDEX)
    (slots (fst (fst (run (ym3812_init fp g clock' rate') es)))).
Proof.
  apply Forall_slots.
  eapply Forall_impl with (P := both env_ok).
  - eapply ch_pres_Forall; [|apply env_ok_init].
    apply run_pres;
      [apply env_ok_update | apply env_ok_decode | apply env_ok_keyon | apply env_ok_reset].
  - intros CH [(H1 & _) (H2 & _)]. split; eg_lia.
Qed.


(** ** Silence after reset *)

Lemma ready_slot_ext (a b : OPL_SLOT) :
  op1_out0 a = op1_out0 b -> op1_out1 a = op1_out1 b -> TL a = TL b ->
  ksl a = ksl b -> TLL a = TLL b -> ready_slot b -> ready_slot a.
Proof. unfold ready_slot. intros -> -> -> -> ->. done. Qed.

Lemma at_rest_ext (a b : OPL_SLOT) :
  state a = state b -> volume a = volume b -> at_rest b -> at_rest a.
Proof. unfold at_rest. intros -> ->. done. Qed.

Ltac ready_frame :=
  let S := fresh "S" in let H := fresh "H" in
  intros S H; apply (ready_slot_ext _ S); [..|exact H];
  rsimpl; repeat (case_goal; rsimpl); reflexivity.

Ltac rest_frame :=
  let S := fresh "S" in let H := fresh "H" in
  intros S H; apply (at_rest_ext _ S); [..|exact H];
  rsimpl; repeat (case_goal; rsimpl); reflexivity.

Lemma shiftr_bounds (x k hi : Z) : 0 <= x <= hi -> 0 <= k -> 0 <= Z.shiftr x k <= hi.
Proof.
  intros Hx Hk. rewrite Z.shiftr_div_pow2 by done.
  assert (0 < 2 ^ k) by (apply Z.pow_pos_nonneg; lia).
  split; [apply Z.div_pos; lia|].
  etrans; [apply Z.div_le_upper_bound with (q := x); [done|nia]|lia].
Qed.

Lemma ksl_tab_bounds : Forall (fun x => 0 <= x <= 255) ksl_tab.
Proof. unfold ksl_tab. repeat (constructor; [lia|]). constructor. Qed.

Lemma ready_refresh_TLL CH S :
  0 <= ksl_base CH <= 255 -> ready_slot S -> ready_slot (refresh_TLL CH S).
Proof.
  intros Hb (H0 & H1 & HTL & Hk & HTLL). unfold refresh_TLL, ready_slot. rsimpl.
  pose proof (shiftr_bounds (ksl_base CH) (ksl S) 255 Hb Hk).
  rewrite u32_small by lia. repeat split; lia.
Qed.

Lemma ready_CALC_FCSLOT CH S : ready_slot S -> ready_slot (CALC_FCSLOT CH S).
Proof.
  revert S. unfold CALC_FCSLOT, set_rr_rates, set_dr_rates, set_ar_rates. ready_frame.
Qed.

Lemma rest_CALC_FCSLOT CH S : at_rest S -> at_rest (CALC_FCSLOT CH S).
Proof.
  revert S. unfold CALC_FCSLOT, set_rr_rates, set_dr_rates, set_ar_rates. rest_frame.
Qed.

Lemma ready_FM_KEYOFF k S : ready_slot S -> ready_slot (FM_KEYOFF k S).
Proof. revert S. unfold FM_KEYOFF. ready_frame. Qed.

Lemma rest_FM_KEYOFF k S : at_rest S -> at_rest (FM_KEYOFF k S).
Proof.
  intros [Hs Hv]. unfold FM_KEYOFF, at_rest.
  repeat (case_goal; rsimpl); try done. eg_lia.
Qed.

Lemma ksl_base_in_slot s f CH : ksl_base (in_slot s f CH) = ksl_base CH.
Proof. unfold in_slot. by case_goal. Qed.

Lemma ready_decode : closed_under_decode ready_ch.
Proof.
  unfold closed_under_decode, ready_ch. repeat refine (conj _ _).
  - intros s v CH _ [Hb HQ]. split; [by rewrite ksl_base_in_slot|]. revert HQ.
    apply both_in_slot. intros S HS. unfold set_mul_slot.
    apply ready_CALC_FCSLOT. revert S HS. ready_frame.
  - intros s v CH Hv [Hb HQ]. split; [by rewrite ksl_base_in_slot|]. revert HQ.
    apply both_in_slot. intros S (H0 & H1 & HTL & Hk & HTLL). unfold set_ksl_tl_slot.
    apply ready_refresh_TLL; [done|]. unfold ready_slot. rsimpl.
    pose proof (land_upper v 0x3f ltac:(lia)).
    rewrite Z.shiftl_mul_pow2 by (unfold ENV_BITS; lia).
    change (2 ^ (ENV_BITS - 1 - 7)) with 4.
    assert (0 <= Z.shiftr v 6 <= 3)
      by (rewrite Z.shiftr_div_pow2 by lia; change (2 ^ 6) with 64; zlia).
    repeat split; try lia. case_goal; lia.
  - intros s v CH _ [Hb HQ]. split; [by rewrite ksl_base_in_slot|]. revert HQ.
    apply both_in_slot. unfold set_ar_dr_slot, set_dr_rates, set_ar_rates. ready_frame.
  - intros s v CH _ [Hb HQ]. split; [by rewrite ksl_base_in_slot|]. revert HQ.
    apply both_in_slot. unfold set_sl_rr_slot, set_rr_rates. ready_frame.
  - intros s v CH _ [Hb HQ]. split; [by rewrite ksl_base_in_slot|]. revert HQ.
    apply both_in_slot. unfold set_wavetable_slot. ready_frame.
  - intros v CH _ [Hb HQ]. split; [done|]. revert HQ.
    apply both_in_SLOT1. unfold write_fb_con. ready_frame.
  - intros OPL bfn CH _ [Hb [H1 H2]].
    pose proof (tab_bounds ksl_tab 0 255 (Z.shiftr bfn 6) ksl_tab_bounds ltac:(lia)) as Hk.
    unfold update_block_fnum, in_SLOT1, in_SLOT2, both. rsimpl.
    split; [done|]. split; apply ready_CALC_FCSLOT, ready_refresh_TLL; done.
  - intros k CH [Hb HQ]. split; [done|]. revert HQ.
    apply both_in_SLOT1. intros S. apply ready_FM_KEYOFF.
  - intros k CH [Hb HQ]. split; [done|]. revert HQ.
    apply both_in_SLOT2. intros S. apply ready_FM_KEYOFF.
Qed.

Lemma rest_decode : closed_under_decode (both at_rest).
Proof.
  unfold closed_under_decode. repeat refine (conj _ _).
  - intros s v CH _. apply both_in_slot. intros S HS. unfold set_mul_slot.
    apply rest_CALC_FCSLOT. revert S HS. rest_frame.
  - intros s v CH _. apply both_in_slot. unfold set_ksl_tl_slot, refresh_TLL. rest_frame.
  - intros s v CH _. apply both_in_slot.
    unfold set_ar_dr_slot, set_dr_rates, set_ar_rates. rest_frame.
  - intros s v CH _. apply both_in_slot. unfold set_sl_rr_slot, set_rr_rates. rest_frame.
  - intros s v CH _. apply both_in_slot. unfold set_wavetable_slot. rest_frame.
  - intros v CH _. apply both_in_SLOT1. unfold write_fb_con. rest_frame.
  - intros OPL bfn CH _ [H1 H2]. unfold update_block_fnum, in_SLOT1, in_SLOT2, both. rsimpl.
    split; apply rest_CALC_FCSLOT; revert H1 H2; unfold refresh_TLL, at_rest; rsimpl; tauto.
  - intros k CH. apply both_in_SLOT1. intros S. apply rest_FM_KEYOFF.
  - intros k CH. apply both_in_SLOT2. intros S. apply rest_FM_KEYOFF.
Qed.

Lemma silent_decode : closed_under_decode silent_ch.
Proof. apply closed_under_decode_and; [apply ready_decode | apply rest_decode]. Qed.

(** An operator at rest is above the quiet threshold, whatever the
    tremolo adds. *)
Lemma quiet_env g op :
  0 <= LFO_AM g < 256 -> ready_slot op -> at_rest op ->
  (volume_calc g op <? ENV_QUIET) = false.
Proof.
  intros Ham (_ & _ & _ & _ & HTLL) [Hs Hv]. unfold volume_calc.
  rewrite Hv. change MAX_ATT_INDEX with 511. change (u32 511) with 511.
  rewrite Z.land_comm.
  pose proof (land_upper (AMmask op) (LFO_AM g) ltac:(lia)).
  rewrite u32_small by lia. change ENV_QUIET with 192. lia.
Qed.

Lemma eg_slot_rest cnt op : at_rest op -> eg_slot cnt op = op.
Proof. intros [Hs Hv]. unfold eg_slot. by rewrite Hs. Qed.

Lemma calc_slot1_quiet g S env out :
  (env <? ENV_QUIET) = false -> calc_slot1 g S env out = with_op1_out1 0 S.
Proof. intros He. unfold calc_slot1. by rewrite He. Qed.

Lemma silent_calc_slot1 g S env out :
  (env <? ENV_QUIET) = false -> ready_slot S -> at_rest S ->
  let S' := calc_slot1 g (with_op1_out0 (op1_out1 S) S) env out in
  ready_slot S' /\ at_rest S'.
Proof.
  intros He (H0 & H1 & Hr) Ha. cbv zeta. rewrite calc_slot1_quiet by done.
  unfold ready_slot, at_rest in *. rsimpl. rewrite H1. tauto.
Qed.

Lemma silent_update : closed_under_update silent_ch.
Proof.
  unfold closed_under_update, silent_ch, ready_ch. split; [|split; [|split]].
  - intros cnt CH (Hr & Ha1 & Ha2).
    assert (each_slot (fun _ => eg_slot cnt) CH = CH) as ->; [|done].
    unfold each_slot. ch_eq; by apply eg_slot_rest.
  - intros OPL g CH ((Hb & Hr) & Ha). split; [split; [done|]|].
    + revert Hr. apply both_each_slot. unfold pg_slot. ready_frame.
    + revert Ha. apply both_each_slot. unfold pg_slot. rest_frame.
  - intros g CH Ham ((Hb & Hr1 & Hr2) & Ha1 & Ha2).
    unfold OPL_CALC_CH. rsimpl.
    match goal with |- context [calc_slot1 ?g0 _ ?e ?o] =>
      destruct (silent_calc_slot1 g0 (SLOT1 CH) e o) as [Hx Hy]; [|done|done|] end.
    { by apply quiet_env. }
    unfold both. rsimpl. tauto.
  - intros g CH6 CH7 CH8 noise Ham ((Hb & Hr1 & Hr2) & Ha1 & Ha2).
    unfold OPL_CALC_RH, rh_bass_drum. rsimpl.
    match goal with |- context [calc_slot1 ?g0 _ ?e ?o] =>
      destruct (silent_calc_slot1 g0 (SLOT1 CH6) e o) as [Hx Hy]; [|done|done|] end.
    { by apply quiet_env. }
    unfold both. rsimpl. tauto.
Qed.

Lemma silent_reset : closed_under_reset silent_ch.
Proof.
  intros CH ((Hb & Hr) & Ha). split; [split; [done|]|].
  - revert Hr. apply both_each_slot. unfold reset_slot. ready_frame.
  - split; unfold each_slot, reset_slot, at_rest; rsimpl; done.
Qed.

Lemma ready_reset : closed_under_reset ready_ch.
Proof.
  intros CH (Hb & Hr). split; [done|].
  revert Hr. apply both_each_slot. unfold reset_slot. ready_frame.
Qed.

(** ** A silent chip produces zeros *)

Lemma silent_OPL_CALC_CH g CH :
  0 <= LFO_AM g < 256 -> silent_ch CH -> output0 g = 0 ->
  output0 (fst (OPL_CALC_CH g CH)) = 0.
Proof.
  intros Ham ((Hb & Hr1 & Hr2) & Ha1 & Ha2) Ho. unfold OPL_CALC_CH. rsimpl.
  set (g1 := with_lastChOutput 0 (with_phase_modulation 0 g)).
  set (g2 := connect_add _ _ g1).
  assert (LFO_AM g2 = LFO_AM g /\ output0 g2 = 0) as [Hl2 Ho2].
  { unfold g2, g1, connect_add. destruct Hr1 as (_ & -> & _).
    destruct (connect1 (SLOT1 CH)); rsimpl; by rewrite ?Ho. }
  rewrite (quiet_env g2 (SLOT2 CH)) by (rewrite ?Hl2; done). done.
Qed.

(** The globals that the operator network leaves alone. *)
Lemma LFO_AM_output_add x g : LFO_AM (output_add x g) = LFO_AM g.
Proof. reflexivity. Qed.

Lemma LFO_AM_rh_bass_drum g CH6 : LFO_AM (fst (rh_bass_drum g CH6)) = LFO_AM g.
Proof. unfold rh_bass_drum. rsimpl. repeat (case_goal; rsimpl); reflexivity. Qed.

Lemma LFO_AM_rh_high_hat a b n g : LFO_AM (rh_high_hat a b n g) = LFO_AM g.
Proof. unfold rh_high_hat. by case_goal. Qed.

Lemma LFO_AM_rh_snare_drum a b n g : LFO_AM (rh_snare_drum a b n g) = LFO_AM g.
Proof. unfold rh_snare_drum. by case_goal. Qed.

Lemma LFO_AM_rh_tom_tom a g : LFO_AM (rh_tom_tom a g) = LFO_AM g.
Proof. unfold rh_tom_tom. by case_goal. Qed.

Lemma LFO_AM_rh_top_cymbal a b g : LFO_AM (rh_top_cymbal a b g) = LFO_AM g.
Proof. unfold rh_top_cymbal. by case_goal. Qed.

Lemma LFO_AM_OPL_CALC_RH g CH6 CH7 CH8 noise :
  LFO_AM (fst (OPL_CALC_RH g CH6 CH7 CH8 noise)) = LFO_AM g.
Proof.
  unfold OPL_CALC_RH. cbn [fst].
  by rewrite LFO_AM_rh_top_cymbal, LFO_AM_rh_tom_tom, LFO_AM_rh_snare_drum,
    LFO_AM_rh_high_hat, LFO_AM_rh_bass_drum.
Qed.

Lemma silent_rh_bass_drum g CH6 :
  0 <= LFO_AM g < 256 -> silent_ch CH6 -> output0 g = 0 ->
  output0 (fst (rh_bass_drum g CH6)) = 0.
Proof.
  intros Ham ((_ & Hr61 & Hr62) & Ha61 & Ha62) Ho. unfold rh_bass_drum. rsimpl.
  set (g1 := with_lastChOutput 0 (with_phase_modulation 0 g)).
  set (g2 := if nz (CON (SLOT1 CH6)) then g1 else _).
  assert (LFO_AM g2 = LFO_AM g /\ output0 g2 = 0) as [Hl2 Ho2]
    by (unfold g2, g1; by destruct (nz _)).
  clearbody g2. rewrite (quiet_env g2 (SLOT2 CH6)) by (rewrite ?Hl2; done). done.
Qed.

Lemma silent_OPL_CALC_RH g CH6 CH7 CH8 noise :
  0 <= LFO_AM g < 256 -> silent_ch CH6 -> silent_ch CH7 -> silent_ch CH8 ->
  output0 g = 0 -> output0 (fst (OPL_CALC_RH g CH6 CH7 CH8 noise)) = 0.
Proof.
  intros Ham H6 ((_ & Hr71 & Hr72) & Ha71 & Ha72)
    ((_ & Hr81 & Hr82) & Ha81 & Ha82) Ho.
  unfold OPL_CALC_RH. cbn [fst].
  pose proof (silent_rh_bass_drum g CH6 Ham H6 Ho) as Hbd.
  pose proof (LFO_AM_rh_bass_drum g CH6) as Hl.
  set (g3 := fst (rh_bass_drum g CH6)) in *. clearbody g3.
  assert (0 <= LFO_AM g3 < 256) as Ham3 by (by rewrite Hl).
  unfold rh_top_cymbal, rh_tom_tom, rh_snare_drum, rh_high_hat.
  rewrite (quiet_env g3 (SLOT1 CH7)) by done.
  rewrite (quiet_env g3 (SLOT2 CH7)) by done.
  rewrite (quiet_env g3 (SLOT1 CH8)) by done.
  rewrite (quiet_env g3 (SLOT2 CH8)) by done. done.
Qed.

Lemma output0_calc_ch_none c M : P_CH (fst M) !! c = None -> calc_ch c M = M.
Proof. intros H. unfold calc_ch. by rewrite H. Qed.

Lemma silent_calc_ch c M : silent_mix M -> silent_mix (calc_ch c M).
Proof.
  intros (Hs & Ho & Ham). split; [|split].
  - eapply ch_pres_Forall; [|exact Hs]. apply calc_ch_pres; [apply silent_update|done].
  - unfold calc_ch. destruct (P_CH (fst M) !! c) as [CH|] eqn:Hc; [|done].
    pose proof (silent_OPL_CALC_CH (snd M) CH Ham (Forall_lookup_1 _ _ _ _ Hs Hc) Ho).
    destruct (OPL_CALC_CH (snd M) CH) as [g' CH']. done.
  - by rewrite LFO_AM_calc_ch.
Qed.

Lemma LFO_AM_calc_rh M : LFO_AM (snd (calc_rh M)) = LFO_AM (snd M).
Proof.
  unfold calc_rh. repeat (case_match; try done).
  match goal with H : OPL_CALC_RH _ _ _ _ _ = _ |- _ => rename H into Hrh end.
  apply (f_equal fst) in Hrh. cbn [fst] in Hrh. subst. rsimpl.
  apply LFO_AM_OPL_CALC_RH.
Qed.

Lemma silent_calc_rh M : silent_mix M -> silent_mix (calc_rh M).
Proof.
  intros (Hs & Ho & Ham). split; [|split].
  - eapply ch_pres_Forall; [|exact Hs]. apply calc_rh_pres; [apply silent_update|done].
  - unfold calc_rh.
    destruct (P_CH (fst M) !! 6%nat) as [CH6|] eqn:H6; [|done].
    destruct (P_CH (fst M) !! 7%nat) as [CH7|] eqn:H7; [|done].
    destruct (P_CH (fst M) !! 8%nat) as [CH8|] eqn:H8; [|done].
    pose proof (silent_OPL_CALC_RH (snd M) CH6 CH7 CH8
      (Z.land (Z.shiftr (noise_rng (fst M)) 0) 1) Ham
      (Forall_lookup_1 _ _ _ _ Hs H6) (Forall_lookup_1 _ _ _ _ Hs H7)
      (Forall_lookup_1 _ _ _ _ Hs H8) Ho).
    destruct (OPL_CALC_RH _ _ _ _ _) as [g' CH']. done.
  - by rewrite LFO_AM_calc_rh.
Qed.

Lemma silent_mix_mix rh M :
  Forall silent_ch (P_CH (fst M)) -> silent_mix (mix rh M).
Proof.
  intros Hs. unfold mix.
  pose proof (LFO_AM_advance_lfo (fst M) (with_output0 0 (snd M))) as Ham.
  destruct (advance_lfo (fst M) (with_output0 0 (snd M))) as [OPL1 g1] eqn:Hl.
  assert (silent_mix (OPL1, g1)) as H0.
  { unfold advance_lfo in Hl. injection Hl as <- <-.
    split; [exact Hs|]. split; [reflexivity | exact Ham]. }
  clear Hl Ham. destruct (nz rh);
    [apply silent_calc_rh|do 3 apply silent_calc_ch]; by do 6 apply silent_calc_ch.
Qed.

Lemma silent_sample_step rh M :
  Forall silent_ch (P_CH (fst M)) ->
  Forall silent_ch (P_CH (fst (fst (sample_step rh M)))) /\ snd (sample_step rh M) = 0.
Proof.
  intros Hs. split.
  - eapply ch_pres_Forall; [|exact Hs]. apply sample_step_pres, silent_update.
  - unfold sample_step. cbn [snd].
    destruct (silent_mix_mix rh M Hs) as (_ & -> & _). reflexivity.
Qed.

Lemma silent_update_loop rh n M :
  Forall silent_ch (P_CH (fst M)) ->
  Forall silent_ch (P_CH (fst (fst (update_loop rh n M)))) /\
  Forall (fun x => x = 0) (snd (update_loop rh n M)).
Proof.
  revert M. induction n as [|n IH]; intros M Hs; cbn [update_loop]; [by split|].
  destruct (silent_sample_step rh M Hs) as [H1 H2].
  destruct (sample_step rh M) as [M1 x]. cbn [fst snd] in H1, H2.
  destruct (IH M1 H1) as [H3 H4].
  destruct (update_loop rh n M1) as [M2 xs]. cbn [fst snd] in *.
  split; [done|]. by constructor.
Qed.

Lemma silent_run_event M e :
  quiet_event e -> Forall silent_ch (P_CH (fst M)) ->
  Forall silent_ch (P_CH (fst (fst (run_event M e)))) /\
  Forall (fun x => x = 0) (snd (run_event M e)).
Proof.
  intros He Hs. destruct e as [r v|n| |c]; cbn [quiet_event] in He.
  - split; [|by constructor]. rewrite run_event_EvWrite. cbn [fst].
    eapply ch_pres_Forall; [|exact Hs].
    apply (OPLWriteReg_pres _ silent_decode (with_address (Z.land r 0xff) (fst M))).
    left. by rewrite keyon_write_mask.
  - by apply silent_update_loop.
  - split; [|by constructor]. cbn [run_event fst].
    eapply ch_pres_Forall; [|exact Hs].
    apply OPLResetChip_pres; [apply silent_decode | apply silent_reset].
  - done.
Qed.

Lemma silent_run es M :
  Forall quiet_event es -> Forall silent_ch (P_CH (fst M)) ->
  Forall (fun x => x = 0) (snd (run M es)).
Proof.
  revert M. induction es as [|e es IH]; intros M Hq Hs; cbn [run]; [by constructor|].
  inversion Hq as [|? ? He Hq']; subst.
  destruct (silent_run_event M e He Hs) as [H1 H2].
  destruct (run_event M e) as [M1 xs]. cbn [fst snd] in H1, H2.
  specialize (IH M1 Hq' H1). destruct (run M1 es) as [M2 ys]. cbn [snd] in *.
  by apply Forall_app.
Qed.

(** ** Reset *)

Lemma for_slots_9 f (l : list OPL_CH) :
  (length l <= 9)%nat -> for_slots f l = each_slot f <$> l.
Proof.
  intros Hl. unfold for_slots. rewrite take_ge, drop_ge by lia. apply app_nil_r.
Qed.

Lemma closed_under_decode_True : closed_under_decode (fun _ => True).
Proof. unfold closed_under_decode. repeat refine (conj _ _); done. Qed.

Lemma length_OPLWriteReg_0 OPL r :
  length (P_CH (OPLWriteReg OPL r 0)) = length (P_CH OPL).
Proof.
  apply (OPLWriteReg_pres (fun _ => True) closed_under_decode_True).
  left. apply keyon_write_0.
Qed.

Lemma OPLResetChip_P_CH OPL :
  exists l, length l = length (P_CH OPL) /\
            P_CH (OPLResetChip OPL) = for_slots (fun _ => reset_slot) l.
Proof.
  unfold OPLResetChip. rsimpl. eexists. split; [|reflexivity].
  rewrite (proj1 (write_zero_down_pres (fun _ => True) closed_under_decode_True _ _ _)).
  rewrite !length_OPLWriteReg_0.
  unfold OPL_STATUS_RESET. by case_goal.
Qed.

Lemma reset_at_rest OPL :
  (length (P_CH OPL) <= 9)%nat -> Forall (both at_rest) (P_CH (OPLResetChip OPL)).
Proof.
  intros Hl. destruct (OPLResetChip_P_CH OPL) as (l & Hlen & ->).
  rewrite for_slots_9 by lia. apply Forall_fmap, Forall_true.
  intros CH. split; unfold each_slot, reset_slot, at_rest; rsimpl; done.
Qed.

Lemma reset_silent OPL :
  (length (P_CH OPL) <= 9)%nat -> Forall ready_ch (P_CH OPL) ->
  Forall silent_ch (P_CH (OPLResetChip OPL)).
Proof.
  intros Hl Hr.
  assert (Forall ready_ch (P_CH (OPLResetChip OPL))) as H1.
  { eapply ch_pres_Forall; [|exact Hr].
    apply OPLResetChip_pres; [apply ready_decode | apply ready_reset]. }
  pose proof (reset_at_rest OPL Hl) as H2.
  apply Forall_lookup. intros i CH Hi. split; by eapply Forall_lookup_1.
Qed.

(** C3 (as the code has it).  After reset every operator of the chip is
    in the [EG_OFF] state with attenuation 511.  If moreover the output
    history of the chip was empty when it was reset (as it is in a newly
    created chip), then all samples generated afterwards are zero, for as
    long as no register write switches a key on. *)
Theorem reset_then_silence (OPL : FM_OPL) (g : globals) :
  length (P_CH OPL) = 9%nat ->
  Forall at_rest (slots (OPLResetChip OPL)) /\
  (Forall ready_ch (P_CH OPL) ->
   forall es : list event, Forall quiet_event es ->
     Forall (fun x => x = 0) (snd (run (ym3812_reset_chip OPL, g) es))).
Proof.
  intros Hlen. split.
  - apply Forall_slots, reset_at_rest. lia.
  - intros Hr es Hq. apply silent_run; [done|]. cbn [fst].
    apply reset_silent; [lia | done].
Qed.

Lemma reset_then_silence_witness :
  Forall at_rest (slots (OPLResetChip zero_chip)) /\
  Forall (fun x => x = 0)
    (snd (run (ym3812_reset_chip zero_chip, zero_globals)
            [EvWrite 0x20 0x01; EvWrite 0xb0 0x01; EvUpdate 3])).
Proof.
  destruct (reset_then_silence zero_chip zero_globals eq_refl) as [H1 H2].
  split; [exact H1|]. apply H2.
  - apply Forall_replicate. unfold ready_ch, both, ready_slot. cbn. lia.
  - repeat constructor.
Defined.

(** C3, the claim as it stands: a chip reset while operator 1 of channel
    0 holds a sample in its output history emits that sample. *)
Lemma reset_silence_counterexample :
  length (P_CH ringing_chip) = 9%nat /\
  Forall quiet_event [EvUpdate 1] /\
  snd (run (ym3812_reset_chip ringing_chip, zero_globals) [EvUpdate 1]) = [1].
Proof. split; [reflexivity|]. split; [repeat constructor|]. vm_compute. reflexivity. Qed.


(** ** Sustain and the EG-type bit *)

Lemma slot_of_in_slot s f CH : slot_of s (in_slot s f CH) = f CH (slot_of s CH).
Proof. unfold slot_of, in_slot. by case_goal. Qed.

Lemma slot_of_each_slot s f CH : slot_of s (each_slot f CH) = f CH (slot_of s CH).
Proof. unfold slot_of, each_slot. by case_goal. Qed.

Lemma get_slot_lsat (P : OPL_SLOT -> Prop) OPL s :
  lsat (fun CH => P (slot_of s CH)) (Z.to_nat (s / 2)) (P_CH OPL)
  <-> exists op, get_slot OPL s = Some op /\ P op.
Proof.
  unfold lsat, get_slot. split.
  - intros (CH & -> & HP). eauto.
  - intros (op & Hop & HP). destruct (P_CH OPL !! _) as [CH|]; [|done].
    injection Hop as <-. eauto.
Qed.

Lemma get_slot_on_slot OPL s f op :
  get_slot OPL s = Some op ->
  exists CH, P_CH OPL !! Z.to_nat (s / 2) = Some CH /\ slot_of s CH = op /\
             get_slot (on_slot s f OPL) s = Some (f CH op).
Proof.
  unfold get_slot, on_slot. rsimpl. intros Hop.
  destruct (P_CH OPL !! _) as [CH|] eqn:HCH; [|done]. injection Hop as <-.
  exists CH. split; [done|]. split; [done|].
  by rewrite list_lookup_alter_eq, HCH, <- slot_of_in_slot.
Qed.

Lemma sustaining_ext e v0 (a b : OPL_SLOT) :
  state a = state b -> eg_type a = eg_type b -> volume a = volume b ->
  sustaining e v0 b -> sustaining e v0 a.
Proof. unfold sustaining. intros -> -> ->. done. Qed.

Ltac sus_frame :=
  let S := fresh "S" in let H := fresh "H" in
  intros S H; apply (sustaining_ext _ _ _ S); [..|exact H];
  rsimpl; repeat (case_goal; rsimpl); reflexivity.

(** The envelope step of a sustaining operator: it stays in [EG_SUS];
    the non-percussive mode holds the attenuation. *)
Lemma sustaining_eg_slot e v0 cnt op :
  sustaining e v0 op -> sustaining e v0 (eg_slot cnt op).
Proof.
  intros (Hs & He & Hv). unfold eg_slot. rewrite Hs.
  change (EG_SUS =? EG_ATT) with false. change (EG_SUS =? EG_DEC) with false.
  change (EG_SUS =? EG_SUS) with true. cbv iota.
  destruct (nz (eg_type op)) eqn:Hnz; [done|].
  apply nz_false in Hnz.
  assert (e <> 0 -> False) as He0 by congruence.
  repeat case_goal; unfold sustaining; rsimpl; tauto.
Qed.

Lemma sustaining_update s e v0 :
  closed_under_update (fun CH => sustaining e v0 (slot_of s CH)).
Proof.
  unfold closed_under_update. split; [|split; [|split]].
  - intros cnt CH. rewrite slot_of_each_slot. apply sustaining_eg_slot.
  - intros OPL g CH. rewrite slot_of_each_slot. revert CH.
    intros CH. generalize (slot_of s CH). unfold pg_slot. sus_frame.
  - intros g CH _. destruct (OPL_CALC_CH_history g CH) as [b ->].
    unfold slot_of, in_SLOT1. case_goal; rsimpl; [|done].
    generalize (SLOT1 CH). sus_frame.
  - intros g CH6 CH7 CH8 noise _.
    destruct (OPL_CALC_RH_history g CH6 CH7 CH8 noise) as [b ->].
    unfold slot_of, in_SLOT1. case_goal; rsimpl; [|done].
    generalize (SLOT1 CH6). sus_frame.
Qed.

Lemma set_mul_slot_sustaining v CH op :
  state op = EG_SUS ->
  sustaining (Z.land v 0x20) (volume op) (set_mul_slot v CH op) /\
  volume (set_mul_slot v CH op) = volume op.
Proof.
  intros Hs. unfold sustaining, set_mul_slot, CALC_FCSLOT, set_rr_rates, set_dr_rates,
    set_ar_rates. rsimpl. repeat (case_goal; rsimpl); done.
Qed.

(** C8.  A write to the register of an operator in the block 0x20-0x3F
    (which holds the EG-type bit) leaves an operator that is in [EG_SUS]
    in [EG_SUS], with its attenuation, and so does any number of samples
    generated afterwards: with the EG-type bit set (non-percussive) the
    attenuation is held; with the bit clear (percussive) each envelope
    step adds the release-rate increment, limited to [MAX_ATT_INDEX]. *)
Theorem eg_type_toggle_keeps_sustain (M : machine) (r v slot : Z) (op : OPL_SLOT) (n : Z) :
  Z.land r 0xe0 = 0x20 -> tab slot_array (Z.land r 0x1f) = slot -> 0 <= slot ->
  get_slot (fst M) slot = Some op -> state op = EG_SUS ->
  (exists op1,
      get_slot (OPLWriteReg (fst M) r v) slot = Some op1 /\
      state op1 = EG_SUS /\ eg_type op1 = Z.land v 0x20 /\ volume op1 = volume op) /\
  (exists op2,
      get_slot (fst (fst (ym3812_update_one (OPLWriteReg (fst M) r v, snd M) n))) slot
      = Some op2 /\
      state op2 = EG_SUS /\ eg_type op2 = Z.land v 0x20 /\
      (Z.land v 0x20 <> 0 -> volume op2 = volume op)) /\
  (forall cnt op', state op' = EG_SUS -> eg_type op' = 0 ->
      eg_slot cnt op' =
      if eg_hit cnt (eg_sh_rr op')
      then with_volume
             (Z.min MAX_ATT_INDEX
                (s32 (volume op' + eg_step (eg_sel_rr op') cnt (eg_sh_rr op')))) op'
      else op').
Proof.
  intros Hr Hslot H0 Hop Hs.
  assert (OPLWriteReg (fst M) r v = set_mul (fst M) slot (Z.land v 0xff)) as Hw.
  { unfold OPLWriteReg. rewrite !land_land_const.
    change (Z.land 0xff 0xe0) with 0xe0. change (Z.land 0xff 0x1f) with 0x1f.
    rewrite Hr, Hslot. change (0x20 =? 0) with false. change (0x20 =? 0x20) with true.
    cbv iota. assert ((slot <? 0) = false) as -> by lia. done. }
  rewrite Hw. unfold set_mul.
  destruct (get_slot_on_slot (fst M) slot (set_mul_slot (Z.land v 0xff)) op Hop)
    as (CH & HCH & Hso & Hget).
  destruct (set_mul_slot_sustaining (Z.land v 0xff) CH op Hs) as [Hsus Hvol].
  rewrite land_land_const in Hsus. change (Z.land 0xff 0x20) with 0x20 in Hsus.
  split; [|split].
  - eexists. split; [exact Hget|]. destruct Hsus as (? & ? & ?). done.
  - set (OPL1 := on_slot slot (set_mul_slot (Z.land v 0xff)) (fst M)) in *.
    pose proof (ym3812_update_one_pres _
      (sustaining_update slot (Z.land v 0x20) (volume op)) (OPL1, snd M) n) as [_ Hp].
    specialize (Hp (Z.to_nat (slot / 2))). rewrite !get_slot_lsat in Hp.
    destruct Hp as (op2 & Hop2 & Hs2 & He2 & Hv2); [cbn [fst]; eauto|].
    exists op2. done.
  - intros cnt op' Hs' He'. unfold eg_slot. rewrite Hs', He'.
    change (EG_SUS =? EG_ATT) with false. change (EG_SUS =? EG_DEC) with false.
    change (EG_SUS =? EG_SUS) with true. change (nz 0) with false. cbv iota.
    destruct (eg_hit cnt (eg_sh_rr op')); [|done].
    case_goal; f_equal; lia.
Qed.

Lemma eg_type_toggle_keeps_sustain_witness :
  get_slot sustain_chip 0 = Some sustain_op /\ state sustain_op = EG_SUS /\
  (exists op1,
      get_slot (OPLWriteReg sustain_chip 0x20 0x21) 0 = Some op1 /\
      state op1 = EG_SUS /\ eg_type op1 = 0x20 /\ volume op1 = 100) /\
  (exists op2,
      get_slot (fst (fst (ym3812_update_one
                            (OPLWriteReg sustain_chip 0x20 0x01, zero_globals) 3))) 0
      = Some op2 /\
      state op2 = EG_SUS /\ eg_type op2 = 0).
Proof.
  split; [reflexivity|]. split; [reflexivity|]. split.
  - destruct (eg_type_toggle_keeps_sustain (sustain_chip, zero_globals) 0x20 0x21 0
                sustain_op 3 eq_refl eq_refl ltac:(lia) eq_refl eq_refl)
      as [(op1 & H1 & H2 & H3 & H4) _].
    exists op1. auto.
  - destruct (eg_type_toggle_keeps_sustain (sustain_chip, zero_globals) 0x20 0x01 0
                sustain_op 3 eq_refl eq_refl ltac:(lia) eq_refl eq_refl)
      as (_ & (op2 & H1 & H2 & H3 & _) & _).
    exists op2. auto.
Defined.


(** ** The rhythm flag during sample generation *)

Lemma rhythm_calc_ch c M : rhythm (fst (calc_ch c M)) = rhythm (fst M).
Proof. unfold calc_ch. repeat case_match; reflexivity. Qed.

Lemma rhythm_calc_rh M : rhythm (fst (calc_rh M)) = rhythm (fst M).
Proof. unfold calc_rh. repeat case_match; reflexivity. Qed.

Lemma rhythm_mix rh M : rhythm (fst (mix rh M)) = rhythm (fst M).
Proof.
  unfold mix. destruct (advance_lfo _ _) as [OPL1 g1] eqn:Hl.
  assert (rhythm OPL1 = rhythm (fst M)) as <-
    by (unfold advance_lfo in Hl; by injection Hl as <- _).
  case_match; rewrite ?rhythm_calc_rh, ?rhythm_calc_ch; reflexivity.
Qed.

Lemma rhythm_eg_while n OPL : rhythm (eg_while n OPL) = rhythm OPL.
Proof.
  revert OPL. induction n as [|n IH]; intros OPL; [done|].
  cbn [eg_while]. case_match; [|done]. by rewrite IH.
Qed.

Lemma rhythm_advance g OPL : rhythm (advance g OPL) = rhythm OPL.
Proof. unfold advance. rsimpl. by rewrite rhythm_eg_while. Qed.

Lemma rhythm_sample_step rh M : rhythm (fst (fst (sample_step rh M))) = rhythm (fst M).
Proof. unfold sample_step. rsimpl. by rewrite rhythm_advance, rhythm_mix. Qed.

Lemma calc_ch_melodic c M : calc_ch c M = melodic_channel c M.
Proof.
  unfold calc_ch, melodic_channel. destruct (P_CH (fst M) !! c) as [CH|]; [|done].
  by destruct (OPL_CALC_CH (snd M) CH) as [g' CH'].
Qed.

Lemma calc_rh_mixer M : calc_rh M = rhythm_mixer M.
Proof.
  unfold calc_rh, rhythm_mixer. rewrite Z.shiftr_0_r.
  destruct (P_CH (fst M) !! 6%nat) as [CH6|]; [|done].
  destruct (P_CH (fst M) !! 7%nat) as [CH7|]; [|done].
  destruct (P_CH (fst M) !! 8%nat) as [CH8|]; [|done].
  by destruct (OPL_CALC_RH _ _ _ _ _) as [g' CH6'].
Qed.

Lemma fm_part_melodic X :
  calc_ch 5 (calc_ch 4 (calc_ch 3 (calc_ch 2 (calc_ch 1 (calc_ch 0 X)))))
  = melodic_channel 5 (melodic_channel 4 (melodic_channel 3
      (melodic_channel 2 (melodic_channel 1 (melodic_channel 0 X))))).
Proof.
  etransitivity; [apply calc_ch_melodic|]. apply (f_equal (melodic_channel 5)).
  etransitivity; [apply calc_ch_melodic|]. apply (f_equal (melodic_channel 4)).
  etransitivity; [apply calc_ch_melodic|]. apply (f_equal (melodic_channel 3)).
  etransitivity; [apply calc_ch_melodic|]. apply (f_equal (melodic_channel 2)).
  etransitivity; [apply calc_ch_melodic|]. apply (f_equal (melodic_channel 1)).
  apply calc_ch_melodic.
Qed.

Lemma melodic_0_5_eq M :
  melodic_0_5 M = melodic_channel 5 (melodic_channel 4 (melodic_channel 3
    (melodic_channel 2 (melodic_channel 1 (melodic_channel 0
       (advance_lfo (fst M) (with_output0 0 (snd M)))))))).
Proof. reflexivity. Qed.

Lemma mix_unfold rh M :
  mix rh M = let M6 := calc_ch 5 (calc_ch 4 (calc_ch 3 (calc_ch 2 (calc_ch 1
             (calc_ch 0 (advance_lfo (fst M) (with_output0 0 (snd M)))))))) in
           if nz rh then calc_rh M6 else calc_ch 8 (calc_ch 7 (calc_ch 6 M6)).
Proof. unfold mix. by destruct (advance_lfo _ _) as [OPL1 g1]. Qed.

Lemma rows_6_8 X : calc_ch 8 (calc_ch 7 (calc_ch 6 X)) = melodic_6_8 X.
Proof.
  unfold melodic_6_8.
  etransitivity; [apply calc_ch_melodic|]. apply (f_equal (melodic_channel 8)).
  etransitivity; [apply calc_ch_melodic|]. apply (f_equal (melodic_channel 7)).
  apply calc_ch_melodic.
Qed.

Lemma dispatch_any (b : bool) X Y :
  X = Y ->
  (if b then calc_rh X else calc_ch 8 (calc_ch 7 (calc_ch 6 X)))
  = if b then rhythm_mixer Y else melodic_6_8 Y.
Proof. intros ->. destruct b; [apply calc_rh_mixer|apply rows_6_8]. Qed.

Lemma mix_dispatch rh M :
  mix rh M = if nz rh then rhythm_mixer (melodic_0_5 M) else melodic_6_8 (melodic_0_5 M).
Proof.
  etransitivity; [apply mix_unfold|].
  apply dispatch_any.
  etransitivity; [apply fm_part_melodic|].
  symmetry; apply melodic_0_5_eq.
Qed.

Lemma rhythm_melodic_0_5 M : rhythm (fst (melodic_0_5 M)) = rhythm (fst M).
Proof.
  etransitivity; [apply (f_equal (fun X => rhythm (fst X))), melodic_0_5_eq|].
  etransitivity;
    [apply (f_equal (fun X => rhythm (fst X))); symmetry; apply fm_part_melodic|].
  cbv beta. rewrite !rhythm_calc_ch. unfold advance_lfo. reflexivity.
Qed.

Lemma flag_byte r : u8 (Z.land r 0x20) = Z.land r 0x20.
Proof.
  pose proof (land_upper r 0x20 ltac:(lia)).
  unfold u8. apply Z.mod_small. lia.
Qed.

Lemma sample_step_emit rh M : sample_step rh M = emit (mix rh M).
Proof. reflexivity. Qed.

Lemma sample_step_live M :
  sample_step (u8 (Z.land (rhythm (fst M)) 0x20)) M = sample_live M.
Proof.
  rewrite sample_step_emit, mix_dispatch, flag_byte.
  unfold sample_live. by rewrite rhythm_melodic_0_5.
Qed.

Lemma update_loop_live n M :
  update_loop (u8 (Z.land (rhythm (fst M)) 0x20)) n M = update_live n M.
Proof.
  revert M. induction n as [|n IH]; intros M; [done|].
  cbn [update_loop update_live].
  pose proof (rhythm_sample_step (u8 (Z.land (rhythm (fst M)) 0x20)) M) as Hr.
  rewrite <- (sample_step_live M).
  destruct (sample_step _ M) as [M1 x]. cbn [fst] in Hr.
  rewrite <- Hr, IH. done.
Qed.

Lemma update_live_app (m n : nat) (M : machine) :
  update_live (m + n) M
  = let '(M1, xs) := update_live m M in
    let '(M2, ys) := update_live n M1 in
    (M2, xs ++ ys).
Proof.
  revert M. induction m as [|m IH]; intros M; cbn [update_live Nat.add].
  - by destruct (update_live n M).
  - destruct (sample_live M) as [M1 x]. rewrite IH.
    destruct (update_live m M1) as [M2 xs]. by destruct (update_live n M2).
Qed.

Lemma update_live_last (i : nat) (M : machine) :
  fst (update_live (S i) M) = fst (sample_live (fst (update_live i M))).
Proof.
  revert M. induction i as [|i IH]; intros M.
  - cbn [update_live fst]. by destruct (sample_live M).
  - specialize (IH (fst (sample_live M))). cbn [update_live] in *.
    destruct (sample_live M) as [M1 x]. cbn [fst] in IH.
    destruct (sample_live M1) as [M2 y].
    destruct (update_live i M2) as [M3 xs]. cbn [fst] in *.
    destruct (update_live i M1) as [M4 ys]. cbn [fst] in *. exact IH.
Qed.

Lemma update_live_nth (n i : nat) (M : machine) :
  (i < n)%nat ->
  snd (update_live n M) !! i = Some (snd (sample_live (fst (update_live i M)))).
Proof.
  revert M i. induction n as [|n IH]; intros M i Hi; [lia|].
  cbn [update_live]. destruct i as [|i].
  - cbn [update_live fst]. destruct (sample_live M) as [M1 x].
    by destruct (update_live n M1).
  - specialize (IH (fst (sample_live M)) i ltac:(lia)). cbn [update_live].
    destruct (sample_live M) as [M1 x]. cbn [fst] in IH.
    destruct (update_live n M1) as [M2 xs]. cbn [snd] in *.
    destruct (update_live i M1) as [M3 ys]. cbn [fst] in *. exact IH.
Qed.

Lemma rhythm_write_bd OPL v : rhythm (OPLWriteReg OPL 0xbd v) = Z.land v 0x3f.
Proof.
  unfold OPLWriteReg. change (Z.land 0xbd 0xff) with 0xbd.
  change (Z.land 0xbd 0xe0 =? 0) with false. change (Z.land 0xbd 0xe0 =? 0x20) with false.
  change (Z.land 0xbd 0xe0 =? 0x40) with false. change (Z.land 0xbd 0xe0 =? 0x60) with false.
  change (Z.land 0xbd 0xe0 =? 0x80) with false. change (Z.land 0xbd 0xe0 =? 0xa0) with true.
  change (0xbd =? 0xbd) with true. cbv iota.
  unfold write_rhythm. rsimpl. case_goal; rsimpl;
    rewrite land_land_const; reflexivity.
Qed.

Lemma update_one_first M :
  ym3812_update_one M 1 = let '(M', x) := sample_live M in (M', [x]).
Proof.
  unfold ym3812_update_one. rewrite update_loop_live.
  change (Z.to_nat 1) with 1%nat. cbn [update_live]. by destruct (sample_live M).
Qed.

(** C5.  In sample generation, whether channels 6-8 are synthesized as
    three melodic channels ([OPL_CALC_CH] on channels 6, 7 and 8) or by
    the five-voice rhythm mixer ([OPL_CALC_RH]) is decided for every
    sample by the rhythm flag that the chip holds at that sample.
    [ym3812_update_one] reads the flag once, before its loop, and yet
    - produces the chip and the samples of the loop that takes the
      switch from the live flag for every sample;
    - for every sample index [i] below the length, sample [i] and the
      chip after it are those of [sample_live] on the chip before it;
    - on a chip whose flag is set generates its next sample with the
      rhythm mixer, and on a chip whose flag is clear with the three
      melodic channels;
    - after a write to register 0xBD finds bit 5 of the written value
      as the flag;
    - on [rhythm_probe] generates the sample 0 after the write of 0x20
      to register 0xBD and the sample 5 after the write of 0x00. *)
Theorem rhythm_switch_is_live :
  (forall (M : machine) (n : Z), ym3812_update_one M n = update_live (Z.to_nat n) M) /\
  (forall (M : machine) (n i : Z),
      0 <= i < n ->
      let Mi := fst (ym3812_update_one M i) in
      snd (ym3812_update_one M n) !! Z.to_nat i = Some (snd (sample_live Mi)) /\
      fst (ym3812_update_one M (i + 1)) = fst (sample_live Mi)) /\
  (forall M : machine,
      Z.land (rhythm (fst M)) 0x20 <> 0 ->
      ym3812_update_one M 1
      = let '(M', x) := emit (rhythm_mixer (melodic_0_5 M)) in (M', [x])) /\
  (forall M : machine,
      Z.land (rhythm (fst M)) 0x20 = 0 ->
      ym3812_update_one M 1
      = let '(M', x) := emit (melodic_6_8 (melodic_0_5 M)) in (M', [x])) /\
  (forall (OPL : FM_OPL) (v : Z),
      Z.land (rhythm (OPLWriteReg OPL 0xbd v)) 0x20 = Z.land v 0x20) /\
  snd (ym3812_update_one (OPLWriteReg (fst rhythm_probe) 0xbd 0x20, snd rhythm_probe) 1)
  = [0] /\
  snd (ym3812_update_one (OPLWriteReg (fst rhythm_probe) 0xbd 0x00, snd rhythm_probe) 1)
  = [5].
Proof.
  assert (forall (M : machine) (n : Z),
             ym3812_update_one M n = update_live (Z.to_nat n) M) as Hlive
    by (intros M n; unfold ym3812_update_one; apply update_loop_live).
  split; [exact Hlive|]. split; [|split; [|split; [|split; [|split]]]].
  - intros M n i Hi Mi. subst Mi. rewrite !Hlive.
    replace (Z.to_nat (i + 1)) with (S (Z.to_nat i)) by lia.
    split; [apply update_live_nth; lia | apply update_live_last].
  - intros M Hf. rewrite update_one_first. unfold sample_live.
    rewrite rhythm_melodic_0_5. apply nz_true in Hf. by rewrite Hf.
  - intros M Hf. rewrite update_one_first. unfold sample_live.
    rewrite rhythm_melodic_0_5, Hf. reflexivity.
  - intros OPL v. rewrite rhythm_write_bd, land_land_const. reflexivity.
  - vm_compute. reflexivity.
  - vm_compute. reflexivity.
Qed.

(** ** The quiet threshold *)

Lemma volume_calc_LFO_AM g g' S : LFO_AM g' = LFO_AM g -> volume_calc g' S = volume_calc g S.
Proof. intros H. unfold volume_calc. by rewrite H. Qed.

Lemma output0_connect_add c x g p l :
  output0 (connect_add c x (with_lastChOutput l (with_phase_modulation p g)))
  = output0 (connect_add c x g).
Proof. by destruct c. Qed.

Lemma LFO_AM_connect_add c x g : LFO_AM (connect_add c x g) = LFO_AM g.
Proof. by destruct c. Qed.

Lemma lastChOutput_connect_add c x g : lastChOutput (connect_add c x g) = lastChOutput g.
Proof. by destruct c. Qed.

Lemma quiet_gate (env : Z) : ENV_QUIET <= env -> (env <? ENV_QUIET) = false.
Proof. lia. Qed.

(** C7 (as the code has it).  An operator whose attenuation (envelope +
    total level with key scale level + tremolo) is at or above
    [ENV_QUIET] computes nothing for that sample: operator 2 and the
    rhythm voices add nothing to the output accumulator, and operator 1
    records 0 as its newest output.  What operator 1 computed on the
    sample before still goes to its connection, whatever its attenuation
    is now. *)
Theorem quiet_operator_computes_zero (g : globals) (CH CH7 CH8 : OPL_CH) (noise : Z) :
  (ENV_QUIET <= volume_calc g (SLOT1 CH) ->
     op1_out1 (SLOT1 (snd (OPL_CALC_CH g CH))) = 0 /\
     op1_out1 (SLOT1 (snd (rh_bass_drum g CH))) = 0) /\
  (ENV_QUIET <= volume_calc g (SLOT2 CH) ->
     lastChOutput (fst (OPL_CALC_CH g CH)) = 0 /\
     output0 (fst (OPL_CALC_CH g CH))
     = output0 (connect_add (connect1 (SLOT1 CH)) (op1_out1 (SLOT1 CH)) g) /\
     output0 (fst (rh_bass_drum g CH)) = output0 g) /\
  (ENV_QUIET <= volume_calc g (SLOT1 CH7) ->
     rh_high_hat (SLOT1 CH7) (SLOT2 CH8) noise g = g) /\
  (ENV_QUIET <= volume_calc g (SLOT2 CH7) ->
     rh_snare_drum (SLOT1 CH7) (SLOT2 CH7) noise g = g) /\
  (ENV_QUIET <= volume_calc g (SLOT1 CH8) -> rh_tom_tom (SLOT1 CH8) g = g) /\
  (ENV_QUIET <= volume_calc g (SLOT2 CH8) ->
     rh_top_cymbal (SLOT1 CH7) (SLOT2 CH8) g = g).
Proof.
  repeat refine (conj _ _).
  - intros Hq. apply quiet_gate in Hq. split.
    + unfold OPL_CALC_CH. rsimpl.
      rewrite calc_slot1_quiet; [done|].
      by rewrite (volume_calc_LFO_AM g).
    + unfold rh_bass_drum. rsimpl.
      rewrite calc_slot1_quiet; [done|].
      by rewrite (volume_calc_LFO_AM g).
  - intros Hq. apply quiet_gate in Hq. repeat split.
    + unfold OPL_CALC_CH. rsimpl.
      rewrite (volume_calc_LFO_AM g) by (by rewrite LFO_AM_connect_add).
      rewrite Hq. by rewrite lastChOutput_connect_add.
    + unfold OPL_CALC_CH. rsimpl.
      rewrite (volume_calc_LFO_AM g) by (by rewrite LFO_AM_connect_add).
      rewrite Hq. apply output0_connect_add.
    + unfold rh_bass_drum. rsimpl.
      rewrite (volume_calc_LFO_AM g) by (by case_goal).
      rewrite Hq. by case_goal.
  - intros Hq. unfold rh_high_hat. by rewrite quiet_gate.
  - intros Hq. unfold rh_snare_drum. by rewrite quiet_gate.
  - intros Hq. unfold rh_tom_tom. by rewrite quiet_gate.
  - intros Hq. unfold rh_top_cymbal. by rewrite quiet_gate.
Qed.

Lemma quiet_operator_computes_zero_witness :
  ENV_QUIET <= volume_calc zero_globals (SLOT1 (ringing_ch 100)) /\
  ENV_QUIET <= volume_calc zero_globals (SLOT2 (ringing_ch 100)) /\
  op1_out1 (SLOT1 (snd (OPL_CALC_CH zero_globals (ringing_ch 100)))) = 0 /\
  lastChOutput (fst (OPL_CALC_CH zero_globals (ringing_ch 100))) = 0 /\
  output0 (fst (rh_bass_drum zero_globals (ringing_ch 100))) = 0 /\
  rh_high_hat (SLOT1 (ringing_ch 100)) (SLOT2 (ringing_ch 100)) 1 zero_globals = zero_globals /\
  rh_snare_drum (SLOT1 (ringing_ch 100)) (SLOT2 (ringing_ch 100)) 1 zero_globals = zero_globals /\
  rh_tom_tom (SLOT1 (ringing_ch 100)) zero_globals = zero_globals /\
  rh_top_cymbal (SLOT1 (ringing_ch 100)) (SLOT2 (ringing_ch 100)) zero_globals = zero_globals.
Proof.
  assert (ENV_QUIET <= volume_calc zero_globals (SLOT1 (ringing_ch 100))) as H1
    by (vm_compute; discriminate).
  assert (ENV_QUIET <= volume_calc zero_globals (SLOT2 (ringing_ch 100))) as H2
    by (vm_compute; discriminate).
  destruct (quiet_operator_computes_zero zero_globals (ringing_ch 100) (ringing_ch 100)
              (ringing_ch 100) 1) as (A & B & C & D & E & F).
  destruct (A H1) as [A1 _]. destruct (B H2) as (B1 & _ & B3).
  repeat refine (conj _ _); auto.
Defined.

(** An operator at rest, far above the quiet threshold, whose previous
    output was 100: the channel calculation adds the 100 to the output
    accumulator. *)
Lemma quiet_operator_still_heard :
  ENV_QUIET <= volume_calc zero_globals (SLOT1 (ringing_ch 100)) /\
  ENV_QUIET <= volume_calc zero_globals (SLOT2 (ringing_ch 100)) /\
  output0 zero_globals = 0 /\
  output0 (fst (OPL_CALC_CH zero_globals (ringing_ch 100))) = 100.
Proof. vm_compute. repeat split; discriminate. Qed.

(** ** The sample store *)

Lemma s16_small (x : Z) : - 2 ^ 15 <= x < 2 ^ 15 -> s16 x = x.
Proof.
  intros Hx. unfold s16. cbv zeta.
  destruct (Z.ltb_spec (x mod 2 ^ 16) (2 ^ 15)); zlia.
Qed.

Lemma s16_above (x : Z) : 2 ^ 15 <= x < 2 ^ 15 + 2 ^ 16 -> s16 x = x - 2 ^ 16.
Proof.
  intros Hx. unfold s16. cbv zeta.
  destruct (Z.ltb_spec (x mod 2 ^ 16) (2 ^ 15)); zlia.
Qed.

Lemma s16_below (x : Z) : - 2 ^ 15 - 2 ^ 16 <= x < - 2 ^ 15 -> s16 x = x + 2 ^ 16.
Proof.
  intros Hx. unfold s16. cbv zeta.
  destruct (Z.ltb_spec (x mod 2 ^ 16) (2 ^ 15)); zlia.
Qed.

(** C10.  The sample that the loop stores is the output accumulator cut
    to 16 bits: inside [MINOUT, MAXOUT] it is the accumulator itself,
    and up to 65535 beyond either end it is the accumulator wrapped by
    65536, where [limit] would have given [MAXOUT] or [MINOUT]. *)
Theorem sample_store_wraps (rh : Z) (M : machine) :
  let acc := output0 (snd (mix rh M)) in
  snd (sample_step rh M) = s16 acc /\
  (MINOUT <= acc <= MAXOUT -> snd (sample_step rh M) = acc) /\
  (MAXOUT < acc <= MAXOUT + 65535 ->
     snd (sample_step rh M) = acc - 65536 /\ limit acc MAXOUT MINOUT = MAXOUT /\
     snd (sample_step rh M) <> limit acc MAXOUT MINOUT) /\
  (MINOUT - 65535 <= acc < MINOUT ->
     snd (sample_step rh M) = acc + 65536 /\ limit acc MAXOUT MINOUT = MINOUT /\
     snd (sample_step rh M) <> limit acc MAXOUT MINOUT).
Proof.
  intros acc.
  assert (snd (sample_step rh M) = s16 acc) as Hs.
  { unfold sample_step. rsimpl. unfold OPLSAMPLE. change FINAL_SH with 0.
    by rewrite Z.shiftr_0_r. }
  rewrite Hs. unfold limit, MAXOUT, MINOUT.
  split; [done|]. split; [|split].
  - intros Ha. apply s16_small. lia.
  - intros Ha. rewrite s16_above by lia.
    destruct (Z.ltb_spec 32767 acc); [|lia]. lia.
  - intros Ha. rewrite s16_below by lia.
    destruct (Z.ltb_spec 32767 acc); [lia|].
    destruct (Z.ltb_spec acc (-32768)); [|lia]. lia.
Qed.

Lemma sample_store_wraps_witness :
  snd (sample_step 0 (loud_machine 1000)) = 1000 /\
  snd (sample_step 0 (loud_machine 40000)) = -25536 /\
  limit (output0 (snd (mix 0 (loud_machine 40000)))) MAXOUT MINOUT = 32767 /\
  snd (sample_step 0 (loud_machine (-40000))) = 25536 /\
  limit (output0 (snd (mix 0 (loud_machine (-40000))))) MAXOUT MINOUT = -32768.
Proof.
  assert (output0 (snd (mix 0 (loud_machine 1000))) = 1000) as E1 by (vm_compute; reflexivity).
  assert (output0 (snd (mix 0 (loud_machine 40000))) = 40000) as E2 by (vm_compute; reflexivity).
  assert (output0 (snd (mix 0 (loud_machine (-40000)))) = -40000) as E3
    by (vm_compute; reflexivity).
  destruct (sample_store_wraps 0 (loud_machine 1000)) as (_ & A & _ & _).
  destruct (sample_store_wraps 0 (loud_machine 40000)) as (_ & _ & B & _).
  destruct (sample_store_wraps 0 (loud_machine (-40000))) as (_ & _ & _ & C).
  rewrite E1 in A. rewrite E2 in B. rewrite E3 in C.
  unfold MAXOUT, MINOUT in A, B, C.
  destruct (B ltac:(lia)) as (B1 & B2 & _). destruct (C ltac:(lia)) as (C1 & C2 & _).
  rewrite E2, E3. unfold MAXOUT, MINOUT.
  repeat refine (conj _ _); [apply A; lia|exact B1|exact B2|exact C1|exact C2].
Defined.

(** ** Waveform select *)

Lemma lookup_slot_array_neg r : tab slot_array (Z.land r 0x1f) < 0 ->
  (tab slot_array (Z.land r 0x1f) <? 0) = true.
Proof. lia. Qed.

Lemma OPLWriteReg_bus OPL r v :
  OPLWriteReg OPL r v = OPLWriteReg OPL (Z.land r 0xff) (Z.land v 0xff).
Proof.
  unfold OPLWriteReg. cbv zeta.
  rewrite !(land_land_const _ 0xff 0xff). reflexivity.
Qed.

Lemma u16_land3 v : u16 (Z.land (Z.land v 0xff) 0x03) = Z.land v 3.
Proof.
  rewrite land_land_const. change (Z.land 0xff 0x03) with 3.
  pose proof (land_upper v 3 ltac:(lia)). unfold u16. apply Z.mod_small. lia.
Qed.

Ltac pick_block r :=
  unfold OPLWriteReg; cbv zeta;
  rewrite !(land_land_const r 0xff 0xe0), !(land_land_const r 0xff 0x1f);
  change (Z.land 0xff 0xe0) with 0xe0; change (Z.land 0xff 0x1f) with 0x1f;
  match goal with H : Z.land r 0xe0 = _ |- _ => rewrite H end;
  cbn [Z.eqb Pos.eqb].

(** C2.  With waveform selection disabled, a write to any of the
    addresses 0xE0-0xFF leaves the whole chip as it was; with it
    enabled, a write to the address of an operator sets that operator's
    waveform to the low two bits of the value.  The enable flag itself is
    bit 5 of register 0x01, and writing it changes no operator. *)
Theorem wavesel_gate (OPL : FM_OPL) (r v : Z) :
  (Z.land r 0xe0 = 0xe0 -> wavesel OPL = 0 -> OPLWriteReg OPL r v = OPL) /\
  (Z.land r 0xe0 = 0xe0 -> wavesel OPL <> 0 ->
     forall slot op, tab slot_array (Z.land r 0x1f) = slot -> 0 <= slot ->
       get_slot OPL slot = Some op ->
       get_slot (OPLWriteReg OPL r v) slot = Some (with_wavetable (Z.land v 3) op)) /\
  P_CH (OPLWriteReg OPL 0x01 v) = P_CH OPL /\
  wavesel (OPLWriteReg OPL 0x01 v)
  = if nz (Z.land (type OPL) OPL_TYPE_WAVESEL) then Z.land v 0x20 else wavesel OPL.
Proof.
  split; [|split; [|split]].
  - intros Hr Hw. pick_block r. apply nz_false in Hw. by rewrite Hw.
  - intros Hr Hw slot op Hs H0 Hop. pick_block r.
    apply nz_true in Hw. rewrite Hw, Hs.
    destruct (Z.ltb_spec slot 0); [lia|].
    destruct (get_slot_on_slot OPL slot (set_wavetable_slot (Z.land v 0xff)) op Hop)
      as (CH & _ & _ & ->).
    unfold set_wavetable_slot. by rewrite u16_land3.
  - unfold OPLWriteReg. cbv zeta. change (Z.land (Z.land 0x01 0xff) 0xe0 =? 0) with true.
    change (Z.land (Z.land 0x01 0xff) 0x1f =? 0x01) with true. cbv iota.
    by case_goal.
  - unfold OPLWriteReg. cbv zeta. change (Z.land (Z.land 0x01 0xff) 0xe0 =? 0) with true.
    change (Z.land (Z.land 0x01 0xff) 0x1f =? 0x01) with true. cbv iota.
    case_goal; [|done]. rsimpl. rewrite land_land_const. reflexivity.
Qed.

Lemma wavesel_gate_witness :
  OPLWriteReg demo_chip 0xe3 2 = demo_chip /\
  (exists op, get_slot wavesel_chip 1 = Some op /\
     get_slot (OPLWriteReg wavesel_chip 0xe3 2) 1 = Some (with_wavetable 2 op)).
Proof.
  split.
  - apply (wavesel_gate demo_chip 0xe3 2); reflexivity.
  - destruct (get_slot wavesel_chip 1) as [op|] eqn:Hop; [|vm_compute in Hop; discriminate].
    exists op. split; [done|].
    apply (proj1 (proj2 (wavesel_gate wavesel_chip 0xe3 2)) eq_refl
             ltac:(vm_compute; discriminate) 1 op eq_refl ltac:(lia) Hop).
Defined.

(** ** Offsets without an operator *)

Lemma no_operator_noop OPL r v sw :
  Z.land r 0xe0 = sw -> sw ∈ [0x20; 0x40; 0x60; 0x80; 0xe0] ->
  tab slot_array (Z.land r 0x1f) < 0 -> OPLWriteReg OPL r v = OPL.
Proof.
  intros Hr Hsw Hs. apply lookup_slot_array_neg in Hs.
  rewrite !elem_of_cons in Hsw. rewrite elem_of_nil in Hsw.
  destruct Hsw as [->|[->|[->|[->|[->|[]]]]]]; pick_block r; rewrite ?Hs;
    try reflexivity.
  by case_goal.
Qed.

Lemma no_operator_offsets_eq :
  no_operator_offsets
  = ([6; 7; 14; 15; 22; 23; 24; 25; 26; 27; 28; 29; 30; 31] : list Z).
Proof. vm_compute. reflexivity. Qed.

Lemma no_operator_offsets_tab (off : Z) :
  off ∈ no_operator_offsets -> tab slot_array off < 0.
Proof.
  rewrite no_operator_offsets_eq. intros H.
  repeat (apply elem_of_cons in H as [->|H]; [vm_compute; reflexivity|]).
  by apply elem_of_nil in H.
Qed.

(** C6 (as the code has it).  [slot_array] has no operator at 14 of its
    32 offsets: 6, 7, 14, 15 and 22 to 31.  A write to such an offset
    of one of the blocks 0x20, 0x40, 0x60, 0x80 and 0xE0 changes nothing
    in the chip. *)
Theorem no_operator_offsets_are_noops (OPL : FM_OPL) (r v : Z) :
  no_operator_offsets
  = ([6; 7; 14; 15; 22; 23; 24; 25; 26; 27; 28; 29; 30; 31] : list Z) /\
  length no_operator_offsets = 14%nat /\
  (Z.land r 0xe0 ∈ [0x20; 0x40; 0x60; 0x80; 0xe0] ->
   Z.land r 0x1f ∈ no_operator_offsets ->
   OPLWriteReg OPL r v = OPL).
Proof.
  split; [apply no_operator_offsets_eq|].
  split; [by rewrite no_operator_offsets_eq|].
  intros Hsw Hoff. apply (no_operator_noop OPL r v (Z.land r 0xe0) eq_refl Hsw).
  by apply no_operator_offsets_tab.
Qed.

Lemma no_operator_offsets_are_noops_witness :
  OPLWriteReg wavesel_chip 0x26 0xff = wavesel_chip /\
  OPLWriteReg wavesel_chip 0xff 0x03 = wavesel_chip.
Proof.
  split.
  - apply (no_operator_offsets_are_noops wavesel_chip 0x26 0xff);
      apply list_elem_of_In; vm_compute; auto 20.
  - apply (no_operator_offsets_are_noops wavesel_chip 0xff 0x03);
      apply list_elem_of_In; vm_compute; auto 20.
Defined.

(** The table does not have 6 offsets without an operator. *)
Lemma six_offsets_counterexample :
  length no_operator_offsets <> 6%nat /\
  tab slot_array 24 = -1 /\
  (forall OPL v, OPLWriteReg OPL 0x38 v = OPL).
Proof.
  split; [by rewrite no_operator_offsets_eq|]. split; [reflexivity|].
  intros OPL v. apply (no_operator_noop OPL 0x38 v 0x20); [reflexivity|apply list_elem_of_In; vm_compute; auto|].
  vm_compute. reflexivity.
Qed.


(** * Further properties of the code *)

(** ** [limit] *)

(** [limit] clamps into [min, max], leaves a value of that range alone,
    and clamping twice is clamping once. *)
Theorem limit_clamps (val max min : Z) :
  min <= max ->
  min <= limit val max min <= max /\
  (min <= val <= max -> limit val max min = val) /\
  limit (limit val max min) max min = limit val max min.
Proof.
  intros Hmm. unfold limit.
  destruct (Z.ltb_spec max val), (Z.ltb_spec val min);
    repeat match goal with
           | |- context [?a <? ?b] => destruct (Z.ltb_spec a b)
           end; lia.
Qed.

Lemma limit_clamps_witness :
  MINOUT <= limit 40000 MAXOUT MINOUT <= MAXOUT /\
  limit (limit 40000 MAXOUT MINOUT) MAXOUT MINOUT = limit 40000 MAXOUT MINOUT.
Proof.
  destruct (limit_clamps 40000 MAXOUT MINOUT ltac:(unfold MAXOUT, MINOUT; lia))
    as (H1 & _ & H3).
  exact (conj H1 H3).
Defined.

(** ** The status register *)

Ltac zbits :=
  apply Z.bits_inj'; intros ? ?;
  repeat first [rewrite Z.land_spec | rewrite Z.lor_spec
               | rewrite Z.lnot_spec by lia | rewrite Z.bits_0];
  repeat match goal with
         | |- context [Z.testbit ?a ?n] => destruct (Z.testbit a n)
         end; reflexivity.

Lemma land_lor_absorb (a b : Z) : Z.land (Z.lor a b) b = b.
Proof. zbits. Qed.

Lemma land_lnot_diag (a b : Z) : Z.land (Z.land a (Z.lnot b)) b = 0.
Proof. zbits. Qed.

Lemma land_lor_0x80 (a : Z) : Z.land (Z.lor a 0x80) 0x80 = 0x80.
Proof. apply land_lor_absorb. Qed.

Lemma land_0x7f_0x80 (a : Z) : Z.land (Z.land a 0x7f) 0x80 = 0.
Proof. rewrite land_land_const. apply Z.land_0_r. Qed.

Lemma land_swap (a b c : Z) : Z.land (Z.land a b) c = Z.land (Z.land a c) b.
Proof. zbits. Qed.

Lemma u8_land_ff (x : Z) : u8 x = Z.land x 0xff.
Proof. unfold u8. by rewrite <- (Z.land_ones x 8) by lia. Qed.

Lemma u8_range (x : Z) : 0 <= u8 x <= 255.
Proof. unfold u8. pose proof (Z.mod_pos_bound x (2 ^ 8) ltac:(lia)). lia. Qed.

Lemma u8_small (x : Z) : 0 <= x <= 255 -> u8 x = x.
Proof. intros Hx. unfold u8. apply Z.mod_small. lia. Qed.

Lemma u8_lor_0x80 (x : Z) : u8 (Z.lor (u8 x) 0x80) = Z.lor (u8 x) 0x80.
Proof.
  pose proof (u8_range x).
  pose proof (lor_lt_pow2 (u8 x) 0x80 8 ltac:(lia) ltac:(lia) ltac:(lia)).
  apply u8_small. lia.
Qed.

Lemma u8_land_0x7f (x : Z) : u8 (Z.land x 0x7f) = Z.land x 0x7f.
Proof. pose proof (land_upper x 0x7f ltac:(lia)). apply u8_small. lia. Qed.

Lemma status_set_cases flag OPL :
  let st := u8 (Z.lor (status OPL) flag) in
  (Z.land st 0x80 = 0 /\ Z.land st (statusmask OPL) <> 0 /\
   OPL_STATUS_SET flag OPL = with_status (Z.lor st 0x80) OPL) \/
  ((Z.land st 0x80 <> 0 \/ Z.land st (statusmask OPL) = 0) /\
   OPL_STATUS_SET flag OPL = with_status st OPL).
Proof.
  intros st. unfold OPL_STATUS_SET. cbv zeta. rewrite u8_lor_0x80. fold st.
  destruct (nz (Z.land st 0x80)) eqn:E1; cbn [negb andb].
  - right. apply nz_true in E1. auto.
  - apply nz_false in E1. destruct (nz (Z.land st (statusmask OPL))) eqn:E2.
    + left. apply nz_true in E2. auto.
    + right. apply nz_false in E2. auto.
Qed.

Lemma status_reset_cases flag OPL :
  let st := u8 (Z.land (status OPL) (Z.lnot flag)) in
  (Z.land st 0x80 <> 0 /\ Z.land st (statusmask OPL) = 0 /\
   OPL_STATUS_RESET flag OPL = with_status (Z.land st 0x7f) OPL) \/
  ((Z.land st 0x80 = 0 \/ Z.land st (statusmask OPL) <> 0) /\
   OPL_STATUS_RESET flag OPL = with_status st OPL).
Proof.
  intros st. unfold OPL_STATUS_RESET. cbv zeta. rewrite u8_land_0x7f. fold st.
  destruct (nz (Z.land st 0x80)) eqn:E1; cbn [negb andb].
  - apply nz_true in E1. destruct (nz (Z.land st (statusmask OPL))) eqn:E2; cbn [negb].
    + right. apply nz_true in E2. auto.
    + left. apply nz_false in E2. auto.
  - right. apply nz_false in E1. auto.
Qed.

Lemma status_set_flag flag OPL :
  Z.land (status (OPL_STATUS_SET flag OPL)) (u8 flag) = u8 flag.
Proof.
  destruct (status_set_cases flag OPL) as [(_ & _ & ->)|(_ & ->)]; rsimpl;
    rewrite !u8_land_ff; zbits.
Qed.

(** [OPL_STATUS_SET] sets the flags it is given, as far as they fit the
    status byte, raises the IRQ bit as soon as the mask lets a set flag
    through, and touches nothing but [status], which stays a byte. *)
Theorem OPL_STATUS_SET_irq (flag : Z) (OPL : FM_OPL) :
  let OPL' := OPL_STATUS_SET flag OPL in
  0 <= status OPL' <= 255 /\
  Z.land (status OPL') (u8 flag) = u8 flag /\
  (0 <= flag <= 255 -> Z.land (status OPL') flag = flag) /\
  (Z.land (status OPL') (statusmask OPL') <> 0 -> Z.land (status OPL') 0x80 <> 0) /\
  (status OPL' = u8 (Z.lor (status OPL) flag) \/
   status OPL' = Z.lor (u8 (Z.lor (status OPL) flag)) 0x80) /\
  with_status (status OPL) OPL' = OPL.
Proof.
  cbv zeta.
  assert (forall x, Z.land x (u8 flag) = u8 flag ->
                    0 <= flag <= 255 -> Z.land x flag = flag) as Hb
    by (intros x Hx Hf; by rewrite (u8_small flag Hf) in Hx).
  pose proof (status_set_flag flag OPL) as Hf.
  destruct (status_set_cases flag OPL) as [(H1 & H2 & E)|(H1 & E)];
    rewrite E in *; clear E; rsimpl; rsimpl in Hf.
  - split; [rewrite <- u8_lor_0x80; apply u8_range|].
    split; [exact Hf|]. split; [exact (Hb _ Hf)|].
    split; [|split; [by right|by chip_eq]].
    intros _. rewrite land_lor_0x80. lia.
  - split; [apply u8_range|].
    split; [exact Hf|]. split; [exact (Hb _ Hf)|].
    split; [|split; [by left|by chip_eq]].
    intros Hm. by destruct H1.
Qed.

(** [OPL_STATUS_RESET] clears the flags it is given, and clears the IRQ
    bit when the mask lets no flag through any more. *)
Theorem OPL_STATUS_RESET_irq (flag : Z) (OPL : FM_OPL) :
  let OPL' := OPL_STATUS_RESET flag OPL in
  Z.land (status OPL') flag = 0 /\
  (Z.land (status OPL') 0x80 <> 0 -> Z.land (status OPL') (statusmask OPL') <> 0) /\
  with_status (status OPL) OPL' = OPL.
Proof.
  cbv zeta.
  destruct (status_reset_cases flag OPL) as [(H1 & H2 & ->)|(H1 & ->)]; rsimpl.
  - split; [rewrite u8_land_ff; zbits|]. split; [|by chip_eq].
    rewrite land_0x7f_0x80. lia.
  - split; [rewrite u8_land_ff; zbits|]. split; [|by chip_eq].
    intros Hm. by destruct H1.
Qed.

Lemma land_lnot_0 (a : Z) : Z.land a (Z.lnot 0) = a.
Proof. zbits. Qed.

Lemma u8_land_0x7f_l (x : Z) : Z.land (u8 x) 0x7f = Z.land x 0x7f.
Proof. rewrite u8_land_ff, land_land_const. reflexivity. Qed.

(** [OPL_STATUSMASK_SET] installs the low byte of its argument as the
    mask and makes the IRQ bit agree with it: afterwards bit 7 of
    [status] is set exactly when a flag that the new mask lets through
    is set, and the other seven bits of [status] are as before. *)
Theorem OPL_STATUSMASK_SET_irq (flag : Z) (OPL : FM_OPL) :
  let OPL' := OPL_STATUSMASK_SET flag OPL in
  statusmask OPL' = u8 flag /\
  (0 <= flag <= 255 -> statusmask OPL' = flag) /\
  irq_consistent OPL' /\
  Z.land (status OPL') 0x7f = Z.land (status OPL) 0x7f.
Proof.
  cbv zeta. unfold OPL_STATUSMASK_SET, irq_consistent.
  set (m := u8 flag).
  assert (0 <= flag <= 255 -> m = flag) as Hsmall by apply u8_small.
  clearbody m.
  set (O0 := with_statusmask m OPL).
  assert (statusmask O0 = m /\ status O0 = status OPL) as [Hm0 Hs0] by done.
  set (O1 := OPL_STATUS_SET 0 O0).
  assert (statusmask O1 = m /\
          (Z.land (status O1) m <> 0 -> Z.land (status O1) 0x80 <> 0) /\
          Z.land (status O1) 0x7f = Z.land (status OPL) 0x7f /\
          u8 (status O1) = status O1) as (Hm1 & Hi1 & Hs1 & Hb1).
  { unfold O1.
    destruct (status_set_cases 0 O0) as [(H1 & H2 & ->)|(H1 & ->)]; rsimpl;
      rewrite ?Z.lor_0_r, ?Hm0, ?Hs0 in *; (split; [done|]); split; [|split| |split].
    - rewrite land_lor_0x80. lia.
    - rewrite Z.land_lor_distr_l. change (Z.land 128 127) with 0.
      rewrite Z.lor_0_r. apply u8_land_0x7f_l.
    - apply u8_lor_0x80.
    - intros Hm. by destruct H1.
    - apply u8_land_0x7f_l.
    - apply u8_small, u8_range. }
  clearbody O1. clear O0 Hm0 Hs0.
  destruct (status_reset_cases 0 O1) as [(H1 & H2 & ->)|(H1 & ->)]; rsimpl;
    rewrite ?land_lnot_0, ?Hb1, ?Hm1 in *.
  - split; [done|]. split; [exact Hsmall|]. split.
    + rewrite land_0x7f_0x80, land_swap, H2, Z.land_0_l. done.
    + rewrite <- Hs1, land_land_const. reflexivity.
  - split; [done|]. split; [exact Hsmall|]. split; [|done]. split; [|done].
    intros Hm. by destruct H1.
Qed.

(** ** The LFO *)

Lemma lfo_am_table_bounds : Forall (fun x => 0 <= x <= 26) lfo_am_table.
Proof. unfold lfo_am_table. repeat (constructor; [lia|]). constructor. Qed.

(** [advance_lfo]: the tremolo value is one of [lfo_am_table] (at most
    26, and at most 6 with the shallow depth); a counter that was inside
    the table stays inside it, as long as the increment leaves room
    below 2^32; the vibrato value has four bits. *)
Theorem advance_lfo_ranges (OPL : FM_OPL) (g : globals) :
  let r := advance_lfo OPL g in
  let lim := Z.shiftl LFO_AM_TAB_ELEMENTS LFO_SH in
  0 <= LFO_AM (snd r) <= 26 /\
  (lfo_am_depth OPL = 0 -> LFO_AM (snd r) <= 6) /\
  (0 <= lfo_am_cnt OPL < lim -> 0 <= lfo_am_inc OPL <= 2 ^ 32 - lim ->
     0 <= lfo_am_cnt (fst r) < lim /\
     0 <= Z.shiftr (lfo_am_cnt (fst r)) LFO_SH < LFO_AM_TAB_ELEMENTS) /\
  (lfo_pm_depth_range OPL = 0 \/ lfo_pm_depth_range OPL = 8 ->
     0 <= LFO_PM (snd r) <= 15).
Proof.
  cbv zeta. unfold advance_lfo. rsimpl.
  change (Z.shiftl LFO_AM_TAB_ELEMENTS LFO_SH) with 3523215360.
  change LFO_AM_TAB_ELEMENTS with 210. change LFO_SH with 24.
  set (cnt0 := u32 (lfo_am_cnt OPL + lfo_am_inc OPL)).
  set (cnt := if 3523215360 <=? cnt0 then u32 (cnt0 - 3523215360) else cnt0).
  pose proof (tab_bounds lfo_am_table 0 26 (Z.shiftr cnt 24) lfo_am_table_bounds
                ltac:(lia)) as Ht.
  assert (u8 (tab lfo_am_table (Z.shiftr cnt 24)) = tab lfo_am_table (Z.shiftr cnt 24))
    as -> by (unfold u8; apply Z.mod_small; lia).
  split; [|split; [|split]].
  - destruct (nz (lfo_am_depth OPL)); [done|].
    rewrite Z.shiftr_div_pow2 by lia. change (2 ^ 2) with 4. zlia.
  - intros Hd. apply nz_false in Hd. rewrite Hd.
    rewrite Z.shiftr_div_pow2 by lia. change (2 ^ 2) with 4. zlia.
  - intros Hc Hi.
    assert (cnt0 = lfo_am_cnt OPL + lfo_am_inc OPL) as E0
      by (unfold cnt0; apply u32_small; lia).
    assert (0 <= cnt < 3523215360) as Hcnt.
    { unfold cnt. destruct (Z.leb_spec 3523215360 cnt0); [|lia].
      rewrite u32_small by lia. lia. }
    split; [done|]. rewrite Z.shiftr_div_pow2 by lia. change (2 ^ 24) with 16777216.
    zlia.
  - set (x := Z.shiftr _ 24).
    pose proof (land_upper x 7 ltac:(lia)).
    intros [-> | ->]; [rewrite Z.lor_0_r; lia|].
    pose proof (lor_lt_pow2 (Z.land x 7) 8 4 ltac:(lia) ltac:(lia)). lia.
Qed.

Lemma advance_lfo_ranges_witness :
  0 <= lfo_am_cnt (fst (advance_lfo demo_chip zero_globals))
    < Z.shiftl LFO_AM_TAB_ELEMENTS LFO_SH /\
  LFO_AM (snd (advance_lfo demo_chip zero_globals)) <= 6 /\
  0 <= LFO_PM (snd (advance_lfo demo_chip zero_globals)) <= 15.
Proof.
  destruct (advance_lfo_ranges demo_chip zero_globals) as (_ & A & B & C).
  split; [|split].
  - apply B; vm_compute; split; first [discriminate | reflexivity].
  - apply A. reflexivity.
  - apply C. left. reflexivity.
Defined.

(** ** The envelope clock *)

Lemma u32_add_l (a b : Z) : u32 (u32 a + b) = u32 (a + b).
Proof. unfold u32. apply Zplus_mod_idemp_l. Qed.

Lemma eg_timer_overflow_eg_tick OPL : eg_timer_overflow (eg_tick OPL) = eg_timer_overflow OPL.
Proof. reflexivity. Qed.

Lemma eg_while_exits (n : nat) (OPL : FM_OPL) :
  0 < eg_timer_overflow OPL -> 0 <= eg_timer OPL < 2 ^ 32 ->
  0 <= eg_cnt OPL < 2 ^ 32 ->
  eg_timer OPL / eg_timer_overflow OPL <= Z.of_nat n ->
  eg_timer_overflow (eg_while n OPL) = eg_timer_overflow OPL /\
  eg_timer (eg_while n OPL) = eg_timer OPL mod eg_timer_overflow OPL /\
  eg_cnt (eg_while n OPL) = u32 (eg_cnt OPL + eg_timer OPL / eg_timer_overflow OPL).
Proof.
  revert OPL. induction n as [|n IH]; intros OPL Hov Ht Hc Hn; cbn [eg_while].
  - assert (eg_timer OPL < eg_timer_overflow OPL) by zlia.
    rewrite Z.mod_small, Z.div_small by lia. rewrite Z.add_0_r, u32_small by lia.
    done.
  - destruct (Z.leb_spec (eg_timer_overflow OPL) (eg_timer OPL)) as [Hle|Hlt].
    + assert (eg_timer (eg_tick OPL) = eg_timer OPL - eg_timer_overflow OPL) as Et
        by (unfold eg_tick; rsimpl; apply u32_small; lia).
      assert (eg_cnt (eg_tick OPL) = u32 (eg_cnt OPL + 1)) as Ec by done.
      assert ((eg_timer OPL - eg_timer_overflow OPL) / eg_timer_overflow OPL
              = eg_timer OPL / eg_timer_overflow OPL - 1) as Ed.
      { replace (eg_timer OPL - eg_timer_overflow OPL)
          with (eg_timer OPL + (-1) * eg_timer_overflow OPL) by lia.
        rewrite Z.div_add by lia. lia. }
      destruct (IH (eg_tick OPL)) as (H1 & H2 & H3).
      * by rewrite eg_timer_overflow_eg_tick.
      * rewrite Et. lia.
      * rewrite Ec. unfold u32. apply Z.mod_pos_bound. lia.
      * rewrite eg_timer_overflow_eg_tick, Et, Ed. lia.
      * rewrite eg_timer_overflow_eg_tick in *. rewrite H1, H2, H3, Et, Ec, Ed.
        split; [done|]. split.
        -- replace (eg_timer OPL - eg_timer_overflow OPL)
             with (eg_timer OPL + (-1) * eg_timer_overflow OPL) by lia.
           by rewrite Z.mod_add by lia.
        -- rewrite !u32_add_l. f_equal. lia.
    + rewrite Z.mod_small, Z.div_small by lia. rewrite Z.add_0_r, u32_small by lia.
      done.
Qed.

(** [advance]: the envelope loop ends.  It runs once for every whole
    [eg_timer_overflow] that [eg_timer + eg_timer_add] holds: the
    envelope counter advances by that quotient, the timer keeps the
    remainder, and so the condition of the loop is false afterwards. *)
Theorem advance_envelope_clock (g : globals) (OPL : FM_OPL) :
  0 < eg_timer_overflow OPL -> 0 <= eg_cnt OPL < 2 ^ 32 ->
  let t := u32 (eg_timer OPL + eg_timer_add OPL) in
  eg_timer (advance g OPL) = t mod eg_timer_overflow OPL /\
  eg_cnt (advance g OPL) = u32 (eg_cnt OPL + t / eg_timer_overflow OPL) /\
  eg_timer (advance g OPL) < eg_timer_overflow (advance g OPL).
Proof.
  intros Hov Hc t. unfold advance. rsimpl. fold t.
  set (OPL1 := with_eg_timer t OPL).
  assert (0 <= t < 2 ^ 32) as Ht by (unfold t, u32; apply Z.mod_pos_bound; lia).
  destruct (eg_while_exits (Z.to_nat (t / eg_timer_overflow OPL)) OPL1)
    as (H1 & H2 & H3); try done.
  { change (eg_timer OPL1) with t. change (eg_timer_overflow OPL1) with (eg_timer_overflow OPL).
    rewrite Z2Nat.id; [lia|]. apply Z.div_pos; lia. }
  change (eg_timer OPL1) with t in *.
  change (eg_timer_overflow OPL1) with (eg_timer_overflow OPL) in *.
  change (eg_cnt OPL1) with (eg_cnt OPL) in *.
  rewrite H1, H2, H3.
  split; [done|]. split; [done|]. apply Z.mod_pos_bound. lia.
Qed.

Lemma advance_envelope_clock_witness :
  eg_timer (advance zero_globals demo_chip) = 8345 /\
  eg_cnt (advance zero_globals demo_chip) = 1.
Proof.
  destruct (advance_envelope_clock zero_globals demo_chip) as (H1 & H2 & _).
  - vm_compute. reflexivity.
  - vm_compute. split; [discriminate|reflexivity].
  - split; [exact H1|exact H2].
Defined.

(** ** The sample loop *)

Lemma s16_range (x : Z) : -32768 <= s16 x <= 32767.
Proof.
  unfold s16. cbv zeta. pose proof (Z.mod_pos_bound x (2 ^ 16) ltac:(lia)).
  destruct (Z.ltb_spec (x mod 2 ^ 16) (2 ^ 15)); lia.
Qed.

Lemma update_loop_samples rh n M :
  length (snd (update_loop rh n M)) = n /\
  Forall (fun x => -32768 <= x <= 32767) (snd (update_loop rh n M)).
Proof.
  revert M. induction n as [|n IH]; intros M; cbn [update_loop]; [by split|].
  assert (-32768 <= snd (sample_step rh M) <= 32767) as Hx
    by (unfold sample_step, OPLSAMPLE; rsimpl; apply s16_range).
  destruct (sample_step rh M) as [M1 x]. specialize (IH M1).
  destruct (update_loop rh n M1) as [M2 xs]. cbn [snd length] in *.
  destruct IH as [IH1 IH2]. split; [by rewrite IH1|]. by constructor.
Qed.

(** The vibrato counter and its increment during one sample. *)
Lemma lfo_pm_cnt_calc_ch c M : lfo_pm_cnt (fst (calc_ch c M)) = lfo_pm_cnt (fst M).
Proof. unfold calc_ch. repeat case_match; reflexivity. Qed.

Lemma lfo_pm_inc_calc_ch c M : lfo_pm_inc (fst (calc_ch c M)) = lfo_pm_inc (fst M).
Proof. unfold calc_ch. repeat case_match; reflexivity. Qed.

Lemma lfo_pm_cnt_calc_rh M : lfo_pm_cnt (fst (calc_rh M)) = lfo_pm_cnt (fst M).
Proof. unfold calc_rh. repeat case_match; reflexivity. Qed.

Lemma lfo_pm_inc_calc_rh M : lfo_pm_inc (fst (calc_rh M)) = lfo_pm_inc (fst M).
Proof. unfold calc_rh. repeat case_match; reflexivity. Qed.

Lemma lfo_pm_mix rh M :
  lfo_pm_cnt (fst (mix rh M)) = u32 (lfo_pm_cnt (fst M) + lfo_pm_inc (fst M)) /\
  lfo_pm_inc (fst (mix rh M)) = lfo_pm_inc (fst M).
Proof.
  unfold mix. destruct (advance_lfo _ _) as [OPL1 g1] eqn:Hl.
  assert (lfo_pm_cnt OPL1 = u32 (lfo_pm_cnt (fst M) + lfo_pm_inc (fst M)) /\
          lfo_pm_inc OPL1 = lfo_pm_inc (fst M)) as [<- <-]
    by (unfold advance_lfo in Hl; by injection Hl as <- _).
  case_match;
    rewrite ?lfo_pm_cnt_calc_rh, ?lfo_pm_inc_calc_rh,
      ?lfo_pm_cnt_calc_ch, ?lfo_pm_inc_calc_ch; by split.
Qed.

Lemma lfo_pm_eg_while n OPL :
  lfo_pm_cnt (eg_while n OPL) = lfo_pm_cnt OPL /\
  lfo_pm_inc (eg_while n OPL) = lfo_pm_inc OPL.
Proof.
  revert OPL. induction n as [|n IH]; intros OPL; [done|].
  cbn [eg_while]. case_match; [|done]. by destruct (IH (eg_tick OPL)) as [-> ->].
Qed.

Lemma lfo_pm_advance g OPL :
  lfo_pm_cnt (advance g OPL) = lfo_pm_cnt OPL /\
  lfo_pm_inc (advance g OPL) = lfo_pm_inc OPL.
Proof.
  unfold advance. rsimpl.
  match goal with
  | |- context [eg_while ?n ?X] => destruct (lfo_pm_eg_while n X) as [-> ->]
  end.
  by split.
Qed.

Lemma lfo_pm_update_loop rh n M :
  lfo_pm_cnt (fst (fst (update_loop rh (S n) M)))
  = u32 (lfo_pm_cnt (fst M) + Z.of_nat (S n) * lfo_pm_inc (fst M)) /\
  lfo_pm_inc (fst (fst (update_loop rh (S n) M))) = lfo_pm_inc (fst M).
Proof.
  revert M. induction n as [|n IH]; intros M.
  - cbn [update_loop]. unfold sample_step. rsimpl.
    destruct (lfo_pm_advance (snd (mix rh M)) (fst (mix rh M))) as [-> ->].
    destruct (lfo_pm_mix rh M) as [-> ->]. split; [f_equal; lia|done].
  - specialize (IH (fst (sample_step rh M))).
    assert (lfo_pm_cnt (fst (fst (sample_step rh M)))
            = u32 (lfo_pm_cnt (fst M) + lfo_pm_inc (fst M)) /\
            lfo_pm_inc (fst (fst (sample_step rh M))) = lfo_pm_inc (fst M)) as [Hc Hi].
    { unfold sample_step. rsimpl.
      destruct (lfo_pm_advance (snd (mix rh M)) (fst (mix rh M))) as [-> ->].
      apply lfo_pm_mix. }
    rewrite Hc, Hi in IH. change (update_loop rh (S (S n)) M) with
      (let '(M1, x) := sample_step rh M in
       let '(M2, xs) := update_loop rh (S n) M1 in (M2, x :: xs)).
    destruct (sample_step rh M) as [M1 x]. cbn [fst] in IH.
    destruct (update_loop rh (S n) M1) as [M2 xs]. cbn [fst] in *.
    destruct IH as [-> ->]. split; [|done].
    unfold u32. rewrite Z.add_mod_idemp_l by lia. f_equal. lia.
Qed.

(** [ym3812_update_one] runs the body of its loop [length] times: it
    writes [length] samples, each within the range of a signed 16-bit
    sample, and the vibrato counter [lfo_pm_cnt] advances by [length]
    increments modulo 2^32, the increment staying as it is.  With a
    [length] that is not positive it writes no sample and leaves the chip
    and the scratch variables of [globals] as they are. *)
Theorem update_one_samples (M : machine) (n : Z) :
  let r := ym3812_update_one M n in
  length (snd r) = Z.to_nat n /\
  Forall (fun x => -32768 <= x <= 32767) (snd r) /\
  lfo_pm_inc (fst (fst r)) = lfo_pm_inc (fst M) /\
  (0 < n -> lfo_pm_cnt (fst (fst r)) = u32 (lfo_pm_cnt (fst M) + n * lfo_pm_inc (fst M))) /\
  ym3812_update_one M (Z.min n 0) = (M, []).
Proof.
  cbv zeta. unfold ym3812_update_one.
  destruct (update_loop_samples (u8 (Z.land (rhythm (fst M)) 32)) (Z.to_nat n) M)
    as [H1 H2].
  split; [done|]. split; [done|].
  split; [|split].
  - destruct (Z.to_nat n) as [|k]; [done|]. apply lfo_pm_update_loop.
  - intros Hn. destruct (Z.to_nat n) as [|k] eqn:Hk; [lia|].
    destruct (lfo_pm_update_loop (u8 (Z.land (rhythm (fst M)) 32)) k M) as [-> _].
    f_equal. lia.
  - replace (Z.to_nat (Z.min n 0)) with 0%nat by lia. reflexivity.
Qed.

(** Generating [m + n] samples in one call of [ym3812_update_one] is
    generating [m] samples and then [n] more: the chip ends in the same
    state and the samples are the same. *)
Theorem update_one_split (M : machine) (m n : Z) :
  0 <= m -> 0 <= n ->
  ym3812_update_one M (m + n)
  = let '(M1, xs) := ym3812_update_one M m in
    let '(M2, ys) := ym3812_update_one M1 n in
    (M2, xs ++ ys).
Proof.
  intros Hm Hn. unfold ym3812_update_one. rewrite !update_loop_live.
  rewrite Z2Nat.inj_add by done. rewrite update_live_app.
  destruct (update_live (Z.to_nat m) M) as [M1 xs].
  by rewrite update_loop_live.
Qed.

Lemma update_one_split_witness :
  ym3812_update_one (loud_machine 1000) (1 + 2)
  = let '(M1, xs) := ym3812_update_one (loud_machine 1000) 1 in
    let '(M2, ys) := ym3812_update_one M1 2 in
    (M2, xs ++ ys).
Proof. apply (update_one_split (loud_machine 1000) 1 2); lia. Defined.

(** ** Key on and key off *)

Lemma u32_land_ones (x : Z) : u32 x = Z.land x (Z.ones 32).
Proof. unfold u32. by rewrite Z.land_ones by lia. Qed.

Lemma u32_land (a b : Z) : u32 (Z.land a b) = Z.land (u32 a) (u32 b).
Proof. rewrite !u32_land_ones. zbits. Qed.

Lemma FM_KEYON_merge k1 k2 S : FM_KEYON k2 (FM_KEYON k1 S) = FM_KEYON (Z.lor k1 k2) S.
Proof.
  unfold FM_KEYON at 2 3. destruct (nz (key S)) eqn:Hk.
  - unfold FM_KEYON. rsimpl.
    assert (nz (Z.lor (key S) k1) = true) as ->.
    { apply nz_true in Hk. apply nz_true. rewrite Z.lor_eq_0_iff. tauto. }
    slot_eq. by rewrite Z.lor_assoc.
  - unfold FM_KEYON. rsimpl.
    destruct (nz (Z.lor (key S) k1)); slot_eq; by rewrite Z.lor_assoc.
Qed.

Lemma FM_KEYOFF_merge k1 k2 S : FM_KEYOFF k2 (FM_KEYOFF k1 S) = FM_KEYOFF (Z.land k1 k2) S.
Proof.
  unfold FM_KEYOFF at 2 3.
  destruct (nz (key S)) eqn:Hk; [|unfold FM_KEYOFF; by rewrite Hk].
  rsimpl. rewrite u32_land, Z.land_assoc.
  destruct (nz (Z.land (key S) (u32 k1))) eqn:Hk1.
  - unfold FM_KEYOFF. rsimpl. rewrite Hk1. rsimpl.
    destruct (nz (Z.land (Z.land (key S) (u32 k1)) (u32 k2))); [slot_eq|].
    destruct (EG_REL <? state S); slot_eq.
  - apply nz_false in Hk1. rewrite Hk1, Z.land_0_l.
    change (nz 0) with false. cbv iota.
    destruct (EG_REL <? state S); unfold FM_KEYOFF; rsimpl;
      change (nz 0) with false; reflexivity.
Qed.

(** Key sets accumulate: switching on the keys [k1] and then the keys
    [k2] is switching on [k1 | k2], and clearing with the masks [k1] and
    then [k2] is clearing with [k1 & k2].  In particular a second key-on
    never restarts the phase or the attack. *)
Theorem key_sets_accumulate (k1 k2 : Z) (S : OPL_SLOT) :
  FM_KEYON k2 (FM_KEYON k1 S) = FM_KEYON (Z.lor k1 k2) S /\
  FM_KEYOFF k2 (FM_KEYOFF k1 S) = FM_KEYOFF (Z.land k1 k2) S /\
  (key S <> 0 -> FM_KEYON k1 S = with_key (Z.lor (key S) k1) S).
Proof.
  split; [apply FM_KEYON_merge|]. split; [apply FM_KEYOFF_merge|].
  intros Hk. apply nz_true in Hk. unfold FM_KEYON. by rewrite Hk.
Qed.

Lemma key_sets_accumulate_witness :
  FM_KEYON 2 sustain_op = with_key 2 (with_state EG_ATT (with_Cnt 0 sustain_op)) /\
  FM_KEYON 1 (FM_KEYON 2 sustain_op) = with_key 3 (FM_KEYON 2 sustain_op).
Proof.
  split; [reflexivity|].
  apply (proj2 (proj2 (key_sets_accumulate 1 1 (FM_KEYON 2 sustain_op)))).
  vm_compute. discriminate.
Defined.

Lemma land_lor4_clear (k : Z) :
  0 <= k < 2 ^ 32 -> Z.land (Z.lor k 4) (u32 (Z.lnot 4)) = Z.land k (Z.lnot 4).
Proof.
  intros Hk. rewrite u32_land_ones.
  assert (Z.land (Z.lor k 4) (Z.land (Z.lnot 4) (Z.ones 32))
          = Z.land (Z.land k (Z.lnot 4)) (Z.ones 32)) as -> by zbits.
  rewrite <- u32_land_ones. apply u32_small.
  pose proof (land_upper (Z.lnot 4) k ltac:(lia)). rewrite Z.land_comm. lia.
Qed.

Lemma csm_slot (S : OPL_SLOT) :
  0 <= key S < 2 ^ 32 ->
  let S' := FM_KEYOFF (Z.lnot 4) (FM_KEYON 4 S) in
  key S' = Z.land (key S) (Z.lnot 4) /\
  (key S = 0 -> Cnt S' = 0 /\ state S' = EG_REL) /\
  (Z.land (key S) (Z.lnot 4) <> 0 -> S' = with_key (Z.land (key S) (Z.lnot 4)) S).
Proof.
  intros Hk. cbv zeta. unfold FM_KEYON.
  destruct (nz (key S)) eqn:E.
  - apply nz_true in E. unfold FM_KEYOFF. rsimpl.
    assert (nz (Z.lor (key S) 4) = true) as ->
      by (apply nz_true; rewrite Z.lor_eq_0_iff; tauto).
    rewrite land_lor4_clear by done.
    destruct (nz (Z.land (key S) (Z.lnot 4))) eqn:E2.
    + split; [done|]. split; [done|]. intros _. slot_eq.
    + apply nz_false in E2.
      split; [by destruct (EG_REL <? state S)|]. split; [done|]. done.
  - apply nz_false in E. unfold FM_KEYOFF. rsimpl. rewrite E.
    change (nz (Z.lor 0 4)) with true. cbv iota.
    change (nz (Z.land (Z.lor 0 4) (u32 (Z.lnot 4)))) with false. cbv iota.
    change (EG_REL <? EG_ATT) with true. cbv iota. rsimpl.
    split; [reflexivity|]. split; [done|]. intros H. exfalso. apply H. reflexivity.
Qed.

(** [CSMKeyControll] acts on the two operators of the channel alike:
    key bit 4 ends up clear; an operator that no key held is restarted
    (phase 0) and left in release; an operator that another key holds
    is not disturbed. *)
Theorem CSMKeyControll_effect (CH : OPL_CH) :
  0 <= key (SLOT1 CH) < 2 ^ 32 -> 0 <= key (SLOT2 CH) < 2 ^ 32 ->
  let CH' := CSMKeyControll CH in
  Forall2
    (fun S S' =>
       key S' = Z.land (key S) (Z.lnot 4) /\
       (key S = 0 -> Cnt S' = 0 /\ state S' = EG_REL) /\
       (Z.land (key S) (Z.lnot 4) <> 0 -> S' = with_key (Z.land (key S) (Z.lnot 4)) S))
    [SLOT1 CH; SLOT2 CH] [SLOT1 CH'; SLOT2 CH'] /\
  block_fnum CH' = block_fnum CH /\ fc CH' = fc CH /\
  ksl_base CH' = ksl_base CH /\ kcode CH' = kcode CH.
Proof.
  intros H1 H2. cbv zeta. unfold CSMKeyControll, in_SLOT1, in_SLOT2. rsimpl.
  split; [|done].
  constructor; [by apply csm_slot|]. constructor; [by apply csm_slot|]. constructor.
Qed.

Lemma CSMKeyControll_effect_witness :
  key (SLOT1 (CSMKeyControll (ringing_ch 0))) = 0 /\
  state (SLOT1 (CSMKeyControll (ringing_ch 0))) = EG_REL.
Proof.
  destruct (CSMKeyControll_effect (ringing_ch 0)) as [H _];
    [vm_compute; split; [discriminate|reflexivity]..|].
  inversion H as [|? ? ? ? (Hk & Hs & _) _]; subst.
  split; [exact Hk|]. exact (proj2 (Hs eq_refl)).
Defined.

(** ** Timer overflow *)

(** [OPLTimerOver] raises the flag of its timer (0x20 for timer B, 0x40
    for timer A), returns the IRQ bit, and leaves the channels alone
    unless it is timer A in CSM mode. *)
Theorem OPLTimerOver_flags (OPL : FM_OPL) (c : Z) :
  let r := OPLTimerOver OPL c in
  let flag := if nz c then 0x20 else 0x40 in
  Z.land (status (fst r)) flag = flag /\
  snd r = Z.shiftr (status (fst r)) 7 /\
  statusmask (fst r) = statusmask OPL /\ mode (fst r) = mode OPL /\
  (negb (nz c) && nz (Z.land (mode OPL) 0x80) = false -> P_CH (fst r) = P_CH OPL).
Proof.
  cbv zeta. unfold OPLTimerOver. rsimpl.
  destruct (nz c) eqn:Hc.
  - pose proof (status_set_flag 32 OPL) as Hf. change (u8 32) with 32 in Hf.
    split; [exact Hf|].
    destruct (status_set_cases 32 OPL) as [(_ & _ & E)|(_ & E)]; rewrite E; rsimpl; done.
  - cbn [negb andb].
    pose proof (status_set_flag 64 OPL) as Hf. change (u8 64) with 64 in Hf.
    assert (mode (OPL_STATUS_SET 64 OPL) = mode OPL /\
            P_CH (OPL_STATUS_SET 64 OPL) = P_CH OPL /\
            statusmask (OPL_STATUS_SET 64 OPL) = statusmask OPL /\
            Z.land (status (OPL_STATUS_SET 64 OPL)) 64 = 64) as (Em & Ep & Es & Ef).
    { split; [|split; [|split; [|exact Hf]]];
        destruct (status_set_cases 64 OPL) as [(_ & _ & E)|(_ & E)]; rewrite E;
        reflexivity. }
    rewrite Em. destruct (nz (Z.land (mode OPL) 128)); rsimpl; rewrite ?Es, ?Em; done.
Qed.

Lemma OPLTimerOver_flags_witness :
  P_CH (fst (OPLTimerOver demo_chip 0)) = P_CH demo_chip /\
  status (fst (OPLTimerOver demo_chip 0)) = 0x40.
Proof.
  destruct (OPLTimerOver_flags demo_chip 0) as (_ & _ & _ & _ & H).
  split; [apply H; reflexivity | reflexivity].
Defined.

(** ** The two ports *)

Lemma update_block_fnum_address a OPL bfn CH :
  update_block_fnum (with_address a OPL) bfn CH = update_block_fnum OPL bfn CH.
Proof. reflexivity. Qed.

Lemma write_fnum_address a OPL r v CH :
  write_fnum (with_address a OPL) r v CH = write_fnum OPL r v CH.
Proof. reflexivity. Qed.

Lemma on_slot_address a s f OPL :
  on_slot s f (with_address a OPL) = with_address a (on_slot s f OPL).
Proof. reflexivity. Qed.

Lemma write_rhythm_address a OPL v :
  write_rhythm (with_address a OPL) v = with_address a (write_rhythm OPL v).
Proof. unfold write_rhythm. rsimpl. by case_goal. Qed.

Lemma OPLWriteReg_address a OPL r v :
  OPLWriteReg (with_address a OPL) r v = with_address a (OPLWriteReg OPL r v).
Proof.
  unfold OPLWriteReg. cbv zeta. rsimpl.
  unfold set_mul, set_ksl_tl, set_ar_dr, set_sl_rr.
  repeat case_goal; try reflexivity; try apply write_rhythm_address.
Qed.

(** A register write through the two ports, the address to the even
    port and the value to the odd one, is [OPLWriteReg] at that
    register; the chip remembers the address, and the value returned is
    the IRQ bit. *)
Theorem port_write_is_register_write (OPL : FM_OPL) (a0 a1 r v : Z) :
  Z.land a0 1 = 0 -> Z.land a1 1 = 1 ->
  let w0 := OPLWrite OPL a0 r in
  let w1 := OPLWrite (fst w0) a1 v in
  fst w0 = with_address (Z.land r 0xff) OPL /\
  fst w1 = with_address (Z.land r 0xff) (OPLWriteReg OPL r v) /\
  snd w1 = Z.shiftr (status (OPLWriteReg OPL r v)) 7.
Proof.
  intros H0 H1. cbv zeta. unfold OPLWrite. rewrite H0, H1.
  change (0 =? 0) with true. change (1 =? 0) with false. cbv iota. rsimpl.
  rewrite OPLWriteReg_address.
  assert (OPLWriteReg OPL (Z.land r 0xff) v = OPLWriteReg OPL r v) as ->.
  { rewrite (OPLWriteReg_bus OPL (Z.land r 0xff)), (OPLWriteReg_bus OPL r).
    by rewrite land_land_const. }
  done.
Qed.

Lemma port_write_is_register_write_witness :
  fst (OPLWrite (fst (OPLWrite demo_chip 0 0x43)) 1 0x3f)
  = with_address 0x43 (OPLWriteReg demo_chip 0x43 0x3f).
Proof.
  apply (proj1 (proj2 (port_write_is_register_write demo_chip 0 1 0x43 0x3f
                         eq_refl eq_refl))).
Defined.

(** Reading: the odd port reads 0xFF; the even port reads the flags
    that the mask lets through and, whatever the mask, the IRQ bit;
    [ym3812_read] and [ym3812_peek] both return that byte with bits 1
    and 2 set. *)
Theorem ym3812_read_bits (chip : FM_OPL) (a : Z) :
  0 <= ym3812_read chip a <= 255 /\
  Z.land (ym3812_read chip a) 0x06 = 0x06 /\
  ym3812_peek chip a = ym3812_read chip a /\
  (Z.land a 1 <> 0 -> OPLRead chip a = 0xff /\ ym3812_read chip a = 0xff) /\
  (Z.land a 1 = 0 ->
     Z.land (ym3812_read chip a) 0x80 = Z.land (status chip) 0x80 /\
     Z.land (OPLRead chip a) 0x7f
     = Z.land (Z.land (status chip) (statusmask chip)) 0x7f).
Proof.
  unfold ym3812_peek, ym3812_read.
  assert (0 <= OPLRead chip a < 2 ^ 8) as Hr.
  { unfold OPLRead. case_goal; [|lia]. unfold u8. apply Z.mod_pos_bound. lia. }
  pose proof (lor_lt_pow2 (OPLRead chip a) 6 8 ltac:(lia) Hr ltac:(lia)) as Hl.
  split; [lia|]. split; [apply land_lor_absorb|]. split; [done|]. split.
  - intros Ha. unfold OPLRead. apply Z.eqb_neq in Ha. rewrite Ha. done.
  - intros Ha. unfold OPLRead. rewrite Ha. change (0 =? 0) with true. cbv iota.
    rewrite u8_land_ff. split.
    + rewrite Z.land_lor_distr_l. change (Z.land 6 128) with 0. rewrite Z.lor_0_r.
      rewrite land_land_const. change (Z.land 255 128) with 128.
      rewrite <- Z.land_assoc, land_lor_absorb. done.
    + rewrite land_land_const. change (Z.land 255 127) with 127.
      rewrite <- !Z.land_assoc. f_equal.
      rewrite Z.land_lor_distr_l. change (Z.land 128 127) with 0. by rewrite Z.lor_0_r.
Qed.

Lemma ym3812_read_bits_witness :
  ym3812_read demo_chip 1 = 0xff /\
  Z.land (ym3812_read demo_chip 0) 0x80 = Z.land (status demo_chip) 0x80.
Proof.
  destruct (ym3812_read_bits demo_chip 1) as (_ & _ & _ & A & _).
  destruct (ym3812_read_bits demo_chip 0) as (_ & _ & _ & _ & B).
  split; [apply A; vm_compute; discriminate | apply B; reflexivity].
Defined.

(** ** Addresses that the decoder does not distinguish *)

Lemma land_add_256 (x k : Z) : Z.land (x + 256 * k) 0xff = Z.land x 0xff.
Proof.
  change 0xff with (Z.ones 8). rewrite !Z.land_ones by lia.
  change (2 ^ 8) with 256. rewrite (Z.mul_comm 256 k). apply Z.mod_add. lia.
Qed.

(** Only the low eight bits of the address and of the value reach the
    decoder. *)
Theorem OPLWriteReg_low_bytes (OPL : FM_OPL) (r v j k : Z) :
  OPLWriteReg OPL (r + 256 * j) (v + 256 * k) = OPLWriteReg OPL r v /\
  OPLWriteReg OPL (Z.land r 0xff) (Z.land v 0xff) = OPLWriteReg OPL r v.
Proof.
  split; [|symmetry; apply OPLWriteReg_bus].
  rewrite (OPLWriteReg_bus OPL (r + 256 * j)), (OPLWriteReg_bus OPL r).
  by rewrite !land_add_256.
Qed.

Lemma land_0f_cases (r : Z) :
  let x := Z.land r 0x0f in
  x = 0 \/ x = 1 \/ x = 2 \/ x = 3 \/ x = 4 \/ x = 5 \/ x = 6 \/ x = 7 \/ x = 8 \/
  x = 9 \/ x = 10 \/ x = 11 \/ x = 12 \/ x = 13 \/ x = 14 \/ x = 15.
Proof. intros x. pose proof (land_upper r 0x0f ltac:(lia)). lia. Qed.

(** Registers without a function.  In the control block only 0x01 and
    0x08 are decoded (the timer registers 0x02-0x04 are not); in the
    blocks 0xA0 and 0xC0 a channel number above 8 is ignored.  Nothing
    at all changes in the chip on such a write.  The block 0xC0 is
    decoded from bits 7-5 and 3-0 only, so that 0xD0-0xD8 are second
    addresses of 0xC0-0xC8. *)
Theorem unused_registers_ignored (OPL : FM_OPL) (r v : Z) :
  (Z.land r 0xe0 = 0x00 -> Z.land r 0x1f <> 0x01 -> Z.land r 0x1f <> 0x08 ->
     OPLWriteReg OPL r v = OPL) /\
  (Z.land r 0xe0 = 0xa0 -> Z.land r 0xff <> 0xbd -> 8 < Z.land r 0x0f ->
     OPLWriteReg OPL r v = OPL) /\
  (Z.land r 0xe0 = 0xc0 -> 8 < Z.land r 0x0f -> OPLWriteReg OPL r v = OPL) /\
  (Z.land r 0xe0 = 0xc0 ->
     OPLWriteReg OPL r v = OPLWriteReg OPL (0xc0 + Z.land r 0x0f) v).
Proof.
  split; [|split; [|split]].
  - intros Hr H1 H8. pick_block r.
    apply Z.eqb_neq in H1, H8. by rewrite H1, H8.
  - intros Hr Hbd H8. pick_block r.
    apply Z.eqb_neq in Hbd. rewrite Hbd.
    rewrite (land_land_const r 0xff 0x0f). change (Z.land 0xff 0x0f) with 0x0f.
    apply Z.ltb_lt in H8. by rewrite H8.
  - intros Hr H8. pick_block r.
    rewrite (land_land_const r 0xff 0x0f). change (Z.land 0xff 0x0f) with 0x0f.
    apply Z.ltb_lt in H8. by rewrite H8.
  - intros Hr. pick_block r.
    rewrite !(land_land_const r 0xff 0x0f). change (Z.land 0xff 0x0f) with 0x0f.
    unfold OPLWriteReg. cbv zeta.
    destruct (land_0f_cases r) as
      [E|[E|[E|[E|[E|[E|[E|[E|[E|[E|[E|[E|[E|[E|[E|E]]]]]]]]]]]]]]];
      rewrite E; reflexivity.
Qed.

Lemma unused_registers_ignored_witness :
  OPLWriteReg demo_chip 0x04 0xff = demo_chip /\
  OPLWriteReg demo_chip 0xaf 0xff = demo_chip /\
  OPLWriteReg demo_chip 0xc9 0xff = demo_chip /\
  OPLWriteReg demo_chip 0xd3 0x01 = OPLWriteReg demo_chip 0xc3 0x01.
Proof.
  destruct (unused_registers_ignored demo_chip 0x04 0xff) as (A & _).
  destruct (unused_registers_ignored demo_chip 0xaf 0xff) as (_ & B & _).
  destruct (unused_registers_ignored demo_chip 0xc9 0xff) as (_ & _ & C & _).
  destruct (unused_registers_ignored demo_chip 0xd3 0x01) as (_ & _ & _ & D).
  split; [|split; [|split]].
  - apply A; vm_compute; congruence.
  - apply B; vm_compute; congruence.
  - apply C; vm_compute; congruence.
  - apply D. reflexivity.
Defined.


(** ** What sample generation leaves alone *)

Lemma op_regs_eg_slot cnt op : op_regs (eg_slot cnt op) = op_regs op.
Proof. unfold eg_slot, op_regs. repeat case_goal; slot_eq. Qed.

Lemma op_regs_pg_slot OPL g CH op : op_regs (pg_slot OPL g CH op) = op_regs op.
Proof. unfold pg_slot, op_regs. repeat case_goal; slot_eq. Qed.

Lemma ch_regs_each_slot f CH :
  (forall op, op_regs (f CH op) = op_regs op) -> ch_regs (each_slot f CH) = ch_regs CH.
Proof. intros H. unfold ch_regs, each_slot. rsimpl. by rewrite !H. Qed.

Lemma ch_regs_history b CH :
  ch_regs (in_SLOT1 (fun S => with_op1_out1 b (with_op1_out0 (op1_out1 S) S)) CH)
  = ch_regs CH.
Proof. unfold ch_regs, in_SLOT1. rsimpl. ch_eq. Qed.

Lemma ch_regs_idem CH : ch_regs (ch_regs CH) = ch_regs CH.
Proof. unfold ch_regs. rsimpl. ch_eq. Qed.

(** A property of the channel that looks at the decoded fields only
    survives sample generation. *)
Lemma closed_under_update_regs (Q : OPL_CH -> Prop) :
  (forall CH, Q (ch_regs CH) <-> Q CH) -> closed_under_update Q.
Proof.
  intros HQ.
  assert (forall CH CH', ch_regs CH' = ch_regs CH -> Q CH -> Q CH') as Hr.
  { intros CH CH' E H. apply HQ. rewrite E. by apply HQ. }
  unfold closed_under_update. repeat refine (conj _ _).
  - intros cnt CH. apply Hr, ch_regs_each_slot. intros op. apply op_regs_eg_slot.
  - intros OPL g CH. apply Hr, ch_regs_each_slot. intros op. apply op_regs_pg_slot.
  - intros g CH _. destruct (OPL_CALC_CH_history g CH) as [b ->].
    apply Hr, ch_regs_history.
  - intros g CH6 CH7 CH8 noise _.
    destruct (OPL_CALC_RH_history g CH6 CH7 CH8 noise) as [b ->].
    apply Hr, ch_regs_history.
Qed.

Lemma chip_regs_eg_while n OPL : chip_regs (eg_while n OPL) = chip_regs OPL.
Proof.
  revert OPL. induction n as [|n IH]; intros OPL; [done|].
  cbn [eg_while]. case_goal; [|done]. rewrite IH. unfold eg_tick, chip_regs. chip_eq.
Qed.

Lemma chip_regs_P_CH l OPL : chip_regs (with_P_CH l OPL) = chip_regs OPL.
Proof. unfold chip_regs. chip_eq. Qed.

Lemma chip_regs_advance g OPL : chip_regs (advance g OPL) = chip_regs OPL.
Proof.
  unfold advance. cbv zeta.
  set (OPL1 := with_eg_timer _ OPL). set (OPL2 := eg_while _ OPL1).
  assert (chip_regs OPL2 = chip_regs OPL) as <-
    by (unfold OPL2; rewrite chip_regs_eg_while; unfold OPL1, chip_regs; chip_eq).
  clearbody OPL2. unfold chip_regs. chip_eq.
Qed.

Lemma chip_regs_calc_ch c M : chip_regs (fst (calc_ch c M)) = chip_regs (fst M).
Proof.
  unfold calc_ch. destruct (P_CH (fst M) !! c); [|done].
  destruct (OPL_CALC_CH _ _). apply chip_regs_P_CH.
Qed.

Lemma chip_regs_calc_rh M : chip_regs (fst (calc_rh M)) = chip_regs (fst M).
Proof.
  unfold calc_rh. repeat case_match; try done; apply chip_regs_P_CH.
Qed.

Lemma chip_regs_mix rh M : chip_regs (fst (mix rh M)) = chip_regs (fst M).
Proof.
  unfold mix. destruct (advance_lfo _ _) as [OPL1 g1] eqn:Hl.
  assert (chip_regs OPL1 = chip_regs (fst M)) as <-.
  { unfold advance_lfo in Hl. injection Hl as <- _. unfold chip_regs. chip_eq. }
  case_goal; rewrite ?chip_regs_calc_rh, ?chip_regs_calc_ch; reflexivity.
Qed.

Lemma chip_regs_sample_step rh M :
  chip_regs (fst (fst (sample_step rh M))) = chip_regs (fst M).
Proof. unfold sample_step. rsimpl. by rewrite chip_regs_advance, chip_regs_mix. Qed.

Lemma chip_regs_update_loop rh n M :
  chip_regs (fst (fst (update_loop rh n M))) = chip_regs (fst M).
Proof.
  revert M. induction n as [|n IH]; intros M; [done|]. cbn [update_loop].
  pose proof (chip_regs_sample_step rh M) as H1.
  destruct (sample_step rh M) as [M1 x]. specialize (IH M1).
  destruct (update_loop rh n M1) as [M2 xs]. cbn [fst] in *. congruence.
Qed.

Lemma Forall2_ch_pres (R : OPL_CH -> OPL_CH -> Prop) l l' :
  (forall CH, R CH CH) ->
  (forall CH, ch_pres (fun CH' => R CH CH') l l') ->
  Forall2 R l l'.
Proof.
  intros Hrefl H. apply Forall2_same_length_lookup_2.
  - symmetry. apply (H zero_ch).
  - intros i x y Hx Hy.
    destruct (proj2 (H x) i) as (CH' & Hl & HR); [by exists x|]. congruence.
Qed.

Lemma tabs_connect_add c x g : tabs (connect_add c x g) = tabs g.
Proof. by destruct c. Qed.

Lemma tabs_OPL_CALC_CH g CH : tabs (fst (OPL_CALC_CH g CH)) = tabs g.
Proof.
  unfold OPL_CALC_CH. rsimpl.
  case_goal; unfold output_add, tabs; rsimpl; apply tabs_connect_add.
Qed.

Lemma tabs_rh_bass_drum g CH : tabs (fst (rh_bass_drum g CH)) = tabs g.
Proof. unfold rh_bass_drum, output_add. rsimpl. by repeat (case_goal; rsimpl). Qed.

Lemma tabs_rh_high_hat a b n g : tabs (rh_high_hat a b n g) = tabs g.
Proof. unfold rh_high_hat. by case_goal. Qed.

Lemma tabs_rh_snare_drum a b n g : tabs (rh_snare_drum a b n g) = tabs g.
Proof. unfold rh_snare_drum. by case_goal. Qed.

Lemma tabs_rh_tom_tom a g : tabs (rh_tom_tom a g) = tabs g.
Proof. unfold rh_tom_tom. by case_goal. Qed.

Lemma tabs_rh_top_cymbal a b g : tabs (rh_top_cymbal a b g) = tabs g.
Proof. unfold rh_top_cymbal. by case_goal. Qed.

Lemma tabs_OPL_CALC_RH g CH6 CH7 CH8 noise :
  tabs (fst (OPL_CALC_RH g CH6 CH7 CH8 noise)) = tabs g.
Proof.
  unfold OPL_CALC_RH. rsimpl.
  by rewrite tabs_rh_top_cymbal, tabs_rh_tom_tom, tabs_rh_snare_drum, tabs_rh_high_hat,
    tabs_rh_bass_drum.
Qed.

Lemma tabs_calc_ch c M : tabs (snd (calc_ch c M)) = tabs (snd M).
Proof.
  unfold calc_ch. destruct (P_CH (fst M) !! c) as [CH|]; [|done].
  pose proof (tabs_OPL_CALC_CH (snd M) CH) as H.
  destruct (OPL_CALC_CH _ _). exact H.
Qed.

Lemma tabs_calc_rh M : tabs (snd (calc_rh M)) = tabs (snd M).
Proof.
  unfold calc_rh.
  destruct (P_CH (fst M) !! 6%nat) as [CH6|]; [|done].
  destruct (P_CH (fst M) !! 7%nat) as [CH7|]; [|done].
  destruct (P_CH (fst M) !! 8%nat) as [CH8|]; [|done].
  match goal with |- context [OPL_CALC_RH ?g ?a ?b ?c ?n] =>
    pose proof (tabs_OPL_CALC_RH g a b c n) as H; destruct (OPL_CALC_RH g a b c n) end.
  exact H.
Qed.

Lemma tabs_mix rh M : tabs (snd (mix rh M)) = tabs (snd M).
Proof.
  unfold mix. destruct (advance_lfo _ _) as [OPL1 g1] eqn:Hl.
  assert (tabs g1 = tabs (snd M)) as <-
    by (unfold advance_lfo in Hl; by injection Hl as _ <-).
  case_goal; rewrite ?tabs_calc_rh, ?tabs_calc_ch; reflexivity.
Qed.

Lemma tabs_update_loop rh n M : tabs (snd (fst (update_loop rh n M))) = tabs (snd M).
Proof.
  revert M. induction n as [|n IH]; intros M; [done|]. cbn [update_loop].
  assert (tabs (snd (fst (sample_step rh M))) = tabs (snd M)) as H1
    by (unfold sample_step; rsimpl; apply tabs_mix).
  destruct (sample_step rh M) as [M1 x]. specialize (IH M1).
  destruct (update_loop rh n M1) as [M2 xs]. cbn [fst snd] in *. congruence.
Qed.

(** Sample generation advances counters, envelopes and output
    histories and nothing else: the registers of the chip, the decoded
    fields of every channel and operator, and the two tables are after
    [ym3812_update_one] what they were before. *)
Theorem update_one_frame (M : machine) (n : Z) :
  let M' := fst (ym3812_update_one M n) in
  chip_regs (fst M') = chip_regs (fst M) /\
  Forall2 (fun CH CH' => ch_regs CH' = ch_regs CH) (P_CH (fst M)) (P_CH (fst M')) /\
  tabs (snd M') = tabs (snd M).
Proof.
  cbv zeta. split; [apply chip_regs_update_loop|]. split; [|apply tabs_update_loop].
  apply Forall2_ch_pres; [done|]. intros CH.
  apply ym3812_update_one_pres, closed_under_update_regs.
  intros CH'. by rewrite ch_regs_idem.
Qed.

(** ** Invariants of a created chip *)

(** The channels of a new chip do not depend on the clock, the rate or
    the tables. *)
Lemma init_channels fp g clock' rate' :
  P_CH (fst (ym3812_init fp g clock' rate')) = P_CH demo_chip.
Proof. vm_compute. reflexivity. Qed.

(** An invariant of the channels that holds in a new chip holds after
    every sequence of calls. *)
Lemma run_invariant (Q : OPL_CH -> Prop) fp g clock' rate' es :
  closed_under_update Q -> closed_under_decode Q -> closed_under_keyon Q ->
  closed_under_reset Q -> Forall Q (P_CH demo_chip) ->
  Forall Q (P_CH (fst (fst (run (ym3812_init fp g clock' rate') es)))).
Proof.
  intros HU HD HK HR H0. eapply ch_pres_Forall; [by apply run_pres|].
  by rewrite init_channels.
Qed.

Ltac state_lia :=
  unfold state_ok in *; rsimpl in *;
  unfold EG_ATT, EG_DEC, EG_SUS, EG_REL, EG_OFF in *; lia.

Lemma state_ok_ext (a b : OPL_SLOT) : state a = state b -> state_ok b -> state_ok a.
Proof. unfold state_ok. by intros ->. Qed.

Ltac state_frame :=
  let S := fresh "S" in let H := fresh "H" in
  intros S H; apply (state_ok_ext _ S); [|exact H];
  rsimpl; repeat (case_goal; rsimpl); reflexivity.

Lemma state_ok_eg_slot cnt S : state_ok S -> state_ok (eg_slot cnt S).
Proof.
  intros H. unfold eg_slot. repeat (case_goal; rsimpl); try done; state_lia.
Qed.

Lemma state_ok_CALC_FCSLOT CH S : state_ok S -> state_ok (CALC_FCSLOT CH S).
Proof.
  revert S. unfold CALC_FCSLOT, set_rr_rates, set_dr_rates, set_ar_rates. state_frame.
Qed.

Lemma state_ok_FM_KEYON k S : state_ok S -> state_ok (FM_KEYON k S).
Proof. intros H. unfold FM_KEYON. case_goal; rsimpl; [done|]. state_lia. Qed.

Lemma state_ok_FM_KEYOFF k S : state_ok S -> state_ok (FM_KEYOFF k S).
Proof.
  intros H. unfold FM_KEYOFF. repeat (case_goal; rsimpl); try done; state_lia.
Qed.

Lemma state_ok_update : closed_under_update (both state_ok).
Proof.
  unfold closed_under_update. split; [|split; [|split]].
  - intros cnt CH. apply both_each_slot. intros S. apply state_ok_eg_slot.
  - intros OPL g CH. apply both_each_slot. unfold pg_slot. state_frame.
  - intros g CH _ HQ. destruct (OPL_CALC_CH_history g CH) as [b ->].
    revert HQ. apply both_in_SLOT1. state_frame.
  - intros g CH6 CH7 CH8 noise _ HQ.
    destruct (OPL_CALC_RH_history g CH6 CH7 CH8 noise) as [b ->].
    revert HQ. apply both_in_SLOT1. state_frame.
Qed.

Lemma state_ok_decode : closed_under_decode (both state_ok).
Proof.
  unfold closed_under_decode. repeat refine (conj _ _).
  - intros s v CH _. apply both_in_slot. intros S HS. unfold set_mul_slot.
    apply state_ok_CALC_FCSLOT. revert S HS. state_frame.
  - intros s v CH _. apply both_in_slot.
    unfold set_ksl_tl_slot, refresh_TLL. state_frame.
  - intros s v CH _. apply both_in_slot.
    unfold set_ar_dr_slot, set_dr_rates, set_ar_rates. state_frame.
  - intros s v CH _. apply both_in_slot.
    unfold set_sl_rr_slot, set_rr_rates. state_frame.
  - intros s v CH _. apply both_in_slot. unfold set_wavetable_slot. state_frame.
  - intros v CH _. apply both_in_SLOT1. unfold write_fb_con. state_frame.
  - intros OPL bfn CH _ [H1 H2]. unfold update_block_fnum, in_SLOT1, in_SLOT2. rsimpl.
    split; rsimpl; by apply state_ok_CALC_FCSLOT.
  - intros k CH. apply both_in_SLOT1. intros S. apply state_ok_FM_KEYOFF.
  - intros k CH. apply both_in_SLOT2. intros S. apply state_ok_FM_KEYOFF.
Qed.

Lemma state_ok_keyon : closed_under_keyon (both state_ok).
Proof.
  split; intros k CH; [apply both_in_SLOT1 | apply both_in_SLOT2];
    intros S; apply state_ok_FM_KEYON.
Qed.

Lemma state_ok_reset : closed_under_reset (both state_ok).
Proof.
  intros CH. apply both_each_slot. intros S H. unfold reset_slot. state_lia.
Qed.

Lemma Forall_demo (Q : OPL_CH -> Prop) : Q demo_ch -> Forall Q (P_CH demo_chip).
Proof.
  intros H.
  assert (P_CH demo_chip = replicate 9 demo_ch) as -> by (vm_compute; reflexivity).
  by apply Forall_replicate.
Qed.

(** The envelope state of every operator of a created chip is, after
    any sequence of calls, one of [EG_OFF], [EG_REL], [EG_SUS],
    [EG_DEC], [EG_ATT]. *)
Theorem envelope_state_in_range (fp : fp_derived) (g : globals) (clock' rate' : Z)
    (es : list event) :
  Forall (fun op => state op ∈ [EG_OFF; EG_REL; EG_SUS; EG_DEC; EG_ATT])
    (slots (fst (fst (run (ym3812_init fp g clock' rate') es)))).
Proof.
  apply Forall_slots. eapply Forall_impl with (P := both state_ok).
  - apply run_invariant;
      [apply state_ok_update | apply state_ok_decode | apply state_ok_keyon
      | apply state_ok_reset |].
    apply Forall_demo. vm_compute. repeat split; discriminate.
  - intros CH [H1 H2]. unfold state_ok, EG_ATT, EG_DEC, EG_SUS, EG_REL, EG_OFF in *.
    split; rewrite !elem_of_cons; lia.
Qed.

(** ** The derived fields *)

Lemma CALC_FCSLOT_ksr CH S : ksr (CALC_FCSLOT CH S) = Z.shiftr (kcode CH) (KSR S).
Proof.
  unfold CALC_FCSLOT, set_rr_rates, set_dr_rates, set_ar_rates. rsimpl.
  destruct (Z.eqb_spec (ksr S) (Z.shiftr (kcode CH) (KSR S))); rsimpl; [done|].
  by case_goal.
Qed.

Lemma CALC_FCSLOT_level CH S :
  TLL (CALC_FCSLOT CH S) = TLL S /\ TL (CALC_FCSLOT CH S) = TL S /\
  ksl (CALC_FCSLOT CH S) = ksl S.
Proof.
  unfold CALC_FCSLOT, set_rr_rates, set_dr_rates, set_ar_rates. rsimpl.
  repeat (case_goal; rsimpl); done.
Qed.

Lemma derived_CALC_FCSLOT CH S :
  TLL S = u32 (TL S + Z.shiftr (ksl_base CH) (ksl S)) ->
  derived_slot CH (CALC_FCSLOT CH S).
Proof.
  intros H. unfold derived_slot.
  destruct (CALC_FCSLOT_level CH S) as (-> & -> & ->).
  by rewrite CALC_FCSLOT_Incr, CALC_FCSLOT_mul, CALC_FCSLOT_ksr, CALC_FCSLOT_KSR.
Qed.

(** Settle [derived_slot] for an operator function that leaves its
    seven fields alone. *)
Ltac derived_frame :=
  let H := fresh "H" in
  intros H; unfold derived_slot in *; rsimpl; repeat (case_goal; rsimpl); exact H.

Lemma derived_in_SLOT1 f CH :
  (derived_slot CH (SLOT1 CH) -> derived_slot CH (f (SLOT1 CH))) ->
  derived_ok CH -> derived_ok (in_SLOT1 f CH).
Proof. intros Hf [H1 H2]. split; [by apply Hf | done]. Qed.

Lemma derived_in_SLOT2 f CH :
  (derived_slot CH (SLOT2 CH) -> derived_slot CH (f (SLOT2 CH))) ->
  derived_ok CH -> derived_ok (in_SLOT2 f CH).
Proof. intros Hf [H1 H2]. split; [done | by apply Hf]. Qed.

Lemma derived_in_slot s f CH :
  (forall S, derived_slot CH S -> derived_slot CH (f CH S)) ->
  derived_ok CH -> derived_ok (in_slot s f CH).
Proof.
  intros Hf HP. unfold in_slot.
  case_goal; [apply derived_in_SLOT1 | apply derived_in_SLOT2]; auto.
Qed.

Lemma derived_ok_update : closed_under_update derived_ok.
Proof. apply closed_under_update_regs. intros CH. reflexivity. Qed.

Lemma derived_ok_decode : closed_under_decode derived_ok.
Proof.
  unfold closed_under_decode. repeat refine (conj _ _).
  - intros s v CH _. apply derived_in_slot. intros S (HT & _). unfold set_mul_slot.
    by apply derived_CALC_FCSLOT.
  - intros s v CH _. apply derived_in_slot. intros S (_ & HI & Hk).
    unfold set_ksl_tl_slot, refresh_TLL, derived_slot. by rsimpl.
  - intros s v CH _. apply derived_in_slot. intros S.
    unfold set_ar_dr_slot, set_dr_rates, set_ar_rates. derived_frame.
  - intros s v CH _. apply derived_in_slot. intros S.
    unfold set_sl_rr_slot, set_rr_rates. derived_frame.
  - intros s v CH _. apply derived_in_slot. intros S.
    unfold set_wavetable_slot. derived_frame.
  - intros v CH _. apply derived_in_SLOT1. unfold write_fb_con. derived_frame.
  - intros OPL bfn CH _ _. unfold update_block_fnum. cbv zeta.
    set (CH4 := with_kcode _ _).
    set (CH5 := in_SLOT2 (refresh_TLL CH4) (in_SLOT1 (refresh_TLL CH4) CH4)).
    assert (forall S, derived_slot CH5 (CALC_FCSLOT CH5 (refresh_TLL CH4 S))) as HS.
    { intros S. apply derived_CALC_FCSLOT. reflexivity. }
    split; apply HS.
  - intros k CH. apply derived_in_SLOT1. unfold FM_KEYOFF. derived_frame.
  - intros k CH. apply derived_in_SLOT2. unfold FM_KEYOFF. derived_frame.
Qed.

Lemma derived_ok_keyon : closed_under_keyon derived_ok.
Proof.
  split; intros k CH; [apply derived_in_SLOT1 | apply derived_in_SLOT2];
    unfold FM_KEYON; derived_frame.
Qed.

Lemma derived_ok_reset : closed_under_reset derived_ok.
Proof.
  intros CH [H1 H2]. unfold each_slot, reset_slot. split; [exact H1 | exact H2].
Qed.

(** In every channel of a created chip, after any sequence of calls,
    the fields that the decoder derives are up to date: [TLL] is [TL]
    plus the key scale level of the channel, [Incr] is [fc * mul], and
    [ksr] is [kcode >> KSR]. *)
Theorem derived_fields_consistent (fp : fp_derived) (g : globals) (clock' rate' : Z)
    (es : list event) :
  Forall
    (fun CH =>
       Forall (fun op =>
                 TLL op = u32 (TL op + Z.shiftr (ksl_base CH) (ksl op)) /\
                 Incr op = u32 (fc CH * mul op) /\
                 ksr op = Z.shiftr (kcode CH) (KSR op)) [SLOT1 CH; SLOT2 CH])
    (P_CH (fst (fst (run (ym3812_init fp g clock' rate') es)))).
Proof.
  eapply Forall_impl with (P := derived_ok).
  - apply run_invariant;
      [apply derived_ok_update | apply derived_ok_decode | apply derived_ok_keyon
      | apply derived_ok_reset |].
    apply Forall_demo. vm_compute. repeat split; reflexivity.
  - intros CH [H1 H2]. constructor; [exact H1|]. constructor; [exact H2|]. constructor.
Qed.

(** ** The envelope rates *)

Ltac rates_frame :=
  let H := fresh "H" in
  intros H; unfold rates_ok in *; rsimpl; repeat (case_goal; rsimpl); exact H.

Lemma rates_ok_CALC_FCSLOT CH S : rates_ok S -> rates_ok (CALC_FCSLOT CH S).
Proof.
  intros H. unfold CALC_FCSLOT. rsimpl. case_goal; [revert H; rates_frame|].
  unfold set_rr_rates, set_dr_rates, set_ar_rates, rates_ok. rsimpl.
  destruct (ar S + Z.shiftr (kcode CH) (KSR S) <? 16 + 62) eqn:E; rsimpl; rewrite ?E; done.
Qed.

Lemma rates_ok_update : closed_under_update (both rates_ok).
Proof. apply closed_under_update_regs. intros CH. reflexivity. Qed.

Lemma rates_ok_decode : closed_under_decode (both rates_ok).
Proof.
  unfold closed_under_decode. repeat refine (conj _ _).
  - intros s v CH _. apply both_in_slot. intros S HS. unfold set_mul_slot.
    apply rates_ok_CALC_FCSLOT. revert HS. rates_frame.
  - intros s v CH _. apply both_in_slot. intros S.
    unfold set_ksl_tl_slot, refresh_TLL. rates_frame.
  - intros s v CH _. apply both_in_slot. intros S (_ & _ & _ & _ & H5 & H6).
    unfold set_ar_dr_slot, set_dr_rates, set_ar_rates, rates_ok. rsimpl.
    set (a := if nz (Z.shiftr v 4) then _ else _).
    destruct (a + ksr S <? 16 + 62) eqn:E; rsimpl; rewrite ?E; done.
  - intros s v CH _. apply both_in_slot. intros S (H1 & H2 & H3 & H4 & _).
    unfold set_sl_rr_slot, set_rr_rates, rates_ok. by rsimpl.
  - intros s v CH _. apply both_in_slot. intros S.
    unfold set_wavetable_slot. rates_frame.
  - intros v CH _. apply both_in_SLOT1. intros S. unfold write_fb_con. rates_frame.
  - intros OPL bfn CH _ [H1 H2]. unfold update_block_fnum, in_SLOT1, in_SLOT2. rsimpl.
    split; rsimpl; apply rates_ok_CALC_FCSLOT; unfold refresh_TLL;
      [revert H1 | revert H2]; rates_frame.
  - intros k CH. apply both_in_SLOT1. intros S. unfold FM_KEYOFF. rates_frame.
  - intros k CH. apply both_in_SLOT2. intros S. unfold FM_KEYOFF. rates_frame.
Qed.

Lemma rates_ok_keyon : closed_under_keyon (both rates_ok).
Proof.
  split; intros k CH; [apply both_in_SLOT1 | apply both_in_SLOT2];
    intros S; unfold FM_KEYON; rates_frame.
Qed.

Lemma rates_ok_reset : closed_under_reset (both rates_ok).
Proof. intros CH. apply both_each_slot. intros S. unfold reset_slot. rates_frame. Qed.

(** In every operator of a created chip, after any sequence of calls,
    the shift and select values of the three envelope rates are those
    that [eg_rate_shift] and [eg_rate_select] hold for the operator's
    [ar], [dr], [rr] and its current key scale rate. *)
Theorem envelope_rates_consistent (fp : fp_derived) (g : globals) (clock' rate' : Z)
    (es : list event) :
  Forall rates_ok (slots (fst (fst (run (ym3812_init fp g clock' rate') es)))).
Proof.
  apply Forall_slots.
  apply run_invariant;
    [apply rates_ok_update | apply rates_ok_decode | apply rates_ok_keyon
    | apply rates_ok_reset |].
  apply Forall_demo. vm_compute. repeat split; reflexivity.
Qed.

(** ** The ranges of the decoded fields *)

Lemma mul_tab8_range (v : Z) : 1 <= tab mul_tab8 (Z.land v 0x0f) <= 30.
Proof.
  destruct (land_0f_cases v) as
    [E|[E|[E|[E|[E|[E|[E|[E|[E|[E|[E|[E|[E|[E|[E|E]]]]]]]]]]]]]]];
    rewrite E; vm_compute; split; discriminate.
Qed.

Lemma rate_range (x : Z) :
  0 <= x <= 15 -> 0 <= (if nz x then 16 + Z.shiftl x 2 else 0) <= 76.
Proof.
  intros Hx. destruct (nz x); [|lia]. rewrite Z.shiftl_mul_pow2 by lia. lia.
Qed.

Lemma shiftr_4_range (v : Z) : 0 <= v <= 255 -> 0 <= Z.shiftr v 4 <= 15.
Proof. intros Hv. rewrite Z.shiftr_div_pow2 by lia. change (2 ^ 4) with 16. zlia. Qed.

Ltac regs_frame :=
  let H := fresh "H" in
  intros H; unfold regs_ok in *; rsimpl; repeat (case_goal; rsimpl); exact H.

Lemma regs_ok_CALC_FCSLOT CH S :
  0 <= TL S <= 252 /\ 1 <= mul S <= 30 /\ 0 <= sl S <= 496 /\
  0 <= ar S <= 76 /\ 0 <= dr S <= 76 /\ 0 <= rr S <= 76 /\
  (KSR S = 0 \/ KSR S = 2) /\ 0 <= ksl S <= 31 /\
  0 <= wavetable S <= 3 /\ 0 <= FB S <= 14 ->
  regs_ok (CALC_FCSLOT CH S).
Proof.
  intros H. unfold regs_ok.
  assert (0 <= Incr (CALC_FCSLOT CH S) < 2 ^ 32) as HI
    by (rewrite CALC_FCSLOT_Incr; unfold u32; apply Z.mod_pos_bound; lia).
  revert HI. unfold CALC_FCSLOT, set_rr_rates, set_dr_rates, set_ar_rates. rsimpl.
  repeat (case_goal; rsimpl); intros HI; tauto.
Qed.

Lemma regs_ok_update : closed_under_update (both regs_ok).
Proof. apply closed_under_update_regs. intros CH. reflexivity. Qed.

Lemma regs_ok_decode : closed_under_decode (both regs_ok).
Proof.
  unfold closed_under_decode. repeat refine (conj _ _).
  - intros s v CH Hv. apply both_in_slot. intros S HS. unfold set_mul_slot.
    apply regs_ok_CALC_FCSLOT. unfold regs_ok in HS. rsimpl.
    pose proof (mul_tab8_range v) as Hm.
    assert (u8 (tab mul_tab8 (Z.land v 15)) = tab mul_tab8 (Z.land v 15)) as ->
      by (unfold u8; apply Z.mod_small; lia).
    destruct (nz (Z.land v 16)); tauto.
  - intros s v CH Hv. apply both_in_slot. intros S HS.
    unfold set_ksl_tl_slot, refresh_TLL, regs_ok in *. rsimpl.
    pose proof (land_upper v 0x3f ltac:(lia)).
    assert (0 <= Z.shiftr v 6 <= 3)
      by (rewrite Z.shiftr_div_pow2 by lia; change (2 ^ 6) with 64; zlia).
    change (ENV_BITS - 1 - 7) with 2. rewrite Z.shiftl_mul_pow2 by lia.
    assert (0 <= (if nz (Z.shiftr v 6) then 3 - Z.shiftr v 6 else 31) <= 31)
      by (destruct (nz (Z.shiftr v 6)); lia).
    repeat split; try tauto; lia.
  - intros s v CH Hv. apply both_in_slot. intros S HS.
    unfold set_ar_dr_slot, set_dr_rates, set_ar_rates, regs_ok in *.
    pose proof (rate_range (Z.shiftr v 4) (shiftr_4_range v Hv)).
    pose proof (rate_range (Z.land v 15) (land_upper v 15 ltac:(lia))).
    rsimpl. repeat (case_goal; rsimpl); tauto.
  - intros s v CH Hv. apply both_in_slot. intros S HS.
    unfold set_sl_rr_slot, set_rr_rates, regs_ok in *. rsimpl.
    pose proof (rate_range (Z.land v 15) (land_upper v 15 ltac:(lia))).
    pose proof (tab_bounds sl_tab 0 248 (Z.shiftr v 4) sl_tab_bounds ltac:(lia)).
    rewrite Z.shiftl_mul_pow2 by lia. repeat split; try tauto; lia.
  - intros s v CH Hv. apply both_in_slot. intros S HS.
    unfold set_wavetable_slot, regs_ok in *. rsimpl.
    pose proof (land_upper v 3 ltac:(lia)).
    assert (u16 (Z.land v 3) = Z.land v 3) as -> by (unfold u16; apply Z.mod_small; lia).
    repeat split; try tauto; lia.
  - intros v CH Hv. apply both_in_SLOT1. intros S HS.
    unfold write_fb_con, regs_ok in *. rsimpl.
    pose proof (land_upper (Z.shiftr v 1) 7 ltac:(lia)).
    assert (0 <= (if nz (Z.land (Z.shiftr v 1) 7) then Z.land (Z.shiftr v 1) 7 + 7 else 0)
            <= 14) by (destruct (nz _); lia).
    repeat split; try tauto; lia.
  - intros OPL bfn CH _ [H1 H2]. unfold update_block_fnum, in_SLOT1, in_SLOT2. rsimpl.
    split; rsimpl; apply regs_ok_CALC_FCSLOT; unfold refresh_TLL, regs_ok in *; rsimpl;
      tauto.
  - intros k CH. apply both_in_SLOT1. intros S. unfold FM_KEYOFF. regs_frame.
  - intros k CH. apply both_in_SLOT2. intros S. unfold FM_KEYOFF. regs_frame.
Qed.

Lemma regs_ok_keyon : closed_under_keyon (both regs_ok).
Proof.
  split; intros k CH; [apply both_in_SLOT1 | apply both_in_SLOT2];
    intros S; unfold FM_KEYON; regs_frame.
Qed.

Lemma regs_ok_reset : closed_under_reset (both regs_ok).
Proof.
  intros CH. apply both_each_slot. intros S HS. unfold reset_slot, regs_ok in *. rsimpl.
  repeat split; try tauto; lia.
Qed.

(** The fields that the decoder writes stay in the ranges of their
    registers, in every operator of a created chip and after any
    sequence of calls: the total level is at most 252, the multiplier is
    between 1 and 30, the sustain level at most 496, each rate at most
    76, the waveform at most 3, the feedback shift at most 14; and the
    phase increment is never negative. *)
Theorem decoded_fields_in_range (fp : fp_derived) (g : globals) (clock' rate' : Z)
    (es : list event) :
  Forall regs_ok (slots (fst (fst (run (ym3812_init fp g clock' rate') es)))).
Proof.
  apply Forall_slots.
  apply run_invariant;
    [apply regs_ok_update | apply regs_ok_decode | apply regs_ok_keyon
    | apply regs_ok_reset |].
  apply Forall_demo. vm_compute. intuition discriminate.
Qed.


(** ** What a register write leaves alone *)

Lemma chip_hold_P_CH l OPL : chip_hold (with_P_CH l OPL) = chip_hold OPL.
Proof. unfold chip_hold. chip_eq. Qed.

Lemma chip_hold_write_rhythm OPL v : chip_hold (write_rhythm OPL v) = chip_hold OPL.
Proof. unfold write_rhythm. rsimpl. case_goal; rewrite chip_hold_P_CH; unfold chip_hold; chip_eq. Qed.

Lemma chip_hold_OPLWriteReg OPL r v : chip_hold (OPLWriteReg OPL r v) = chip_hold OPL.
Proof.
  unfold OPLWriteReg, set_mul, set_ksl_tl, set_ar_dr, set_sl_rr, on_slot. cbv zeta.
  repeat case_goal; try reflexivity; try apply chip_hold_P_CH;
    try apply chip_hold_write_rhythm; unfold chip_hold; chip_eq.
Qed.

Lemma land_e0_high (x : Z) : 0x20 <= Z.land x 0xff -> Z.land (Z.land x 0xff) 0xe0 <> 0.
Proof.
  intros Hx E. pose proof (land_upper (Z.land x 0xff) 0x1f ltac:(lia)) as H1.
  assert (Z.land x 0xff = Z.land (Z.land x 0xff) 0x1f) as E2.
  { transitivity (Z.land (Z.land x 0xff) (Z.lor 0xe0 0x1f)).
    - change (Z.lor 0xe0 0x1f) with 0xff. by rewrite land_land_const.
    - rewrite Z.land_lor_distr_r, E. apply Z.lor_0_l. }
  lia.
Qed.

Lemma OPLWriteReg_mode_wavesel OPL r v :
  0x20 <= Z.land r 0xff ->
  mode (OPLWriteReg OPL r v) = mode OPL /\ wavesel (OPLWriteReg OPL r v) = wavesel OPL.
Proof.
  intros Hr. apply land_e0_high, Z.eqb_neq in Hr.
  unfold OPLWriteReg, set_mul, set_ksl_tl, set_ar_dr, set_sl_rr, on_slot, write_rhythm.
  cbv zeta. rewrite Hr. repeat case_goal; done.
Qed.

Lemma OPLWriteReg_rhythm OPL r v :
  Z.land r 0xff <> 0xbd ->
  rhythm (OPLWriteReg OPL r v) = rhythm OPL /\
  lfo_am_depth (OPLWriteReg OPL r v) = lfo_am_depth OPL /\
  lfo_pm_depth_range (OPLWriteReg OPL r v) = lfo_pm_depth_range OPL.
Proof.
  intros Hr. apply Z.eqb_neq in Hr.
  unfold OPLWriteReg, set_mul, set_ksl_tl, set_ar_dr, set_sl_rr, on_slot.
  cbv zeta. rewrite Hr. repeat case_goal; done.
Qed.

(** A register write changes the channels, [wavesel], [mode], [rhythm]
    and the LFO depths, and nothing else in the chip: not the counters,
    not the noise register, not [status], its mask or [address].  Of
    those five, only register 0xBD changes [rhythm] and the depths, and
    no register from 0x20 on changes [mode] or [wavesel]. *)
Theorem register_write_frame (OPL : FM_OPL) (r v : Z) :
  chip_hold (OPLWriteReg OPL r v) = chip_hold OPL /\
  length (P_CH (OPLWriteReg OPL r v)) = length (P_CH OPL) /\
  (Z.land r 0xff <> 0xbd ->
     rhythm (OPLWriteReg OPL r v) = rhythm OPL /\
     lfo_am_depth (OPLWriteReg OPL r v) = lfo_am_depth OPL /\
     lfo_pm_depth_range (OPLWriteReg OPL r v) = lfo_pm_depth_range OPL) /\
  (0x20 <= Z.land r 0xff ->
     mode (OPLWriteReg OPL r v) = mode OPL /\
     wavesel (OPLWriteReg OPL r v) = wavesel OPL).
Proof.
  split; [apply chip_hold_OPLWriteReg|]. split.
  - apply (OPLWriteReg_pres (fun _ => True) closed_under_decode_True). by right.
  - split; [apply OPLWriteReg_rhythm | apply OPLWriteReg_mode_wavesel].
Qed.

Lemma register_write_frame_witness :
  rhythm (OPLWriteReg demo_chip 0x43 0xff) = rhythm demo_chip /\
  mode (OPLWriteReg demo_chip 0x43 0xff) = mode demo_chip.
Proof.
  destruct (register_write_frame demo_chip 0x43 0xff) as (_ & _ & A & B).
  split; [apply A | apply B]; vm_compute; congruence.
Defined.

(** ** Reset *)

Lemma write_zero_down_app m n hi OPL :
  write_zero_down (m + n) hi OPL
  = write_zero_down n (hi - Z.of_nat m) (write_zero_down m hi OPL).
Proof.
  revert hi OPL. induction m as [|m IH]; intros hi OPL.
  - cbn [Nat.add write_zero_down]. f_equal. lia.
  - cbn [Nat.add write_zero_down]. rewrite IH. f_equal. lia.
Qed.

Lemma write_zero_down_one hi OPL : write_zero_down 1 hi OPL = OPLWriteReg OPL hi 0.
Proof. reflexivity. Qed.

Lemma write_zero_down_frame {A} (f : FM_OPL -> A) (ok : Z -> Prop) :
  (forall OPL r, ok r -> f (OPLWriteReg OPL r 0) = f OPL) ->
  forall n hi OPL,
    (forall r, hi - Z.of_nat n < r <= hi -> ok r) ->
    f (write_zero_down n hi OPL) = f OPL.
Proof.
  intros Hf. induction n as [|n IH]; intros hi OPL Hok; [done|].
  cbn [write_zero_down]. rewrite IH by (intros r Hr; apply Hok; lia).
  apply Hf, Hok. lia.
Qed.

Lemma land_ff_small (r : Z) : 0 <= r <= 255 -> Z.land r 0xff = r.
Proof.
  intros Hr. change 0xff with (Z.ones 8). rewrite Z.land_ones by lia.
  apply Z.mod_small. lia.
Qed.

Lemma write_zero_down_high (f : FM_OPL -> Z) n hi OPL :
  (forall OPL r v, 0x20 <= Z.land r 0xff -> f (OPLWriteReg OPL r v) = f OPL) ->
  0x20 <= hi - Z.of_nat n + 1 -> hi <= 0xff ->
  f (write_zero_down n hi OPL) = f OPL.
Proof.
  intros Hf Hlo Hhi.
  apply (write_zero_down_frame f (fun r => 0x20 <= r <= 0xff)); [|lia].
  intros O r Hr. apply Hf. rewrite land_ff_small; lia.
Qed.

Lemma write_zero_down_not_bd (f : FM_OPL -> Z) n hi OPL :
  (forall OPL r v, Z.land r 0xff <> 0xbd -> f (OPLWriteReg OPL r v) = f OPL) ->
  0 <= hi - Z.of_nat n + 1 -> hi <= 0xff ->
  (hi < 0xbd \/ 0xbd < hi - Z.of_nat n + 1) ->
  f (write_zero_down n hi OPL) = f OPL.
Proof.
  intros Hf Hlo Hhi Hbd.
  apply (write_zero_down_frame f (fun r => 0 <= r <= 0xff /\ r <> 0xbd)); [|lia].
  intros O r [Hr Hn]. apply Hf. rewrite land_ff_small; lia.
Qed.

Lemma reset_low_writes OPL :
  OPLWriteReg (OPLWriteReg (OPLWriteReg OPL 0x02 0) 0x03 0) 0x04 0 = OPL.
Proof. reflexivity. Qed.

Lemma write_bd_0 OPL :
  rhythm (OPLWriteReg OPL 0xbd 0) = 0 /\ lfo_am_depth (OPLWriteReg OPL 0xbd 0) = 0 /\
  lfo_pm_depth_range (OPLWriteReg OPL 0xbd 0) = 0.
Proof.
  unfold OPLWriteReg. change (Z.land 0xbd 0xff) with 0xbd. change (Z.land 0 0xff) with 0.
  cbv zeta. change (Z.land 0xbd 0xe0 =? 0) with false.
  change (Z.land 0xbd 0xe0 =? 0x20) with false.
  change (Z.land 0xbd 0xe0 =? 0x40) with false. change (Z.land 0xbd 0xe0 =? 0x60) with false.
  change (Z.land 0xbd 0xe0 =? 0x80) with false. change (Z.land 0xbd 0xe0 =? 0xa0) with true.
  change (0xbd =? 0xbd) with true. cbv iota.
  unfold write_rhythm. rsimpl. by case_goal.
Qed.

Lemma write_01_0 OPL :
  mode (OPLWriteReg OPL 0x01 0) = mode OPL /\
  chip_hold (OPLWriteReg OPL 0x01 0) = chip_hold OPL /\
  wavesel (OPLWriteReg OPL 0x01 0)
  = if nz (Z.land (type OPL) OPL_TYPE_WAVESEL) then 0 else wavesel OPL.
Proof.
  split; [|split; [apply chip_hold_OPLWriteReg|]];
    unfold OPLWriteReg; cbv zeta;
    change (Z.land (Z.land 0x01 0xff) 0xe0 =? 0) with true;
    change (Z.land (Z.land 0x01 0xff) 0x1f =? 0x01) with true; cbv iota;
    by case_goal.
Qed.

Lemma OPLResetChip_split OPL :
  OPLResetChip OPL
  = let OPL1 := OPL_STATUS_RESET 0x7f
                  (with_mode 0 (with_noise_rng 1 (with_eg_cnt 0 (with_eg_timer 0 OPL)))) in
    let OPL5 :=
      write_zero_down 157 0xbc
        (OPLWriteReg (write_zero_down 66 0xff (OPLWriteReg OPL1 0x01 0)) 0xbd 0) in
    with_P_CH (for_slots (fun _ => reset_slot) (P_CH OPL5)) OPL5.
Proof.
  unfold OPLResetChip. cbv zeta.
  rewrite reset_low_writes.
  change (Z.to_nat (0xff - 0x20 + 1)) with (66 + (1 + 157))%nat.
  rewrite (write_zero_down_app 66 (1 + 157)), (write_zero_down_app 1 157).
  change (0xff - Z.of_nat 66) with 0xbd. change (0xbd - Z.of_nat 1) with 0xbc.
  rewrite (write_zero_down_one 0xbd). reflexivity.
Qed.

Ltac high_step f H :=
  etransitivity;
  [apply (write_zero_down_high f _ _ _ H); vm_compute; discriminate|].

Lemma reset_writes OPL1 :
  let OPL5 :=
    write_zero_down 157 0xbc
      (OPLWriteReg (write_zero_down 66 0xff (OPLWriteReg OPL1 0x01 0)) 0xbd 0) in
  chip_hold OPL5 = chip_hold OPL1 /\ mode OPL5 = mode OPL1 /\
  wavesel OPL5 = (if nz (Z.land (type OPL1) OPL_TYPE_WAVESEL) then 0 else wavesel OPL1) /\
  rhythm OPL5 = 0 /\ lfo_am_depth OPL5 = 0 /\ lfo_pm_depth_range OPL5 = 0.
Proof.
  cbv zeta.
  destruct (write_bd_0 (write_zero_down 66 0xff (OPLWriteReg OPL1 0x01 0)))
    as (B1 & B2 & B3).
  destruct (write_01_0 OPL1) as (W1 & W2 & W3).
  assert (forall O n hi, chip_hold (write_zero_down n hi O) = chip_hold O) as Hh.
  { intros O n hi.
    apply (write_zero_down_frame chip_hold (fun _ => True)
             (fun O r _ => chip_hold_OPLWriteReg O r 0) n hi O (fun _ _ => I)). }
  pose proof (fun O r v H => proj1 (OPLWriteReg_mode_wavesel O r v H)) as Fm.
  pose proof (fun O r v H => proj2 (OPLWriteReg_mode_wavesel O r v H)) as Fw.
  repeat refine (conj _ _).
  - rewrite Hh, chip_hold_OPLWriteReg, Hh. exact W2.
  - high_step (fun O : FM_OPL => mode O) Fm.
    etransitivity; [apply Fm; vm_compute; discriminate|].
    high_step (fun O : FM_OPL => mode O) Fm. exact W1.
  - high_step (fun O : FM_OPL => wavesel O) Fw.
    etransitivity; [apply Fw; vm_compute; discriminate|].
    high_step (fun O : FM_OPL => wavesel O) Fw. exact W3.
  - etransitivity; [|exact B1].
    apply (write_zero_down_not_bd (fun O : FM_OPL => rhythm O) _ _ _
             (fun O r v H => proj1 (OPLWriteReg_rhythm O r v H)));
      [vm_compute; discriminate | vm_compute; discriminate | left; reflexivity].
  - etransitivity; [|exact B2].
    apply (write_zero_down_not_bd (fun O : FM_OPL => lfo_am_depth O) _ _ _
             (fun O r v H => proj1 (proj2 (OPLWriteReg_rhythm O r v H))));
      [vm_compute; discriminate | vm_compute; discriminate | left; reflexivity].
  - etransitivity; [|exact B3].
    apply (write_zero_down_not_bd (fun O : FM_OPL => lfo_pm_depth_range O) _ _ _
             (fun O r v H => proj2 (proj2 (OPLWriteReg_rhythm O r v H))));
      [vm_compute; discriminate | vm_compute; discriminate | left; reflexivity].
Qed.

Lemma reset_status OPL0 :
  with_status (status OPL0) (OPL_STATUS_RESET 0x7f OPL0) = OPL0 /\
  Z.land (status (OPL_STATUS_RESET 0x7f OPL0)) 0x7f = 0.
Proof.
  destruct (status_reset_cases 0x7f OPL0) as [(_ & _ & ->)|(_ & ->)]; rsimpl.
  - split; [chip_eq|]. rewrite u8_land_ff. zbits.
  - split; [chip_eq|]. rewrite u8_land_ff. zbits.
Qed.

Lemma reset_fields (OPL OPL1 OPL5 : FM_OPL) (l : list OPL_CH) :
  let OPL0 := with_mode 0 (with_noise_rng 1 (with_eg_cnt 0 (with_eg_timer 0 OPL))) in
  with_status (status OPL0) OPL1 = OPL0 -> Z.land (status OPL1) 0x7f = 0 ->
  chip_hold OPL5 = chip_hold OPL1 -> mode OPL5 = mode OPL1 ->
  wavesel OPL5 = (if nz (Z.land (type OPL1) OPL_TYPE_WAVESEL) then 0 else wavesel OPL1) ->
  rhythm OPL5 = 0 -> lfo_am_depth OPL5 = 0 -> lfo_pm_depth_range OPL5 = 0 ->
  let R := with_P_CH l OPL5 in
  eg_cnt R = 0 /\ eg_timer R = 0 /\ noise_rng R = 1 /\ mode R = 0 /\
  rhythm R = 0 /\ lfo_am_depth R = 0 /\ lfo_pm_depth_range R = 0 /\
  Z.land (status R) 0x7f = 0 /\
  wavesel R = (if nz (Z.land (type OPL) OPL_TYPE_WAVESEL) then 0 else wavesel OPL) /\
  chip_const R = chip_const OPL /\ statusmask R = statusmask OPL /\
  address R = address OPL /\ lfo_am_cnt R = lfo_am_cnt OPL /\
  lfo_pm_cnt R = lfo_pm_cnt OPL /\ noise_p R = noise_p OPL.
Proof.
  intros OPL0 E1 Hst Eh Hm Hw Hr Ha Hp R.
  assert (with_status 0 (chip_hold OPL5) = with_status 0 (chip_hold OPL0)) as Eh0.
  { rewrite Eh, <- E1. unfold chip_hold. chip_eq. }
  assert (mode OPL1 = 0 /\ wavesel OPL1 = wavesel OPL /\ type OPL1 = type OPL)
    as (M1 & M2 & M3).
  { split; [exact (f_equal (fun O : FM_OPL => mode O) E1)|].
    split; [exact (f_equal (fun O : FM_OPL => wavesel O) E1)
           | exact (f_equal (fun O : FM_OPL => type O) E1)]. }
  unfold R. rsimpl.
  repeat refine (conj _ _).
  - exact (f_equal (fun O : FM_OPL => eg_cnt O) Eh0).
  - exact (f_equal (fun O : FM_OPL => eg_timer O) Eh0).
  - exact (f_equal (fun O : FM_OPL => noise_rng O) Eh0).
  - by rewrite Hm.
  - exact Hr.
  - exact Ha.
  - exact Hp.
  - rewrite <- Hst. f_equal. exact (f_equal (fun O : FM_OPL => status O) Eh).
  - by rewrite Hw, M3, M2.
  - exact (f_equal chip_const Eh0).
  - exact (f_equal (fun O : FM_OPL => statusmask O) Eh0).
  - exact (f_equal (fun O : FM_OPL => address O) Eh0).
  - exact (f_equal (fun O : FM_OPL => lfo_am_cnt O) Eh0).
  - exact (f_equal (fun O : FM_OPL => lfo_pm_cnt O) Eh0).
  - exact (f_equal (fun O : FM_OPL => noise_p O) Eh0).
Qed.

(** The steps of [OPLResetChip], each by its lemma. *)
Ltac reset_steps OPL :=
  cbv zeta; rewrite OPLResetChip_split; cbv zeta;
  pose proof (reset_status
                (with_mode 0 (with_noise_rng 1 (with_eg_cnt 0 (with_eg_timer 0 OPL)))))
    as [E1 Hst];
  pose proof (reset_writes
                (OPL_STATUS_RESET 0x7f
                   (with_mode 0 (with_noise_rng 1 (with_eg_cnt 0 (with_eg_timer 0 OPL))))))
    as (Eh & Hm & Hw & Hr & Ha & Hp).

Lemma chip_const_OPLResetChip OPL : chip_const (OPLResetChip OPL) = chip_const OPL.
Proof.
  reset_steps OPL.
  match goal with |- chip_const (with_P_CH ?l _) = _ =>
    apply (reset_fields OPL _ _ l E1 Hst Eh Hm Hw Hr Ha Hp) end.
Qed.

(** After [OPLResetChip]: the envelope counter and timer are 0, the
    noise register is 1, [mode], [rhythm] and the LFO depths are 0, the
    seven status flags are clear, and wave select is off if the chip
    has it.  The constants of the chip, the status mask, the address
    latch and the LFO counters are left as they were. *)
Theorem reset_chip_registers (OPL : FM_OPL) :
  let R := OPLResetChip OPL in
  eg_cnt R = 0 /\ eg_timer R = 0 /\ noise_rng R = 1 /\ mode R = 0 /\
  rhythm R = 0 /\ lfo_am_depth R = 0 /\ lfo_pm_depth_range R = 0 /\
  Z.land (status R) 0x7f = 0 /\
  wavesel R = (if nz (Z.land (type OPL) OPL_TYPE_WAVESEL) then 0 else wavesel OPL) /\
  chip_const R = chip_const OPL /\ statusmask R = statusmask OPL /\
  address R = address OPL /\ lfo_am_cnt R = lfo_am_cnt OPL /\
  lfo_pm_cnt R = lfo_pm_cnt OPL /\ noise_p R = noise_p OPL.
Proof.
  reset_steps OPL. exact (reset_fields OPL _ _ _ E1 Hst Eh Hm Hw Hr Ha Hp).
Qed.

(** Reset also selects the first waveform for every operator and points
    the output of every operator 1 at the output accumulator, whatever
    the connection bit of the channel says. *)
Theorem reset_connects_output (OPL : FM_OPL) :
  (length (P_CH OPL) <= 9)%nat ->
  Forall (fun op => connect1_is_output0 (connect1 op) = 1 /\ wavetable op = 0)
    (slots (OPLResetChip OPL)).
Proof.
  intros Hl. apply Forall_slots.
  destruct (OPLResetChip_P_CH OPL) as (l & Hlen & ->).
  rewrite for_slots_9 by lia. apply Forall_fmap, Forall_true.
  intros CH. split; unfold each_slot, reset_slot; rsimpl; done.
Qed.

Lemma reset_connects_output_witness :
  Forall (fun op => connect1_is_output0 (connect1 op) = 1 /\ wavetable op = 0)
    (slots (OPLResetChip zero_chip)).
Proof. apply (reset_connects_output zero_chip). vm_compute. lia. Defined.

(** ** The constants of a created chip *)

Lemma chip_const_OPLWriteReg OPL r v : chip_const (OPLWriteReg OPL r v) = chip_const OPL.
Proof. exact (f_equal chip_const (chip_hold_OPLWriteReg OPL r v)). Qed.

Lemma chip_const_OPLTimerOver OPL c : chip_const (fst (OPLTimerOver OPL c)) = chip_const OPL.
Proof.
  unfold OPLTimerOver, OPL_STATUS_SET. rsimpl. by repeat (case_goal; rsimpl).
Qed.

Lemma chip_const_run_event M e : chip_const (fst (fst (run_event M e))) = chip_const (fst M).
Proof.
  destruct e as [r v|n| |c].
  - rewrite run_event_EvWrite. cbn [fst]. by rewrite chip_const_OPLWriteReg.
  - exact (f_equal chip_const (chip_regs_update_loop _ _ M)).
  - apply chip_const_OPLResetChip.
  - apply chip_const_OPLTimerOver.
Qed.

Lemma tabs_run_event M e : tabs (snd (fst (run_event M e))) = tabs (snd M).
Proof. destruct e as [r v|n| |c]; try reflexivity. apply tabs_update_loop. Qed.

Lemma consts_run es M :
  chip_const (fst (fst (run M es))) = chip_const (fst M) /\
  tabs (snd (fst (run M es))) = tabs (snd M).
Proof.
  revert M. induction es as [|e es IH]; intros M; cbn [run]; [done|].
  pose proof (chip_const_run_event M e) as H1. pose proof (tabs_run_event M e) as H2.
  destruct (run_event M e) as [M1 xs]. specialize (IH M1).
  destruct (run M1 es) as [M2 ys]. cbn [fst snd] in *.
  destruct IH as [-> ->]. done.
Qed.

Lemma length_slots OPL : length (slots OPL) = (2 * length (P_CH OPL))%nat.
Proof.
  unfold slots. induction (P_CH OPL) as [|CH l IH]; [done|].
  cbn [mbind list_bind app length] in *. rewrite IH. lia.
Qed.

Lemma closed_under_update_True : closed_under_update (fun _ => True).
Proof. apply closed_under_update_regs. done. Qed.

(** What [ym3812_init] sets up stays for the life of the chip: after
    any sequence of calls the chip has its type, clock and rate, the
    frequency table and the increments that were derived from them, an
    envelope period of 65536, the two tables of [init_tables], nine
    channels and eighteen operators. *)
Theorem created_chip_constants (fp : fp_derived) (g : globals) (clock' rate' : Z)
    (es : list event) :
  let M := fst (run (ym3812_init fp g clock' rate') es) in
  chip_const (fst M)
  = (OPL_TYPE_YM3812, clock', rate', fp_fn_tab fp, 65536, fp_eg_timer_add fp,
     fp_noise_f fp, fp_lfo_am_inc fp, fp_lfo_pm_inc fp) /\
  tabs (snd M) = (fp_sin_tab fp, fp_tl_tab fp) /\
  length (P_CH (fst M)) = 9%nat /\ length (slots (fst M)) = 18%nat.
Proof.
  cbv zeta.
  destruct (consts_run es (ym3812_init fp g clock' rate')) as [-> ->].
  assert (length (P_CH (fst (fst (run (ym3812_init fp g clock' rate') es)))) = 9%nat)
    as Hl.
  { rewrite (proj1 (run_pres (fun _ => True) closed_under_update_True
                       closed_under_decode_True (conj (fun _ _ _ => I) (fun _ _ _ => I))
                       (fun _ _ => I) es _)).
    by rewrite init_channels. }
  rewrite length_slots, Hl.
  split; [|done].
  unfold ym3812_init, ym3812_reset_chip. cbn [fst].
  etransitivity; [apply chip_const_OPLResetChip|]. reflexivity.
Qed.

(** ** The noise register *)

(** The noise register is a 23-bit register: after a reset and any
    sequence of calls its value is positive and below 2^23. *)
Theorem noise_register_23_bits (M : machine) (es : list event) :
  0 < noise_rng (fst (fst (run (ym3812_reset_chip (fst M), snd M) es))) < 2 ^ 23.
Proof.
  apply (noise_ok_run es (ym3812_reset_chip (fst M), snd M)).
  unfold noise_ok, ym3812_reset_chip. cbn [fst]. rewrite noise_rng_OPLResetChip. lia.
Qed.


(** ** The key registers *)

Lemma key_FM_KEYON k S : Z.land (key (FM_KEYON k S)) k = k.
Proof. unfold FM_KEYON. case_goal; rsimpl; apply land_lor_absorb. Qed.

Lemma key_FM_KEYOFF k S :
  0 <= k < 2 ^ 32 -> Z.land (key (FM_KEYOFF (Z.lnot k) S)) k = 0.
Proof.
  intros Hk. unfold FM_KEYOFF. destruct (nz (key S)) eqn:E.
  - assert (Z.land (Z.land (key S) (u32 (Z.lnot k))) k = 0) as H0.
    { rewrite u32_land_ones.
      assert (Z.land (Z.land (key S) (Z.land (Z.lnot k) (Z.ones 32))) k
              = Z.land (Z.land (Z.land (key S) (Z.lnot k)) k) (Z.ones 32)) as -> by zbits.
      rewrite land_lnot_diag. apply Z.land_0_l. }
    repeat (case_goal; rsimpl); exact H0.
  - apply nz_false in E. rewrite E. apply Z.land_0_l.
Qed.

Lemma key_CALC_FCSLOT CH S : key (CALC_FCSLOT CH S) = key S.
Proof.
  unfold CALC_FCSLOT, set_rr_rates, set_dr_rates, set_ar_rates. rsimpl.
  by repeat (case_goal; rsimpl).
Qed.

Lemma key_update_block_fnum OPL bfn CH :
  key (SLOT1 (update_block_fnum OPL bfn CH)) = key (SLOT1 CH) /\
  key (SLOT2 (update_block_fnum OPL bfn CH)) = key (SLOT2 CH).
Proof.
  unfold update_block_fnum, in_SLOT1, in_SLOT2. rsimpl.
  by rewrite !key_CALC_FCSLOT.
Qed.

Lemma state_CALC_FCSLOT CH S :
  state (CALC_FCSLOT CH S) = state S /\ Cnt (CALC_FCSLOT CH S) = Cnt S.
Proof.
  unfold CALC_FCSLOT, set_rr_rates, set_dr_rates, set_ar_rates. rsimpl.
  by repeat (case_goal; rsimpl).
Qed.

Lemma block_fnum_write_fnum OPL r v CH :
  block_fnum (write_fnum OPL r v CH)
  = if Z.land r 0x10 =? 0
    then Z.lor (Z.land (block_fnum CH) 0x1f00) v
    else Z.lor (Z.shiftl (Z.land v 0x1f) 8) (Z.land (block_fnum CH) 0xff).
Proof.
  unfold write_fnum. cbv zeta.
  set (bfn := if Z.land r 16 =? 0 then Z.lor _ _ else _).
  set (CHk := if Z.land r 16 =? 0 then CH else _).
  destruct (Z.eqb_spec (block_fnum CHk) bfn) as [E|E]; [exact E | reflexivity].
Qed.

Lemma write_fnum_keys OPL r v CH :
  Z.land r 0x10 <> 0 ->
  let k := if nz (Z.land v 0x20) then 1 else 0 in
  Z.land (key (SLOT1 (write_fnum OPL r v CH))) 1 = k /\
  Z.land (key (SLOT2 (write_fnum OPL r v CH))) 1 = k.
Proof.
  intros Hr. cbv zeta. unfold write_fnum. cbv zeta.
  apply Z.eqb_neq in Hr. rewrite Hr.
  set (bfn := Z.lor _ _).
  assert (forall CHk,
             Z.land (key (SLOT1 (if block_fnum CHk =? bfn then CHk
                                 else update_block_fnum OPL bfn CHk))) 1
             = Z.land (key (SLOT1 CHk)) 1 /\
             Z.land (key (SLOT2 (if block_fnum CHk =? bfn then CHk
                                 else update_block_fnum OPL bfn CHk))) 1
             = Z.land (key (SLOT2 CHk)) 1) as Hu.
  { intros CHk. case_goal; [done|].
    destruct (key_update_block_fnum OPL bfn CHk) as [-> ->]. done. }
  destruct (nz (Z.land v 32)).
  - destruct (Hu (in_SLOT2 (FM_KEYON 1) (in_SLOT1 (FM_KEYON 1) CH))) as [-> ->].
    unfold in_SLOT1, in_SLOT2. rsimpl. split; apply key_FM_KEYON.
  - destruct (Hu (in_SLOT2 (FM_KEYOFF (Z.lnot 1)) (in_SLOT1 (FM_KEYOFF (Z.lnot 1)) CH)))
      as [-> ->].
    unfold in_SLOT1, in_SLOT2. rsimpl. split; apply key_FM_KEYOFF; lia.
Qed.

Lemma pick_channel OPL r v (c : Z) CH :
  Z.land r 0xe0 = 0xa0 -> Z.land r 0xff <> 0xbd -> Z.land r 0x0f = c -> c <= 8 ->
  P_CH OPL !! Z.to_nat c = Some CH ->
  P_CH (OPLWriteReg OPL r v) !! Z.to_nat c
  = Some (write_fnum OPL (Z.land r 0xff) (Z.land v 0xff) CH).
Proof.
  intros Hr Hbd Hc H8 HCH. pick_block r.
  apply Z.eqb_neq in Hbd. rewrite Hbd.
  rewrite !(land_land_const r 0xff 0x0f). change (Z.land 0xff 0x0f) with 0x0f.
  rewrite Hc. destruct (Z.ltb_spec 8 c); [lia|]. rsimpl.
  by rewrite list_lookup_alter_eq, HCH.
Qed.

(** Registers 0xB0-0xB8: bit 5 of the value is the key of the channel.
    After the write, key bit 0 of both operators is that bit; and the
    two registers 0xA0+c and 0xB0+c together hold the 13 bits of
    [block_fnum]: after writing [v] to the first and [w] to the second
    it is [((w & 0x1f) << 8) | v]. *)
Theorem key_and_fnum_registers (OPL : FM_OPL) (c v w : Z) (CH : OPL_CH) :
  0 <= c <= 8 -> P_CH OPL !! Z.to_nat c = Some CH ->
  (exists CH',
      P_CH (OPLWriteReg OPL (0xb0 + c) w) !! Z.to_nat c = Some CH' /\
      Forall (fun op => Z.land (key op) 1 = if nz (Z.land w 0x20) then 1 else 0)
        [SLOT1 CH'; SLOT2 CH']) /\
  (exists CH',
      P_CH (OPLWriteReg (OPLWriteReg OPL (0xa0 + c) v) (0xb0 + c) w) !! Z.to_nat c
      = Some CH' /\
      block_fnum CH' = Z.lor (Z.shiftl (Z.land w 0x1f) 8) (Z.land v 0xff)).
Proof.
  intros Hc HCH.
  assert (Z.land (0xb0 + c) 0xe0 = 0xa0 /\ Z.land (0xb0 + c) 0xff <> 0xbd /\
          Z.land (0xb0 + c) 0x0f = c /\ Z.land (Z.land (0xb0 + c) 0xff) 0x10 <> 0 /\
          Z.land (0xa0 + c) 0xe0 = 0xa0 /\ Z.land (0xa0 + c) 0xff <> 0xbd /\
          Z.land (0xa0 + c) 0x0f = c /\ Z.land (Z.land (0xa0 + c) 0xff) 0x10 = 0)
    as (B1 & B2 & B3 & B4 & A1 & A2 & A3 & A4).
  { assert (c = 0 \/ c = 1 \/ c = 2 \/ c = 3 \/ c = 4 \/ c = 5 \/ c = 6 \/ c = 7 \/ c = 8)
      as Hcase by lia.
    destruct Hcase as [->|[->|[->|[->|[->|[->|[->|[->| ->]]]]]]]];
      vm_compute; repeat split; congruence. }
  split.
  - eexists. split; [exact (pick_channel OPL (0xb0 + c) w c CH B1 B2 B3 ltac:(lia) HCH)|].
    destruct (write_fnum_keys OPL (Z.land (0xb0 + c) 0xff) (Z.land w 0xff) CH B4)
      as [K1 K2].
    rewrite land_land_const in K1, K2. change (Z.land 0xff 0x20) with 0x20 in K1, K2.
    constructor; [exact K1|]. constructor; [exact K2|]. constructor.
  - pose proof (pick_channel OPL (0xa0 + c) v c CH A1 A2 A3 ltac:(lia) HCH) as E1.
    eexists. split; [exact (pick_channel _ (0xb0 + c) w c _ B1 B2 B3 ltac:(lia) E1)|].
    rewrite !block_fnum_write_fnum. apply Z.eqb_neq in B4. apply Z.eqb_eq in A4.
    rewrite A4, B4. rewrite (land_land_const w 0xff 0x1f).
    change (Z.land 0xff 0x1f) with 0x1f. f_equal.
    rewrite Z.land_lor_distr_l, !land_land_const.
    change (Z.land 0x1f00 0xff) with 0. change (Z.land 0xff 0xff) with 0xff.
    by rewrite Z.land_0_r, Z.lor_0_l.
Qed.

Lemma key_and_fnum_registers_witness :
  exists CH',
    P_CH (OPLWriteReg (OPLWriteReg demo_chip 0xa3 0x41) 0xb3 0x32) !! 3%nat = Some CH' /\
    block_fnum CH' = 0x1241.
Proof.
  destruct (key_and_fnum_registers demo_chip 3 0x41 0x32 demo_ch) as [_ (CH' & H1 & H2)];
    [lia | reflexivity |].
  exists CH'. split; [exact H1 | exact H2].
Defined.

(** ** The rhythm register *)

Lemma key_switch_bit c S :
  Z.land (key (key_switch c 2 S)) 2 = if nz c then 2 else 0.
Proof.
  unfold key_switch. destruct (nz c); [apply key_FM_KEYON | apply key_FM_KEYOFF; lia].
Qed.

Lemma rhythm_keys_lookup bd hh sd tom top (l : list OPL_CH) :
  rhythm_keys bd hh sd tom top l !! 6%nat
  = (fun CH => in_SLOT2 bd (in_SLOT1 bd CH)) <$> l !! 6%nat /\
  rhythm_keys bd hh sd tom top l !! 7%nat
  = (fun CH => in_SLOT2 sd (in_SLOT1 hh CH)) <$> l !! 7%nat /\
  rhythm_keys bd hh sd tom top l !! 8%nat
  = (fun CH => in_SLOT2 top (in_SLOT1 tom CH)) <$> l !! 8%nat /\
  (forall i, (i < 6)%nat -> rhythm_keys bd hh sd tom top l !! i = l !! i).
Proof.
  unfold rhythm_keys. repeat refine (conj _ _).
  - rewrite !list_lookup_alter_ne by lia. rewrite !list_lookup_alter_eq.
    by destruct (l !! 6%nat).
  - rewrite !list_lookup_alter_ne by lia. rewrite !list_lookup_alter_eq.
    rewrite !list_lookup_alter_ne by lia. by destruct (l !! 7%nat).
  - rewrite !list_lookup_alter_eq. rewrite !list_lookup_alter_ne by lia.
    by destruct (l !! 8%nat).
  - intros i Hi. by rewrite !list_lookup_alter_ne by lia.
Qed.

(** Register 0xBD: the five rhythm keys.  After the write, key bit 1 of
    each rhythm operator is set exactly when the rhythm bit 0x20 and the
    bit of its voice are both set in the value: 0x10 for the bass drum
    (both operators of channel 6), 0x01 for the high hat, 0x08 for the
    snare drum (channel 7), 0x04 for the tom and 0x02 for the top cymbal
    (channel 8).  With the rhythm bit clear all five are released.  The
    channels 0-5 are not touched. *)
Theorem rhythm_key_register (OPL : FM_OPL) (v : Z) :
  let OPL' := OPLWriteReg OPL 0xbd v in
  let bit b := if nz (Z.land v 0x20) && nz (Z.land v b) then 2 else 0 in
  (forall CH, P_CH OPL' !! 6%nat = Some CH ->
     Z.land (key (SLOT1 CH)) 2 = bit 0x10 /\ Z.land (key (SLOT2 CH)) 2 = bit 0x10) /\
  (forall CH, P_CH OPL' !! 7%nat = Some CH ->
     Z.land (key (SLOT1 CH)) 2 = bit 0x01 /\ Z.land (key (SLOT2 CH)) 2 = bit 0x08) /\
  (forall CH, P_CH OPL' !! 8%nat = Some CH ->
     Z.land (key (SLOT1 CH)) 2 = bit 0x04 /\ Z.land (key (SLOT2 CH)) 2 = bit 0x02) /\
  (forall i, (i < 6)%nat -> P_CH OPL' !! i = P_CH OPL !! i).
Proof.
  cbv zeta. unfold OPLWriteReg. change (Z.land 0xbd 0xff) with 0xbd. cbv zeta.
  change (Z.land 0xbd 0xe0 =? 0) with false. change (Z.land 0xbd 0xe0 =? 0x20) with false.
  change (Z.land 0xbd 0xe0 =? 0x40) with false. change (Z.land 0xbd 0xe0 =? 0x60) with false.
  change (Z.land 0xbd 0xe0 =? 0x80) with false. change (Z.land 0xbd 0xe0 =? 0xa0) with true.
  change (0xbd =? 0xbd) with true. cbv iota.
  unfold write_rhythm. rsimpl.
  rewrite !(land_land_const v 0xff). change (Z.land 0xff 0x3f) with 0x3f.
  rewrite !(land_land_const v 0x3f). change (Z.land 0x3f 0x20) with 0x20.
  change (Z.land 0xff 0x10) with 0x10. change (Z.land 0xff 0x01) with 0x01.
  change (Z.land 0xff 0x08) with 0x08. change (Z.land 0xff 0x04) with 0x04.
  change (Z.land 0xff 0x02) with 0x02.
  destruct (nz (Z.land v 32)); cbn [andb]; rsimpl;
    match goal with |- context [rhythm_keys ?a ?b ?c ?d ?e ?l] =>
      destruct (rhythm_keys_lookup a b c d e l) as (L6 & L7 & L8 & Lo) end;
    rewrite L6, L7, L8; (split; [|split; [|split]]); try exact Lo;
    intros CH HCH; apply fmap_Some in HCH as (CH0 & _ & ->);
    unfold in_SLOT1, in_SLOT2; rsimpl;
    split; first [apply key_switch_bit | apply key_FM_KEYOFF; lia].
Qed.

Lemma rhythm_key_register_witness :
  exists CH, P_CH (OPLWriteReg demo_chip 0xbd 0x30) !! 6%nat = Some CH /\
             Z.land (key (SLOT1 CH)) 2 = 2.
Proof.
  destruct (P_CH (OPLWriteReg demo_chip 0xbd 0x30) !! 6%nat) as [CH|] eqn:H;
    [|vm_compute in H; discriminate].
  exists CH. split; [reflexivity|].
  exact (proj1 (proj1 (rhythm_key_register demo_chip 0x30) CH H)).
Defined.

(** ** The connection of operator 1 *)

(** [set_connect1] and [connect1_is_output0] are a setter and its
    getter: what the first stores for an operator of one of the nine
    channels, the second reads back from it, and the other operator of
    the channel is left alone. *)
Theorem set_connect1_round_trip (chip : FM_OPL) (x y o : Z) (CH : OPL_CH) :
  0 <= x < 9 -> y = 0 \/ y = 1 -> P_CH chip !! Z.to_nat x = Some CH ->
  exists CH',
    P_CH (set_connect1 chip x y o) !! Z.to_nat x = Some CH' /\
    connect1_is_output0 (connect1 (slot_of y CH')) = (if nz o then 1 else 0) /\
    slot_of (1 - y) CH' = slot_of (1 - y) CH.
Proof.
  intros Hx Hy HCH. unfold set_connect1. cbv zeta.
  assert ((0 <=? x) && (x <? 9) = true) as -> by lia.
  destruct Hy as [-> | ->].
  - change (0 =? 0) with true. cbv iota. rsimpl.
    eexists. split; [by rewrite list_lookup_alter_eq, HCH|].
    unfold slot_of, in_SLOT1. change (Z.land 0 1 =? 0) with true.
    change (Z.land (1 - 0) 1 =? 0) with false. cbv iota. rsimpl.
    split; [by destruct (nz o) | done].
  - change (1 =? 0) with false. change (1 =? 1) with true. cbv iota. rsimpl.
    eexists. split; [by rewrite list_lookup_alter_eq, HCH|].
    unfold slot_of, in_SLOT2. change (Z.land 1 1 =? 0) with false.
    change (Z.land (1 - 1) 1 =? 0) with true. cbv iota. rsimpl.
    split; [by destruct (nz o) | done].
Qed.

Lemma set_connect1_round_trip_witness :
  exists CH',
    P_CH (set_connect1 demo_chip 4 0 0) !! 4%nat = Some CH' /\
    connect1_is_output0 (connect1 (slot_of 0 CH')) = 0.
Proof.
  destruct (set_connect1_round_trip demo_chip 4 0 0 demo_ch) as (CH' & H1 & H2 & _);
    [lia | by left | reflexivity |].
  exists CH'. split; [exact H1 | exact H2].
Defined.

(** ** The timer units *)

(** [fmopl_set_machine_parameter]: the two timer units are the numbers
    of clock cycles in 80 and in 320 microseconds, rounded down; so the
    second is four times the first, up to the rounding. *)
Theorem timer_units (clock_rate : Z) :
  0 <= clock_rate -> clock_rate * 320 < 2 ^ 31 ->
  let t := fmopl_set_machine_parameter clock_rate in
  fst t * 12500 <= clock_rate < (fst t + 1) * 12500 /\
  snd t * 3125 <= clock_rate < (snd t + 1) * 3125 /\
  4 * fst t <= snd t <= 4 * fst t + 3.
Proof.
  intros H0 H1. cbv zeta. unfold fmopl_set_machine_parameter. cbn [fst snd].
  rewrite !Z.quot_div_nonneg by lia.
  rewrite !u32_small by (split; [apply Z.div_pos; lia | zlia]).
  zlia.
Qed.

Lemma timer_units_witness : fmopl_set_machine_parameter 985248 = (78, 315).
Proof.
  pose proof (timer_units 985248 ltac:(lia) ltac:(lia)) as (A & B & C).
  destruct (fmopl_set_machine_parameter 985248) as [a b]. cbn [fst snd] in *.
  f_equal; lia.
Defined.

(** ** The operator network *)

(** What [OPL_CALC_CH] and [OPL_CALC_RH] write to the chip is the
    output history of operator 1 of the channel (of channel 6 for the
    rhythm section): the older entry becomes the newer one of the
    sample before.  The second operator, the channels 7 and 8 and all
    decoded fields are read only.  The tables and the tremolo value in
    the file-scope variables are read only as well. *)
Theorem operator_network_writes (g : globals) (CH CH7 CH8 : OPL_CH) (noise : Z) :
  (exists b,
      snd (OPL_CALC_CH g CH)
      = in_SLOT1 (fun S => with_op1_out1 b (with_op1_out0 (op1_out1 S) S)) CH) /\
  (exists b,
      snd (OPL_CALC_RH g CH CH7 CH8 noise)
      = in_SLOT1 (fun S => with_op1_out1 b (with_op1_out0 (op1_out1 S) S)) CH) /\
  tabs (fst (OPL_CALC_CH g CH)) = tabs g /\
  tabs (fst (OPL_CALC_RH g CH CH7 CH8 noise)) = tabs g /\
  LFO_AM (fst (OPL_CALC_RH g CH CH7 CH8 noise)) = LFO_AM g.
Proof.
  split; [apply OPL_CALC_CH_history|]. split; [apply OPL_CALC_RH_history|].
  split; [apply tabs_OPL_CALC_CH|]. split; [apply tabs_OPL_CALC_RH|].
  apply LFO_AM_OPL_CALC_RH.
Qed.
